(** * Advisory file locks: [FileLock] and [AsyncFileLock]

    A shallow embedding of [src/simple_filelock.py] and
    [src/simple_filelock_async.py].  Both classes open a lock file and poll
    [fcntl.flock(fd, LOCK_EX | LOCK_NB)] until it succeeds or a timeout
    expires.  Everything they do is an effect on the operating system, so the
    development has three layers:

    - [posixpath], [Kernel]: the part of POSIX and of the Python runtime the
      two classes call ([os.path.dirname], [os.makedirs], [open], [flock],
      [close], the clock);
    - [Env], [Py]: the other contenders, interleaved with the calls of the
      handle under study, and a state-and-exception monad in which the
      methods are written;
    - [FileLock], [AsyncFileLock]: the methods, one definition per method of
      the source, followed by the theorems about them.

    Modelling choices, all of them visible in the definitions below:
    - durations and clock readings (Python floats) are exact rationals [Q]:
      a timeout is a finite number, and the floats [inf] and [nan], which
      are true and which no elapsed time exceeds, are outside the model;
    - a file is identified by the spelling of its path (no links, no
      unlinking: the handle never deletes the lock file), and an open file
      description by a number that is never reused;
    - only non-blocking exclusive requests and unlock requests are given a
      meaning by [Kernel.sys_flock]; every other operation word is [EINVAL];
    - a descriptor belongs to the contender that opened it and no other
      contender can name it;
    - the others act between the calls of the handle: before each call the
      next batch of their script runs; a script can also make the machine
      fail (no lock records left, unlock or close reporting an I/O error);
    - a file object is referenced by its handle only, and what the garbage
      collector does to a file object that a handle has dropped is not
      modelled;
    - [while True] is run with a bound on the number of iterations; the
      result [OutOfFuel] says that the loop is still polling. *)

From Stdlib Require Import Ascii String QArith Lqa.
From stdpp Require Import gmap strings list.

Set Default Proof Using "Type".

(* ===================================================================== *)
(** ** [posixpath]: [split] and [dirname] *)
(* ===================================================================== *)

Module posixpath.

Definition is_sep (c : ascii) : bool := Ascii.eqb c "/"%char.

Fixpoint take_tail (r : list ascii) : list ascii :=
  match r with
  | [] => []
  | c :: r' => if is_sep c then [] else c :: take_tail r'
  end.

Fixpoint drop_seps (r : list ascii) : list ascii :=
  match r with
  | [] => []
  | c :: r' => if is_sep c then drop_seps r' else r
  end.

Definition nonempty (r : list ascii) : bool :=
  match r with [] => false | _ => true end.

(** [posixpath.split]:
<<
    i = p.rfind(sep) + 1
    head, tail = p[:i], p[i:]
    if head and head != sep*len(head):
        head = head.rstrip(sep)
    return head, tail
>>
    computed on the reversed string: the tail is what precedes the first
    separator of the reversal. *)
Definition split (p : string) : string * string :=
  let r := rev (list_ascii_of_string p) in
  let tail_r := take_tail r in
  let head_r := drop (length tail_r) r in
  let head_r' :=
    if nonempty head_r && negb (forallb is_sep head_r)
    then drop_seps head_r else head_r in
  (string_of_list_ascii (rev head_r'), string_of_list_ascii (rev tail_r)).

(** [posixpath.dirname] is the head of [split]. *)
Definition dirname (p : string) : string := fst (split p).

(** [p.rstrip('/')], used by the kernel to resolve a name with trailing
    separators. *)
Definition rstrip_sep (p : string) : string :=
  string_of_list_ascii (rev (drop_seps (rev (list_ascii_of_string p)))).

Definition all_seps (p : string) : bool :=
  forallb is_sep (list_ascii_of_string p).

Definition is_empty (p : string) : bool :=
  match p with EmptyString => true | _ => false end.

#[global] Arguments split : simpl never.
#[global] Arguments dirname : simpl never.
#[global] Arguments rstrip_sep : simpl never.
#[global] Arguments all_seps : simpl never.

End posixpath.

(* ===================================================================== *)
(** ** The kernel: directories, open file descriptions, [flock], clock *)
(* ===================================================================== *)

Module Kernel.

Inductive errno :=
| ENOENT | EEXIST | EISDIR | EBADF | EINVAL | EWOULDBLOCK | ENOLCK | EIO.

#[global] Instance errno_eq_dec : EqDecision errno.
Proof. solve_decision. Defined.

(** [fcntl] operation words. *)
Definition LOCK_SH : Z := 1.
Definition LOCK_EX : Z := 2.
Definition LOCK_NB : Z := 4.
Definition LOCK_UN : Z := 8.

(** An open file description: who opened it, and on which file. *)
Record ofd := Ofd { ofd_owner : nat; ofd_path : string }.

Record t := mk {
  k_dirs : gset string;        (* existing directories *)
  k_files : gset string;       (* existing regular files *)
  k_open : gmap nat ofd;       (* open file descriptions *)
  k_next : nat;                (* next description number *)
  k_lock : gmap string nat;    (* file |-> description holding LOCK_EX *)
  k_now : Q;                   (* wall clock, seconds *)
  k_enolck : bool;             (* no memory left for lock records *)
  k_unlock_eio : bool;         (* unlock requests report an I/O error *)
  k_close_eio : bool           (* close reports an I/O error *)
}.

Definition set_dirs (f : gset string -> gset string) (k : t) : t :=
  mk (f (k_dirs k)) (k_files k) (k_open k) (k_next k) (k_lock k) (k_now k)
     (k_enolck k) (k_unlock_eio k) (k_close_eio k).
Definition set_files (f : gset string -> gset string) (k : t) : t :=
  mk (k_dirs k) (f (k_files k)) (k_open k) (k_next k) (k_lock k) (k_now k)
     (k_enolck k) (k_unlock_eio k) (k_close_eio k).
Definition set_open (f : gmap nat ofd -> gmap nat ofd) (k : t) : t :=
  mk (k_dirs k) (k_files k) (f (k_open k)) (k_next k) (k_lock k) (k_now k)
     (k_enolck k) (k_unlock_eio k) (k_close_eio k).
Definition set_next (n : nat) (k : t) : t :=
  mk (k_dirs k) (k_files k) (k_open k) n (k_lock k) (k_now k)
     (k_enolck k) (k_unlock_eio k) (k_close_eio k).
Definition set_lock (f : gmap string nat -> gmap string nat) (k : t) : t :=
  mk (k_dirs k) (k_files k) (k_open k) (k_next k) (f (k_lock k)) (k_now k)
     (k_enolck k) (k_unlock_eio k) (k_close_eio k).
Definition set_now (q : Q) (k : t) : t :=
  mk (k_dirs k) (k_files k) (k_open k) (k_next k) (k_lock k) q
     (k_enolck k) (k_unlock_eio k) (k_close_eio k).

(** The faults the kernel can be in: they come and go with the state of
    the machine (memory for lock records, the storage behind the file). *)
Inductive fault := NoLockRecords | UnlockError | CloseError.

Definition set_fault (f : fault) (on : bool) (k : t) : t :=
  match f with
  | NoLockRecords =>
    mk (k_dirs k) (k_files k) (k_open k) (k_next k) (k_lock k) (k_now k)
       on (k_unlock_eio k) (k_close_eio k)
  | UnlockError =>
    mk (k_dirs k) (k_files k) (k_open k) (k_next k) (k_lock k) (k_now k)
       (k_enolck k) on (k_close_eio k)
  | CloseError =>
    mk (k_dirs k) (k_files k) (k_open k) (k_next k) (k_lock k) (k_now k)
       (k_enolck k) (k_unlock_eio k) on
  end.

(** *** Name resolution *)

(** The root resolves under any number of separators; any other name
    resolves with its trailing separators removed.  The empty name resolves
    to nothing. *)
Definition is_dir (k : t) (p : string) : bool :=
  negb (posixpath.is_empty p) &&
  (posixpath.all_seps p || bool_decide (posixpath.rstrip_sep p ∈ k_dirs k)).

Definition is_file (k : t) (p : string) : bool :=
  bool_decide (p ∈ k_files k).

(** [os.path.exists] *)
Definition exists_ (k : t) (p : string) : bool := is_dir k p || is_file k p.

(** The directory in which the last component of [p] is looked up: the
    current directory for a bare name. *)
Definition parent_ok (k : t) (p : string) : bool :=
  let d := posixpath.dirname (posixpath.rstrip_sep p) in
  posixpath.is_empty d || is_dir k d.

(** *** mkdir(2) *)
Definition sys_mkdir (p : string) (k : t) : option errno * t :=
  if posixpath.is_empty p then (Some ENOENT, k)
  else if exists_ k p then (Some EEXIST, k)
  else if negb (parent_ok k p) then (Some ENOENT, k)
  else (None, set_dirs (fun d => {[ posixpath.rstrip_sep p ]} ∪ d) k).

(** *** open(2) with [O_WRONLY | O_CREAT | O_TRUNC], the mode ['w'] *)
Definition ends_with_sep (p : string) : bool :=
  match rev (list_ascii_of_string p) with
  | c :: _ => posixpath.is_sep c
  | [] => false
  end.

Definition sys_open (who : nat) (p : string) (k : t) : (errno + nat) * t :=
  if posixpath.is_empty p then (inl ENOENT, k)
  else if is_dir k p || ends_with_sep p then (inl EISDIR, k)
  else if negb (parent_ok k p) then (inl ENOENT, k)
  else
    let fd := k_next k in
    (inr fd,
     set_next (S fd)
       (set_open (fun o => <[fd := Ofd who p]> o)
          (set_files (fun f => {[ p ]} ∪ f) k))).

(** *** flock(2) *)

(** The lock table after description [fd] gives up whatever it holds on
    file [p]. *)
Definition release (p : string) (fd : nat) (l : gmap string nat)
  : gmap string nat :=
  match l !! p with
  | Some g => if (g =? fd)%nat then delete p l else l
  | None => l
  end.

Definition sys_flock (who fd : nat) (op : Z) (k : t) : option errno * t :=
  match k_open k !! fd with
  | None => (Some EBADF, k)
  | Some o =>
    if negb (ofd_owner o =? who)%nat then (Some EBADF, k)
    else if (op =? Z.lor LOCK_EX LOCK_NB)%Z then
      if k_enolck k then (Some ENOLCK, k)
      else match k_lock k !! ofd_path o with
           | Some g =>
             if (g =? fd)%nat then (None, k) else (Some EWOULDBLOCK, k)
           | None => (None, set_lock (fun l => <[ofd_path o := fd]> l) k)
           end
    else if (op =? LOCK_UN)%Z then
      if k_unlock_eio k then (Some EIO, k)
      else (None, set_lock (release (ofd_path o) fd) k)
    else (Some EINVAL, k)
  end.

(** *** close(2): the description goes away, and its lock with it, also
    when the call reports an error. *)
Definition sys_close (who fd : nat) (k : t) : option errno * t :=
  match k_open k !! fd with
  | None => (Some EBADF, k)
  | Some o =>
    if negb (ofd_owner o =? who)%nat then (Some EBADF, k)
    else
      (if k_close_eio k then Some EIO else None,
       set_open (fun m => delete fd m)
         (set_lock (release (ofd_path o) fd) k))
  end.

(** *** The clock *)
Definition sys_sleep (d : Q) (k : t) : t := set_now (k_now k + d)%Q k.

(** *** [os.makedirs(name, exist_ok=True)]
<<
    head, tail = path.split(name)
    if not tail:
        head, tail = path.split(head)
    if head and tail and not path.exists(head):
        try:
            makedirs(head, exist_ok=exist_ok)
        except FileExistsError:
            pass
        if tail == curdir:
            return
    try:
        mkdir(name, mode)
    except OSError:
        if not exist_ok or not path.isdir(name):
            raise
>>
    The recursion is on a strictly shorter name; [fuel] bounds its depth. *)
Definition mkdir_exist_ok (name : string) (k : t) : option errno * t :=
  match sys_mkdir name k with
  | (Some e, k') => if is_dir k' name then (None, k') else (Some e, k')
  | ok => ok
  end.

Fixpoint makedirs_rec (fuel : nat) (name : string) (k : t)
  : option errno * t :=
  let '(head, tail) := posixpath.split name in
  let '(head, tail) :=
    if posixpath.is_empty tail then posixpath.split head else (head, tail) in
  if negb (posixpath.is_empty head) && negb (posixpath.is_empty tail)
     && negb (exists_ k head)
  then
    match fuel with
    | O => (Some EINVAL, k)
    | S fuel' =>
      match makedirs_rec fuel' head k with
      | (Some e, k') =>
        if bool_decide (e = EEXIST)
        then if String.eqb tail "." then (None, k') else mkdir_exist_ok name k'
        else (Some e, k')
      | (None, k') =>
        if String.eqb tail "." then (None, k') else mkdir_exist_ok name k'
      end
    end
  else mkdir_exist_ok name k.

Definition makedirs (name : string) (k : t) : option errno * t :=
  makedirs_rec (String.length name) name k.

#[global] Arguments sys_mkdir : simpl never.
#[global] Arguments sys_open : simpl never.
#[global] Arguments sys_flock : simpl never.
#[global] Arguments sys_close : simpl never.
#[global] Arguments makedirs : simpl never.
#[global] Arguments mkdir_exist_ok : simpl never.
#[global] Arguments is_dir : simpl never.
#[global] Arguments exists_ : simpl never.
#[global] Arguments parent_ok : simpl never.

(** *** Well-formed kernels *)

(** Description numbers are below [k_next]; a lock is held by an open
    description of the locked file. *)
Definition wf (k : t) : Prop :=
  map_Forall (λ fd _, fd < k_next k) (k_open k) ∧
  map_Forall (λ p fd, ofd_path <$> k_open k !! fd = Some p) (k_lock k).

#[global] Instance wf_dec k : Decision (wf k).
Proof. unfold wf. apply _. Defined.

(** Contender [who] holds the exclusive lock on file [p] through
    description [fd]. *)
Definition holds (k : t) (who : nat) (p : string) (fd : nat) : Prop :=
  k_open k !! fd = Some (Ofd who p) ∧ k_lock k !! p = Some fd.

End Kernel.


(* ===================================================================== *)
(** ** The other contenders *)
(* ===================================================================== *)

Module Env.

(** What another contender (or the passing of time) can do to the kernel
    between two calls of the handle under study. *)
Inductive action :=
| Tick (d : Q)
| Mkdir (p : string)
| Open (who : nat) (p : string)
| Flock (who fd : nat) (op : Z)
| Close (who fd : nat)
| Fault (f : Kernel.fault) (on : bool).

Definition step (k : Kernel.t) (a : action) : Kernel.t :=
  match a with
  | Tick d => Kernel.sys_sleep d k
  | Mkdir p => snd (Kernel.sys_mkdir p k)
  | Open who p => snd (Kernel.sys_open who p k)
  | Flock who fd op => snd (Kernel.sys_flock who fd op k)
  | Close who fd => snd (Kernel.sys_close who fd k)
  | Fault f on => Kernel.set_fault f on k
  end.

Definition run (acts : list action) (k : Kernel.t) : Kernel.t :=
  fold_left step acts k.

(** The action is one of another contender than [who], or time passing
    forwards: not a call in the name of [who], not the clock set back, not
    a fault of the machine. *)
Definition foreign (who : nat) (a : action) : Prop :=
  match a with
  | Tick d => (0 <= d)%Q
  | Mkdir _ => True
  | Open w _ | Flock w _ _ | Close w _ => w ≠ who
  | Fault _ _ => False
  end.

(** A script gives the actions that happen before each call of the handle:
    its n-th batch runs just before the n-th call. *)
Definition script := list (list action).

Definition foreign_script (who : nat) (s : script) : Prop :=
  Forall (Forall (foreign who)) s.

End Env.

(* ===================================================================== *)
(** ** The Python runtime: exceptions, file objects, effects *)
(* ===================================================================== *)

Module Py.
Import Kernel.

(** The exceptions that can reach the two classes.  [BlockingIOError],
    [FileNotFoundError] and [FileExistsError] are the [OSError]s with the
    matching [errno].  [TimeoutError] is raised with the message
    [f"No se pudo obtener el lock en {self.timeout} segundos."]; the
    constructor keeps the interpolated value. *)
Inductive Exn :=
| OSError (e : errno)
| ValueError                     (* I/O operation on closed file *)
| TypeError                      (* flock on an object without fileno() *)
| AttributeError                 (* None has no attribute close *)
| TimeoutError (t : option Q).

Definition isinstance_BlockingIOError (e : Exn) : bool :=
  match e with OSError EWOULDBLOCK => true | _ => false end.

Definition isinstance_Exception (e : Exn) : bool := true.

Inductive Res (A : Type) :=
| Ok (a : A)
| Raise (e : Exn)
| OutOfFuel.
Arguments Ok {A} a.
Arguments Raise {A} e.
Arguments OutOfFuel {A}.

(** A file object as returned by [open]: its descriptor and whether
    [close()] has been called on it. *)
Record FileObj := File { fileno : nat; closed : bool }.

(** The texts handed to [logging.debug]. *)
Inductive LogMsg :=
| MsgTrying (path : string)
| MsgAcquired
| MsgReleased
| MsgReleaseError (e : Exn).

(** The effects of a handle, in the order it performs them (most recent
    first in a trace). *)
Inductive Event :=
| EvMakedirs (name : string)
| EvOpen (path : string)
| EvFlock (fd : nat) (op : Z)
| EvClose (fd : nat)
| EvTime
| EvSleep (d : Q)
| EvDebug (m : LogMsg)
| EvExecutor                     (* loop.run_in_executor(None, ...) *)
| EvAsyncSleep (d : Q).          (* asyncio.sleep *)

Record World := mkWorld {
  kernel : Kernel.t;
  env : Env.script;              (* what the others will do *)
  trace : list Event;
  me : nat                       (* the contender running the handle *)
}.

Record St (S : Type) := mkSt { self : S; world : World }.
Arguments mkSt {S} self world.
Arguments self {S} s.
Arguments world {S} s.

Definition M (S A : Type) : Type := St S -> Res A * St S.

Section Monad.
Context {S : Type}.

Definition ret {A} (a : A) : M S A := fun st => (Ok a, st).

Definition bind {A B} (m : M S A) (f : A -> M S B) : M S B :=
  fun st =>
    match m st with
    | (Ok a, st') => f a st'
    | (Raise e, st') => (Raise e, st')
    | (OutOfFuel, st') => (OutOfFuel, st')
    end.

Definition raise {A} (e : Exn) : M S A := fun st => (Raise e, st).

Definition gets {A} (f : S -> A) : M S A := fun st => (Ok (f (self st)), st).

Definition modify (f : S -> S) : M S unit :=
  fun st => (Ok tt, mkSt (f (self st)) (world st)).

Definition when (b : bool) (m : M S unit) : M S unit :=
  if b then m else ret tt.

(** [try: m  except E as e: h e], where [handles] decides [isinstance(e, E)]. *)
Definition try_except {A} (m : M S A) (handles : Exn -> bool)
    (h : Exn -> M S A) : M S A :=
  fun st =>
    match m st with
    | (Raise e, st') => if handles e then h e st' else (Raise e, st')
    | r => r
    end.

(** [try: m  finally: c].  An exception of [c] replaces the outcome of [m]. *)
Definition try_finally {A} (m : M S A) (c : M S unit) : M S A :=
  fun st =>
    match m st with
    | (OutOfFuel, st') => (OutOfFuel, st')
    | (r, st') =>
      match c st' with
      | (Ok _, st'') => (r, st'')
      | (Raise e, st'') => (Raise e, st'')
      | (OutOfFuel, st'') => (OutOfFuel, st'')
      end
    end.

(** [while True: body], where the body says whether it ended in [break]. *)
Inductive LoopCtl := Break | Continue.

Fixpoint while_true (fuel : nat) (body : M S LoopCtl) : M S unit :=
  match fuel with
  | O => fun st => (OutOfFuel, st)
  | Datatypes.S fuel' =>
    bind body (fun c =>
      match c with
      | Break => ret tt
      | Continue => while_true fuel' body
      end)
  end.

(** *** Effects *)

(** The others run the next batch of their script; once the script is
    exhausted they stay quiet. *)
Definition env_turn (w : World) : World :=
  mkWorld (Env.run (hd [] (env w)) (kernel w)) (tl (env w)) (trace w) (me w).

Definition emit (e : Event) (w : World) : World :=
  mkWorld (kernel w) (env w) (e :: trace w) (me w).

(** One call into the operating system: the others move, the call is
    recorded, the kernel answers. *)
Definition prim {A} (e : Event) (f : nat -> Kernel.t -> Res A * Kernel.t)
  : M S A :=
  fun st =>
    let w := emit e (env_turn (world st)) in
    let '(r, k') := f (me w) (kernel w) in
    (r, mkSt (self st) (mkWorld k' (env w) (trace w) (me w))).

Definition lift_errno (r : option errno * Kernel.t) : Res unit * Kernel.t :=
  match r with
  | (None, k') => (Ok tt, k')
  | (Some e, k') => (Raise (OSError e), k')
  end.

(** [os.makedirs(name, exist_ok=True)] *)
Definition os_makedirs (name : string) : M S unit :=
  prim (EvMakedirs name) (fun _ k => lift_errno (Kernel.makedirs name k)).

(** [open(path, 'w')] *)
Definition py_open (path : string) : M S FileObj :=
  prim (EvOpen path) (fun who k =>
    match Kernel.sys_open who path k with
    | (inr fd, k') => (Ok (File fd false), k')
    | (inl e, k') => (Raise (OSError e), k')
    end).

(** [fcntl.flock(f, op)]: [f.fileno()] is taken first and refuses a closed
    file. *)
Definition fcntl_flock (f : option FileObj) (op : Z) : M S unit :=
  match f with
  | None => raise TypeError
  | Some f =>
    if closed f then raise ValueError
    else prim (EvFlock (fileno f) op)
           (fun who k => lift_errno (Kernel.sys_flock who (fileno f) op k))
  end.

(** [self.<attr>.close()] for the attribute read by [get] and written by
    [set]: closing a closed file does nothing; otherwise the object is
    closed from then on, whatever close(2) answers. *)
Definition close_attr (get : S -> option FileObj)
    (set : option FileObj -> S -> S) : M S unit :=
  bind (gets get) (fun f =>
    match f with
    | None => raise AttributeError
    | Some f =>
      if closed f then ret tt
      else
        bind (modify (set (Some (File (fileno f) true)))) (fun _ =>
          prim (EvClose (fileno f))
            (fun who k => lift_errno (Kernel.sys_close who (fileno f) k)))
    end).

(** [time.time()] *)
Definition time_time : M S Q :=
  prim EvTime (fun _ k => (Ok (k_now k), k)).

(** [time.sleep(d)] *)
Definition time_sleep (d : Q) : M S unit :=
  prim (EvSleep d) (fun _ k => (Ok tt, Kernel.sys_sleep d k)).

(** [await asyncio.sleep(d)] *)
Definition asyncio_sleep (d : Q) : M S unit :=
  prim (EvAsyncSleep d) (fun _ k => (Ok tt, Kernel.sys_sleep d k)).

(** [logging.debug(m)] *)
Definition logging_debug (m : LogMsg) : M S unit :=
  prim (EvDebug m) (fun _ k => (Ok tt, k)).

(** [await loop.run_in_executor(None, f)]: the callable runs on a worker
    thread and its result, or its exception, comes back to the caller. *)
Definition run_in_executor {A} (f : M S A) : M S A :=
  fun st =>
    f (mkSt (self st) (emit EvExecutor (world st))).

End Monad.

#[global] Arguments prim : simpl never.

(** Truth value of a number: zero is false. *)
Definition truthy (q : Q) : bool := negb (Qeq_bool q 0).

(** [a > b] on numbers. *)
Definition Qgtb (a b : Q) : bool := negb (Qle_bool a b).

End Py.

Declare Scope py_scope.
Delimit Scope py_scope with py.
Notation "x <- c1 ;; c2" := (Py.bind c1 (fun x => c2))
  (at level 100, c1 at next level, right associativity) : py_scope.
Notation "c1 ;; c2" := (Py.bind c1 (fun _ => c2))
  (at level 100, right associativity) : py_scope.

(* ===================================================================== *)
(** ** [class FileLock] (simple_filelock.py) *)
(* ===================================================================== *)

Module FileLock.
Import Kernel Py.
#[local] Open Scope py_scope.

Record t := mk {
  lockfile_path : string;
  timeout : option Q;
  debug : bool;
  lockfile : option FileObj
}.

Definition set_lockfile (f : option FileObj) (s : t) : t :=
  mk (lockfile_path s) (timeout s) (debug s) f.

Definition __init__ (lockfile_path : string) (timeout : option Q)
    (debug : bool) : t :=
  mk lockfile_path timeout debug None.

(** The [try] block of the loop of [__enter__] (lines 50-54). *)
Definition try_lock : M t LoopCtl :=
  f <- gets lockfile;;
  fcntl_flock f (Z.lor LOCK_EX LOCK_NB);;
  dbg <- gets debug;;
  when dbg (logging_debug MsgAcquired);;
  ret Break.

(** Its [except BlockingIOError] block (lines 56-59).  The condition
    [self.timeout and (time.time() - start_time) > self.timeout] reads the
    clock only when [self.timeout] is true. *)
Definition on_would_block (start_time : Q) : M t LoopCtl :=
  tmo <- gets timeout;;
  expired <-
    match tmo with
    | Some q =>
      if truthy q
      then (now <- time_time;; ret (Qgtb (now - start_time) q))
      else ret false
    | None => ret false
    end;;
  (if expired
   then (close_attr lockfile set_lockfile;; raise (TimeoutError tmo))
   else ret tt);;
  time_sleep (1 # 10);;
  ret Continue.

(** One iteration of the loop (lines 49-59). *)
Definition attempt (start_time : Q) : M t LoopCtl :=
  try_except try_lock isinstance_BlockingIOError
    (fun _ => on_would_block start_time).

Definition __enter__ (fuel : nat) : M t unit :=
  path <- gets lockfile_path;;
  os_makedirs (posixpath.dirname path);;
  f <- py_open path;;
  modify (set_lockfile (Some f));;
  dbg <- gets debug;;
  when dbg (logging_debug (MsgTrying path));;
  start_time <- time_time;;
  while_true fuel (attempt start_time).

Definition __exit__ : M t unit :=
  f <- gets lockfile;;
  match f with
  | Some _ =>
    try_finally
      (try_except
         (f <- gets lockfile;;
          fcntl_flock f LOCK_UN;;
          dbg <- gets debug;;
          when dbg (logging_debug MsgReleased))
         isinstance_Exception
         (fun e =>
            dbg <- gets debug;;
            when dbg (logging_debug (MsgReleaseError e))))
      (close_attr lockfile set_lockfile;;
       modify (set_lockfile None))
  | None => ret tt
  end.

Definition is_locked : M t bool :=
  f <- gets lockfile;;
  match f with
  | None => ret false
  | Some _ =>
    try_except
      (f <- gets lockfile;;
       fcntl_flock f (Z.lor LOCK_EX LOCK_NB);;
       f <- gets lockfile;;
       fcntl_flock f LOCK_UN;;
       ret false)
      isinstance_BlockingIOError
      (fun _ => ret true)
  end.

End FileLock.

(* ===================================================================== *)
(** ** [class AsyncFileLock] (simple_filelock_async.py) *)
(* ===================================================================== *)

Module AsyncFileLock.
Import Kernel Py.
#[local] Open Scope py_scope.

(** The value of [asyncio.get_event_loop()]. *)
Inductive EventLoop := event_loop.

Record t := mk {
  lockfile_path : string;
  timeout : option Q;
  debug : bool;
  lockfile : option FileObj;
  _loop : EventLoop
}.

Definition set_lockfile (f : option FileObj) (s : t) : t :=
  mk (lockfile_path s) (timeout s) (debug s) f (_loop s).

Definition __init__ (lockfile_path : string) (timeout : option Q)
    (debug : bool) : t :=
  mk lockfile_path timeout debug None event_loop.

(** The [try] block of the loop of [__aenter__] (lines 52-56). *)
Definition try_lock : M t LoopCtl :=
  run_in_executor
    (f <- gets lockfile;; fcntl_flock f (Z.lor LOCK_EX LOCK_NB));;
  dbg <- gets debug;;
  when dbg (logging_debug MsgAcquired);;
  ret Break.

(** Its [except BlockingIOError] block (lines 58-61). *)
Definition on_would_block (start_time : Q) : M t LoopCtl :=
  tmo <- gets timeout;;
  expired <-
    match tmo with
    | Some q =>
      if truthy q
      then (now <- time_time;; ret (Qgtb (now - start_time) q))
      else ret false
    | None => ret false
    end;;
  (if expired
   then (run_in_executor (close_attr lockfile set_lockfile);;
         raise (TimeoutError tmo))
   else ret tt);;
  asyncio_sleep (1 # 10);;
  ret Continue.

(** One iteration of the loop (lines 51-61). *)
Definition attempt (start_time : Q) : M t LoopCtl :=
  try_except try_lock isinstance_BlockingIOError
    (fun _ => on_would_block start_time).

Definition __aenter__ (fuel : nat) : M t unit :=
  run_in_executor
    (path <- gets lockfile_path;; os_makedirs (posixpath.dirname path));;
  f <- run_in_executor (path <- gets lockfile_path;; py_open path);;
  modify (set_lockfile (Some f));;
  dbg <- gets debug;;
  path <- gets lockfile_path;;
  when dbg (logging_debug (MsgTrying path));;
  start_time <- time_time;;
  while_true fuel (attempt start_time).

Definition __aexit__ : M t unit :=
  f <- gets lockfile;;
  match f with
  | Some _ =>
    try_finally
      (try_except
         (run_in_executor (f <- gets lockfile;; fcntl_flock f LOCK_UN);;
          dbg <- gets debug;;
          when dbg (logging_debug MsgReleased))
         isinstance_Exception
         (fun e =>
            dbg <- gets debug;;
            when dbg (logging_debug (MsgReleaseError e))))
      (run_in_executor (close_attr lockfile set_lockfile);;
       modify (set_lockfile None))
  | None => ret tt
  end.

Definition is_locked : M t bool :=
  f <- gets lockfile;;
  match f with
  | None => ret false
  | Some _ =>
    try_except
      (run_in_executor
         (f <- gets lockfile;; fcntl_flock f (Z.lor LOCK_EX LOCK_NB));;
       run_in_executor (f <- gets lockfile;; fcntl_flock f LOCK_UN);;
       ret false)
      isinstance_BlockingIOError
      (fun _ => ret true)
  end.

End AsyncFileLock.

(* ===================================================================== *)
(** ** Notions used in the statements *)
(* ===================================================================== *)

Module Notions.
Import Kernel Py FileLock.

(** The part of the kernel that the lock protocol reads. *)
Definition core (k : Kernel.t) :=
  (k_open k, k_next k, k_lock k, k_now k,
   (k_enolck k, k_unlock_eio k, k_close_eio k)).

Definition flags (k : Kernel.t) := (k_enolck k, k_unlock_eio k, k_close_eio k).

(** The effects of a handle with the execution context forgotten: a
    dispatch to the executor leaves no mark, and a cooperative sleep is a
    sleep. *)
Definition erase (e : Event) : option Event :=
  match e with
  | EvExecutor => None
  | EvAsyncSleep d => Some (EvSleep d)
  | e => Some e
  end.

Definition forget (s : AsyncFileLock.t) : FileLock.t :=
  FileLock.mk (AsyncFileLock.lockfile_path s) (AsyncFileLock.timeout s)
    (AsyncFileLock.debug s) (AsyncFileLock.lockfile s).

Definition to_sync_world (w : World) : World :=
  mkWorld (kernel w) (env w) (omap erase (trace w)) (me w).

Definition to_sync (st : St AsyncFileLock.t) : St FileLock.t :=
  mkSt (forget (self st)) (to_sync_world (world st)).

Definition to_sync_out {A} (r : Res A * St AsyncFileLock.t)
  : Res A * St FileLock.t :=
  (fst r, to_sync (snd r)).

(** [ma] does to an asynchronous handle what [ms] does to the synchronous
    handle with the same attributes, call for call. *)
Definition refines {A} (ma : M AsyncFileLock.t A) (ms : M FileLock.t A)
  : Prop :=
  ∀ st, to_sync_out (ma st) = ms (to_sync st).

(** [__enter__] with [self.lockfile_path] read again at each use, as the
    lambdas of [__aenter__] do. *)
Definition enter_rereading (fuel : nat) : M FileLock.t unit :=
  bind (bind (gets FileLock.lockfile_path)
          (fun path => os_makedirs (posixpath.dirname path)))
    (fun _ =>
       bind (bind (gets FileLock.lockfile_path) py_open) (fun f =>
       bind (modify (FileLock.set_lockfile (Some f))) (fun _ =>
       bind (gets FileLock.debug) (fun dbg =>
       bind (gets FileLock.lockfile_path) (fun path =>
       bind (when dbg (logging_debug (MsgTrying path))) (fun _ =>
       bind time_time (fun start_time =>
       while_true fuel (FileLock.attempt start_time)))))))).

(** The world of a handle is in order: the kernel is well formed and the
    script speaks for the others only. *)
Definition good (w : World) : Prop :=
  wf (kernel w) ∧ Env.foreign_script (me w) (env w).

(** The handle has the open description [fd] of its lock file in its
    [lockfile] attribute. *)
Definition attached (fd : nat) (st : St t) : Prop :=
  lockfile (self st) = Some (File fd false) ∧
  k_open (kernel (world st)) !! fd =
    Some (Ofd (me (world st)) (lockfile_path (self st))).

(** Contender [o], another one, holds the lock of the handle's file and
    keeps it: the script has no action of [o]. *)
Definition contended (o g : nat) (st : St t) : Prop :=
  o ≠ me (world st) ∧
  holds (kernel (world st)) o (lockfile_path (self st)) g ∧
  Env.foreign_script o (env (world st)).

(** Lines 38-46 of [__enter__]: directory, file, start time. *)
Definition prelude : M t Q :=
  bind (gets lockfile_path) (fun path =>
  bind (os_makedirs (posixpath.dirname path)) (fun _ =>
  bind (py_open path) (fun f =>
  bind (modify (set_lockfile (Some f))) (fun _ =>
  bind (gets debug) (fun dbg =>
  bind (when dbg (logging_debug (MsgTrying path))) (fun _ =>
  time_time)))))).

(** The answer of the probe on an open file: the kernel in which the
    request is made is the one the others leave after their turn. *)
Definition probe_answer (k : Kernel.t) (who fd : nat) : Res bool :=
  match fst (sys_flock who fd (Z.lor LOCK_EX LOCK_NB) k) with
  | Some EWOULDBLOCK => Ok true
  | Some e => Raise (OSError e)
  | None => if k_unlock_eio k then Raise (OSError EIO) else Ok false
  end.

(** Contender [who] holds the lock of file [p] through [fd] in kernel [k],
    and after the actions [acts] of the others it still does, and a
    non-blocking exclusive request of anyone else on that file would
    block. *)
Definition excludes_others (k : Kernel.t) (who : nat) (p : string) (fd : nat)
    (acts : list Env.action) : Prop :=
  holds (Env.run acts k) who p fd ∧
  ∀ w fd', w ≠ who →
    k_open (Env.run acts k) !! fd' = Some (Ofd w p) →
    sys_flock w fd' (Z.lor LOCK_EX LOCK_NB) (Env.run acts k)
    = (Some EWOULDBLOCK, Env.run acts k).

End Notions.

(* ===================================================================== *)
(** ** Concrete machines *)
(* ===================================================================== *)

Module Scenario.
Import Kernel Py.

Definition path : string := "/tmp/app.lock".

(** A machine with [/tmp] and nothing else, at time 0, in good health. *)
Definition k_boot : Kernel.t :=
  Kernel.mk {[ "/tmp" ]} ∅ ∅ 0 ∅ 0 false false false.

(** On it contender 1 has opened the lock file (description 0) and holds
    its lock. *)
Definition k_held : Kernel.t :=
  Env.run [Env.Open 1 path; Env.Flock 1 0 (Z.lor LOCK_EX LOCK_NB)] k_boot.

(** The world of contender 0 on machine [k], the others doing [script]. *)
Definition world_of (k : Kernel.t) (script : Env.script) : World :=
  mkWorld k script [] 0.

(** The others stay quiet. *)
Definition quiet (k : Kernel.t) : World := world_of k [].

(** Handles of both classes on the lock file. *)
Definition sync_handle (timeout : option Q) (debug : bool) : FileLock.t :=
  FileLock.__init__ path timeout debug.

Definition async_handle (timeout : option Q) (debug : bool)
  : AsyncFileLock.t :=
  AsyncFileLock.__init__ path timeout debug.

(** A script that lets four calls pass and then makes the machine run out
    of lock records: the four calls are those of an acquisition without
    diagnostics (directory, file, clock, lock). *)
Definition then_no_lock_records : Env.script :=
  [[]; []; []; []; [Env.Fault NoLockRecords true]].

(** The same with the storage starting to fail on [close]. *)
Definition then_close_fails : Env.script :=
  [[]; []; []; []; [Env.Fault CloseError true]].

(** The same with unlock requests starting to fail. *)
Definition then_unlock_fails : Env.script :=
  [[]; []; []; []; [Env.Fault UnlockError true]].

(** The machine is out of lock records from the first request on. *)
Definition no_lock_records_at_lock : Env.script :=
  [[]; []; []; [Env.Fault NoLockRecords true]].

(** A busy neighbourhood: contender 2 opens and closes files and time
    passes, all of it around the calls of contender 0. *)
Definition busy : Env.script :=
  [[Env.Tick (1 # 100)];
   [Env.Open 2 path; Env.Mkdir "/tmp/other"];
   [Env.Flock 2 0 (Z.lor LOCK_EX LOCK_NB); Env.Tick (1 # 20)];
   [Env.Flock 2 0 LOCK_UN; Env.Close 2 0];
   [Env.Tick (3 # 10)]].

(** Contender 0 after a synchronous, respectively asynchronous,
    acquisition on the healthy machine, the others doing [script]. *)
Definition holding (script : Env.script) : St FileLock.t :=
  snd (FileLock.__enter__ 1
         (mkSt (sync_handle None false) (world_of k_boot script))).

Definition aholding (script : Env.script) : St AsyncFileLock.t :=
  snd (AsyncFileLock.__aenter__ 1
         (mkSt (async_handle None false) (world_of k_boot script))).

(** Contender 0 after an acquisition with a timeout of 0.2 seconds behind
    contender 1, which keeps the lock. *)
Definition timed_out : St FileLock.t :=
  snd (FileLock.__enter__ 4
         (mkSt (sync_handle (Some (1 # 5)) false) (quiet k_held))).

Definition atimed_out : St AsyncFileLock.t :=
  snd (AsyncFileLock.__aenter__ 4
         (mkSt (async_handle (Some (1 # 5)) false) (quiet k_held))).

End Scenario.

(* ===================================================================== *)
(** ** Notions for further properties of the code *)
(* ===================================================================== *)

Module Invariants.
Import Py.

(** [m] keeps [J], however it ends. *)
Definition keeps {S A} (J : St S → Prop) (m : M S A) : Prop :=
  ∀ st, J st → J (snd (m st)).

(** A property [I] of the contender, the kernel and the script of the
    others, seen as a property of states. *)
Definition framed {S} (I : nat → Kernel.t → Env.script → Prop) (st : St S)
  : Prop :=
  I (me (world st)) (kernel (world st)) (env (world st)).

End Invariants.

Module Conditions.
Import Kernel Py Notions.

(** The calls a handle makes into the kernel, as actions of contender [m]:
    it opens files, requests and drops locks, closes descriptors, and
    sleeps a tenth of a second. *)
Definition own (m : nat) (a : Env.action) : Prop :=
  match a with
  | Env.Open w _ | Env.Flock w _ _ | Env.Close w _ => w = m
  | Env.Tick d => d = (1 # 10)%Q
  | Env.Mkdir _ | Env.Fault _ _ => False
  end.

(** Contender [o], not the contender [m] that runs the handle, holds the
    lock of file [p] through [g] and does nothing by itself. *)
Definition bystander_at (o g : nat) (p : string)
    (m : nat) (k : Kernel.t) (s : Env.script) : Prop :=
  wf k ∧ o ≠ m ∧ Env.foreign_script o s ∧ holds k o p g.

Definition bystander (o g : nat) (p : string) (w : World) : Prop :=
  bystander_at o g p (me w) (kernel w) (env w).

(** The world is in order, the machine has the health [fl], and the clock
    reads [t0] or later. *)
Definition sound_at (fl : bool * bool * bool) (t0 : Q)
    (m : nat) (k : Kernel.t) (s : Env.script) : Prop :=
  (wf k ∧ Env.foreign_script m s) ∧ flags k = fl ∧ (t0 <= k_now k)%Q.

Definition sound (fl : bool * bool * bool) (t0 : Q) (w : World) : Prop :=
  good w ∧ flags (kernel w) = fl ∧ (t0 <= k_now (kernel w))%Q.

(** The error, if any, of the two calls that open the lock file at the
    start of an acquisition (lines 38 and 41): [os.makedirs] on the
    directory of the path, in the kernel the others leave after their first
    batch, then [open], after their second. *)
Definition opening_error (p : string) (w : World) : option errno :=
  match makedirs (posixpath.dirname p) (Env.run (hd [] (env w)) (kernel w)) with
  | (Some e, _) => Some e
  | (None, k1) =>
    match sys_open (me w) p (Env.run (hd [] (tl (env w))) k1) with
    | (inl e, _) => Some e
    | (inr _, _) => None
    end
  end.

(** The script has at most [L] batches left. *)
Definition script_within (L : nat) (m : nat) (k : Kernel.t) (s : Env.script)
  : Prop :=
  length s ≤ L.

(** The contender running the handle holds the lock of file [p] itself,
    through a description [g] that is not the one of the handle: another
    handle of the same process, in another thread or task, has it. *)
Definition held_beside (g : nat) (p : string) (st : St FileLock.t) : Prop :=
  good (world st) ∧
  holds (kernel (world st)) (me (world st)) p g ∧
  match FileLock.lockfile (self st) with
  | Some f => fileno f ≠ g
  | None => True
  end.

End Conditions.

Module Handover.
Import Kernel Py.

(** An action that asks for no lock. *)
Definition calm (a : Env.action) : Prop :=
  match a with
  | Env.Flock _ _ op => op = LOCK_UN
  | _ => True
  end.

Definition calm_script (s : Env.script) : Prop := Forall (Forall calm) s.

(** Somewhere in the script contender [o] closes its description [g]. *)
Definition releases (o g : nat) (s : Env.script) : Prop :=
  Exists (λ b, Env.Close o g ∈ b) s.

(** Contender [o] does nothing but close [g]. *)
Definition only_closes (o g : nat) (s : Env.script) : Prop :=
  Forall (Forall (λ a, Env.foreign o a ∨ a = Env.Close o g)) s.

(** The lock of file [p] is free, or contender [o] holds it through [g]. *)
Definition lock_state (o g : nat) (p : string) (k : Kernel.t) : Prop :=
  k_lock k !! p = None ∨ holds k o p g.

(** The lock of file [p] is free and nobody asks for it; or contender [o],
    not the one running the handle, holds it through [g], will close [g],
    and until then nobody asks for the lock. *)
Definition handover (o g : nat) (p : string)
    (m : nat) (k : Kernel.t) (s : Env.script) : Prop :=
  wf k ∧ calm_script s ∧
  (k_lock k !! p = None ∨
   (o ≠ m ∧ holds k o p g ∧ releases o g s ∧ only_closes o g s)).

End Handover.

Module Usage.
Import Kernel Py Notions.

(** [with FileLock(...): body]: [__enter__], then the block, then
    [__exit__] however the block ended; [__exit__] returns [None], so an
    exception of the block is raised again after it, unless [__exit__]
    raises one itself. *)
Definition with_ {A} (fuel : nat) (body : M FileLock.t A) : M FileLock.t A :=
  bind (FileLock.__enter__ fuel) (fun _ =>
  try_finally body FileLock.__exit__).

(** [async with AsyncFileLock(...): body] *)
Definition async_with {A} (fuel : nat) (body : M AsyncFileLock.t A)
  : M AsyncFileLock.t A :=
  bind (AsyncFileLock.__aenter__ fuel) (fun _ =>
  try_finally body AsyncFileLock.__aexit__).

(** A block that leaves the handle alone: it changes no attribute of the
    handle, does not close its description, and keeps the world in order
    and the storage in the state of health it found. *)
Definition leaves_alone {A} (body : M FileLock.t A) : Prop :=
  ∀ st fd, good (world st) → attached fd st →
    self (snd (body st)) = self st ∧
    me (world (snd (body st))) = me (world st) ∧
    good (world (snd (body st))) ∧
    attached fd (snd (body st)) ∧
    k_close_eio (kernel (world (snd (body st))))
      = k_close_eio (kernel (world st)).

Definition aleaves_alone {A} (body : M AsyncFileLock.t A) : Prop :=
  ∀ st fd, good (world st) → attached fd (to_sync st) →
    self (snd (body st)) = self st ∧
    me (world (snd (body st))) = me (world st) ∧
    good (world (snd (body st))) ∧
    attached fd (to_sync (snd (body st))) ∧
    k_close_eio (kernel (world (snd (body st))))
      = k_close_eio (kernel (world st)).

End Usage.

Module Traces.
Import Kernel Py.

(** The traces list the most recent event first. *)

(** The calls into the file system and the sleep of the calling thread:
    the calls that can block it. *)
Definition blocking (e : Event) : bool :=
  match e with
  | EvMakedirs _ | EvOpen _ | EvFlock _ _ | EvClose _ | EvSleep _ => true
  | EvTime | EvDebug _ | EvExecutor | EvAsyncSleep _ => false
  end.

(** Every blocking call of the trace was handed to the executor just
    before. *)
Fixpoint dispatched (tr : list Event) : bool :=
  match tr with
  | [] => true
  | e :: tr' =>
    if blocking e
    then match tr' with
         | EvExecutor :: tr'' => dispatched tr''
         | _ => false
         end
    else dispatched tr'
  end.

(** The events of [st] since the trace was [base] satisfy [P]. *)
Definition since {S} (base : list Event) (P : list Event → Prop) (st : St S)
  : Prop :=
  ∃ new, trace (world st) = new ++ base ∧ P new.

Definition all_dispatched {S} (base : list Event) (st : St S) : Prop :=
  since base (λ new, dispatched new = true) st.

(** The state is only read or written, or one call is made. *)
Definition one_call {S A} (c : M S A) : Prop :=
  ∀ st, trace (world (snd (c st))) = trace (world st) ∨
        ∃ e, trace (world (snd (c st))) = e :: trace (world st).

(** The lines handed to [logging.debug]. *)
Definition log (tr : list Event) : list LogMsg :=
  omap (λ e, match e with EvDebug m => Some m | _ => None end) tr.

(** A handle without diagnostics whose log reads [L]. *)
Definition silent (L : list LogMsg) (st : St FileLock.t) : Prop :=
  FileLock.debug (self st) = false ∧ log (trace (world st)) = L.

(** [if self.debug: logging.debug(m)] *)
Definition said (dbg : bool) (m : LogMsg) : list Event :=
  if dbg then [EvDebug m] else [].

(** Whether [self.timeout] is true. *)
Definition counts (tmo : option Q) : bool :=
  match tmo with Some q => truthy q | None => false end.

(** The calls before the loop of an acquisition: directory, file,
    diagnostics, start time. *)
Definition opening (p : string) (dbg : bool) : list Event :=
  EvTime :: said dbg (MsgTrying p) ++
  [EvOpen p; EvMakedirs (posixpath.dirname p)].

(** One round of the loop that did not get the lock: the request, the
    clock when the timeout counts, the sleep of a tenth of a second. *)
Definition round (fd : nat) (timed : bool) : list Event :=
  EvSleep (1 # 10) :: (if timed then [EvTime] else []) ++
  [EvFlock fd (Z.lor LOCK_EX LOCK_NB)].

Fixpoint rounds (n : nat) (fd : nat) (timed : bool) : list Event :=
  match n with
  | O => []
  | S n' => round fd timed ++ rounds n' fd timed
  end.

End Traces.

Module KernelExamples.
Import Kernel.

Example split_abs : posixpath.split "/tmp/app/x.lock" = ("/tmp/app", "x.lock").
Proof. reflexivity. Qed.

Example split_bare : posixpath.split "x.lock" = ("", "x.lock").
Proof. reflexivity. Qed.

Example split_root : posixpath.split "/x.lock" = ("/", "x.lock").
Proof. reflexivity. Qed.

Example split_trailing : posixpath.split "a/b//" = ("a/b", "").
Proof. reflexivity. Qed.

Example dirname_relative : posixpath.dirname "locks/x.lock" = "locks".
Proof. reflexivity. Qed.

End KernelExamples.

(* ===================================================================== *)
(** ** Facts about the kernel *)
(* ===================================================================== *)

Module KernelFacts.
Import Kernel Notions.

Lemma wf_fresh k fd o : wf k → k_open k !! fd = Some o → fd < k_next k.
Proof. intros [H _] E. exact (H fd o E). Qed.

Lemma wf_lock k p fd :
  wf k → k_lock k !! p = Some fd →
  ∃ o, k_open k !! fd = Some o ∧ ofd_path o = p.
Proof.
  intros [_ H] E. specialize (H p fd E). cbn in H.
  destruct (k_open k !! fd) as [o|]; [|discriminate].
  exists o. split; [done|]. by injection H.
Qed.

Lemma wf_intro k :
  (∀ fd o, k_open k !! fd = Some o → fd < k_next k) →
  (∀ p fd, k_lock k !! p = Some fd →
           ∃ o, k_open k !! fd = Some o ∧ ofd_path o = p) →
  wf k.
Proof.
  intros H1 H2. split.
  - intros fd o E. eauto.
  - intros p fd E. cbn. destruct (H2 p fd E) as (o & -> & <-). done.
Qed.

Lemma wf_core k k' : core k' = core k → wf k → wf k'.
Proof.
  unfold core, wf. intros E. injection E as E1 E2 E3 _ _. by rewrite E1, E2, E3.
Qed.

Lemma holds_core k k' who p fd : core k' = core k → holds k who p fd → holds k' who p fd.
Proof.
  unfold core, holds. intros E. injection E as E1 E2 E3 _ _. by rewrite E1, E3.
Qed.

(** *** Directories do not touch the lock protocol *)

Lemma sys_mkdir_core p k : core (snd (sys_mkdir p k)) = core k.
Proof. unfold sys_mkdir. repeat case_match; reflexivity. Qed.

Lemma mkdir_exist_ok_core p k : core (snd (mkdir_exist_ok p k)) = core k.
Proof.
  unfold mkdir_exist_ok. pose proof (sys_mkdir_core p k) as H.
  destruct (sys_mkdir p k) as [[e|] k']; cbn in *; [case_match|]; done.
Qed.

Lemma makedirs_rec_unfold fuel name k :
  makedirs_rec fuel name k =
  let '(head, tail) := posixpath.split name in
  let '(head, tail) :=
    if posixpath.is_empty tail then posixpath.split head else (head, tail) in
  if negb (posixpath.is_empty head) && negb (posixpath.is_empty tail)
     && negb (exists_ k head)
  then
    match fuel with
    | O => (Some EINVAL, k)
    | S fuel' =>
      match makedirs_rec fuel' head k with
      | (Some e, k') =>
        if bool_decide (e = EEXIST)
        then if String.eqb tail "." then (None, k') else mkdir_exist_ok name k'
        else (Some e, k')
      | (None, k') =>
        if String.eqb tail "." then (None, k') else mkdir_exist_ok name k'
      end
    end
  else mkdir_exist_ok name k.
Proof. destruct fuel; reflexivity. Qed.

Lemma makedirs_rec_core fuel name k :
  core (snd (makedirs_rec fuel name k)) = core k.
Proof.
  revert name k. induction fuel as [|fuel IH]; intros name k;
    rewrite makedirs_rec_unfold;
    destruct (posixpath.split name) as [h0 t0];
    destruct (if posixpath.is_empty t0 then posixpath.split h0 else (h0, t0))
      as [h1 t1].
  - case_match; [reflexivity|apply mkdir_exist_ok_core].
  - case_match; [|apply mkdir_exist_ok_core].
    pose proof (IH h1 k) as HIH.
    destruct (makedirs_rec fuel h1 k) as [[e|] k']; cbn in HIH.
    + repeat case_match; cbn; try done.
      all: by rewrite mkdir_exist_ok_core.
    + case_match; cbn; [done|]. by rewrite mkdir_exist_ok_core.
Qed.

Lemma makedirs_core name k : core (snd (makedirs name k)) = core k.
Proof. apply makedirs_rec_core. Qed.

(** *** [flock] by cases *)

Lemma sys_flock_ex who fd k :
  sys_flock who fd (Z.lor LOCK_EX LOCK_NB) k =
  match k_open k !! fd with
  | None => (Some EBADF, k)
  | Some o =>
    if negb (ofd_owner o =? who)%nat then (Some EBADF, k)
    else if k_enolck k then (Some ENOLCK, k)
    else match k_lock k !! ofd_path o with
         | Some g => if (g =? fd)%nat then (None, k) else (Some EWOULDBLOCK, k)
         | None => (None, set_lock (fun l => <[ofd_path o := fd]> l) k)
         end
  end.
Proof. reflexivity. Qed.

Lemma sys_flock_un who fd k :
  sys_flock who fd LOCK_UN k =
  match k_open k !! fd with
  | None => (Some EBADF, k)
  | Some o =>
    if negb (ofd_owner o =? who)%nat then (Some EBADF, k)
    else if k_unlock_eio k then (Some EIO, k)
    else (None, set_lock (release (ofd_path o) fd) k)
  end.
Proof. reflexivity. Qed.

(** A non-blocking exclusive request on a file locked through another
    description would block. *)
Lemma sys_flock_blocked k who fd p g :
  k_open k !! fd = Some (Ofd who p) → k_enolck k = false →
  k_lock k !! p = Some g → g ≠ fd →
  sys_flock who fd (Z.lor LOCK_EX LOCK_NB) k = (Some EWOULDBLOCK, k).
Proof.
  intros Ho Hf Hl Hne. rewrite sys_flock_ex, Ho. cbn.
  rewrite Nat.eqb_refl, Hf, Hl. cbn.
  destruct (Nat.eqb_spec g fd); [done|reflexivity].
Qed.

(** On the description that already holds the lock it succeeds and changes
    nothing. *)
Lemma sys_flock_own k who fd p :
  holds k who p fd → k_enolck k = false →
  sys_flock who fd (Z.lor LOCK_EX LOCK_NB) k = (None, k).
Proof.
  intros [Ho Hl] Hf. rewrite sys_flock_ex, Ho. cbn.
  by rewrite Nat.eqb_refl, Hf, Hl, Nat.eqb_refl.
Qed.

Lemma sys_flock_free k who fd p :
  k_open k !! fd = Some (Ofd who p) → k_enolck k = false →
  k_lock k !! p = None →
  sys_flock who fd (Z.lor LOCK_EX LOCK_NB) k =
  (None, set_lock (fun l => <[p := fd]> l) k).
Proof.
  intros Ho Hf Hl. rewrite sys_flock_ex, Ho. cbn.
  by rewrite Nat.eqb_refl, Hf, Hl.
Qed.

Lemma sys_flock_enolck k who fd p :
  k_open k !! fd = Some (Ofd who p) → k_enolck k = true →
  sys_flock who fd (Z.lor LOCK_EX LOCK_NB) k = (Some ENOLCK, k).
Proof.
  intros Ho Hf. rewrite sys_flock_ex, Ho. cbn. by rewrite Nat.eqb_refl, Hf.
Qed.

Lemma release_own p fd (l : gmap string nat) :
  l !! p = Some fd → release p fd l = delete p l.
Proof. intros H. unfold release. by rewrite H, Nat.eqb_refl. Qed.

Lemma release_lookup_ne p q fd (l : gmap string nat) :
  p ≠ q → release p fd l !! q = l !! q.
Proof.
  intros Hpq. unfold release. repeat case_match; try done.
  by rewrite lookup_delete_ne.
Qed.

Lemma release_lookup_other p fd g (l : gmap string nat) q :
  l !! q = Some g → g ≠ fd → release p fd l !! q = Some g.
Proof.
  intros H Hne. unfold release. destruct (l !! p) as [g'|] eqn:E; [|done].
  destruct (Nat.eqb_spec g' fd) as [->|]; [|done].
  rewrite lookup_delete_ne; [done|]. intros ->. congruence.
Qed.

Lemma release_lookup_Some p fd (l : gmap string nat) q g :
  release p fd l !! q = Some g → l !! q = Some g.
Proof.
  unfold release. repeat case_match; try done.
  intros Hd. apply lookup_delete_Some in Hd. tauto.
Qed.

Lemma release_not_held p fd (l : gmap string nat) q :
  release p fd l !! q ≠ Some fd ∨ p ≠ q.
Proof.
  destruct (decide (p = q)) as [<-|]; [left|by right].
  unfold release. destruct (l !! p) as [g|] eqn:E; [|congruence].
  destruct (Nat.eqb_spec g fd) as [->|].
  - by rewrite lookup_delete_eq.
  - congruence.
Qed.

(** *** What each call does to the lock protocol *)

Lemma sys_open_ok who p k fd k' :
  sys_open who p k = (inr fd, k') →
  fd = k_next k ∧ k_open k' = <[fd := Ofd who p]> (k_open k) ∧
  k_next k' = S fd ∧ k_lock k' = k_lock k ∧ k_now k' = k_now k ∧
  flags k' = flags k.
Proof.
  unfold sys_open. repeat case_match; try discriminate.
  intros [= <- <-]. done.
Qed.

Lemma sys_open_err who p k e k' : sys_open who p k = (inl e, k') → k' = k.
Proof.
  unfold sys_open. repeat case_match; try discriminate; by intros [= _ <-].
Qed.

Lemma sys_open_wf who p k : wf k → wf (snd (sys_open who p k)).
Proof.
  intros Hwf. destruct (sys_open who p k) as [[e|fd] k'] eqn:E; cbn.
  - by rewrite (sys_open_err _ _ _ _ _ E).
  - destruct (sys_open_ok _ _ _ _ _ E) as (-> & Ho & Hn & Hl & _).
    apply wf_intro.
    + intros fd o. rewrite Ho, Hn. intros [[<- _]|[_ Hlk]]%lookup_insert_Some.
      * lia.
      * pose proof (wf_fresh _ _ _ Hwf Hlk). lia.
    + intros q g. rewrite Hl, Ho. intros Hq.
      destruct (wf_lock _ _ _ Hwf Hq) as (o & Hg & Hpath).
      exists o. split; [|done]. rewrite lookup_insert_ne; [done|].
      pose proof (wf_fresh _ _ _ Hwf Hg). lia.
Qed.

Lemma sys_flock_flags who fd op k : flags (snd (sys_flock who fd op k)) = flags k.
Proof. unfold sys_flock. repeat case_match; reflexivity. Qed.

Lemma sys_flock_open who fd op k : k_open (snd (sys_flock who fd op k)) = k_open k.
Proof. unfold sys_flock. repeat case_match; reflexivity. Qed.

Lemma sys_flock_next who fd op k : k_next (snd (sys_flock who fd op k)) = k_next k.
Proof. unfold sys_flock. repeat case_match; reflexivity. Qed.

Lemma sys_flock_now who fd op k : k_now (snd (sys_flock who fd op k)) = k_now k.
Proof. unfold sys_flock. repeat case_match; reflexivity. Qed.

Lemma sys_flock_wf who fd op k : wf k → wf (snd (sys_flock who fd op k)).
Proof.
  intros Hwf. unfold sys_flock.
  destruct (k_open k !! fd) as [o|] eqn:Eo; [|done].
  repeat case_match; try done; cbn.
  - apply wf_intro; cbn.
    + intros ? ?. apply wf_fresh, Hwf.
    + intros q g [[<- <-]|[_ Hq]]%lookup_insert_Some; [eauto|].
      by apply wf_lock.
  - apply wf_intro; cbn.
    + intros ? ?. apply wf_fresh, Hwf.
    + intros q g Hq%release_lookup_Some. by apply wf_lock.
Qed.

Lemma sys_close_flags who fd k : flags (snd (sys_close who fd k)) = flags k.
Proof. unfold sys_close. repeat case_match; reflexivity. Qed.

Lemma sys_close_next who fd k : k_next (snd (sys_close who fd k)) = k_next k.
Proof. unfold sys_close. repeat case_match; reflexivity. Qed.

Lemma sys_close_now who fd k : k_now (snd (sys_close who fd k)) = k_now k.
Proof. unfold sys_close. repeat case_match; reflexivity. Qed.

Lemma sys_close_wf who fd k : wf k → wf (snd (sys_close who fd k)).
Proof.
  intros Hwf. unfold sys_close.
  destruct (k_open k !! fd) as [o|] eqn:Eo; [|done].
  case_match; [done|]. cbn. apply wf_intro; cbn.
  - intros g o' [_ Hg]%lookup_delete_Some. by eapply wf_fresh.
  - intros q g Hq. pose proof (release_lookup_Some _ _ _ _ _ Hq) as Hq'.
    destruct (wf_lock _ _ _ Hwf Hq') as (o' & Hg & Hpath).
    exists o'. split; [|done]. rewrite lookup_delete_ne; [done|].
    intros <-. assert (o' = o) as -> by congruence.
    destruct (release_not_held (ofd_path o) fd (k_lock k) q); congruence.
Qed.

(** Closing a description of its own makes the contender lose it. *)
Lemma sys_close_own who fd p k :
  k_open k !! fd = Some (Ofd who p) →
  sys_close who fd k =
  (if k_close_eio k then Some EIO else None,
   set_open (fun m => delete fd m) (set_lock (release p fd) k)).
Proof. intros Ho. unfold sys_close. by rewrite Ho; cbn; rewrite Nat.eqb_refl. Qed.

(** *** What the others can and cannot do *)

Lemma step_flags who k a :
  Env.foreign who a → flags (Env.step k a) = flags k.
Proof.
  destruct a; cbn; intros Hf.
  - reflexivity.
  - pose proof (sys_mkdir_core p k) as E. unfold core, flags in *. congruence.
  - destruct (sys_open who0 p k) as [[e|fd] k'] eqn:E; cbn.
    + by rewrite (sys_open_err _ _ _ _ _ E).
    + by destruct (sys_open_ok _ _ _ _ _ E) as (_ & _ & _ & _ & _ & ->).
  - apply sys_flock_flags.
  - apply sys_close_flags.
  - done.
Qed.

Lemma step_wf k a : wf k → wf (Env.step k a).
Proof.
  intros Hwf. destruct a; cbn.
  - exact Hwf.
  - eapply wf_core; [apply sys_mkdir_core|done].
  - by apply sys_open_wf.
  - by apply sys_flock_wf.
  - by apply sys_close_wf.
  - by destruct f.
Qed.

Lemma step_now who k a : Env.foreign who a → (k_now k <= k_now (Env.step k a))%Q.
Proof.
  destruct a; cbn; intros Hf.
  - lra.
  - pose proof (sys_mkdir_core p k) as E. unfold core in E.
    injection E as _ _ _ -> _. lra.
  - destruct (sys_open who0 p k) as [[e|fd] k'] eqn:E; cbn.
    + rewrite (sys_open_err _ _ _ _ _ E). lra.
    + destruct (sys_open_ok _ _ _ _ _ E) as (_ & _ & _ & _ & -> & _). lra.
  - rewrite sys_flock_now. lra.
  - rewrite sys_close_now. lra.
  - done.
Qed.

(** Another contender cannot take a description away. *)
Lemma step_open who k a fd p :
  wf k → Env.foreign who a →
  k_open k !! fd = Some (Ofd who p) →
  k_open (Env.step k a) !! fd = Some (Ofd who p).
Proof.
  intros Hwf Hf Ho. destruct a; cbn in *.
  - done.
  - pose proof (sys_mkdir_core p0 k) as E. unfold core in E. congruence.
  - destruct (sys_open who0 p0 k) as [[e|g] k'] eqn:E; cbn.
    + by rewrite (sys_open_err _ _ _ _ _ E).
    + destruct (sys_open_ok _ _ _ _ _ E) as (-> & -> & _).
      rewrite lookup_insert_ne; [done|].
      pose proof (wf_fresh _ _ _ Hwf Ho). lia.
  - by rewrite sys_flock_open.
  - unfold sys_close. destruct (k_open k !! fd0) as [o|] eqn:Eo; [|done].
    destruct (Nat.eqb_spec (ofd_owner o) who0) as [Hw|]; cbn; [|done].
    rewrite lookup_delete_ne; [done|]. intros ->.
    rewrite Ho in Eo. injection Eo as <-. cbn in Hw. congruence.
  - done.
Qed.

(** Another contender cannot take the lock from its holder. *)
Lemma step_holds who k a p fd :
  wf k → Env.foreign who a → holds k who p fd → holds (Env.step k a) who p fd.
Proof.
  intros Hwf Hf [Ho Hl]. split; [by apply step_open|].
  destruct a; cbn in *.
  - done.
  - pose proof (sys_mkdir_core p0 k) as E. unfold core in E. congruence.
  - destruct (sys_open who0 p0 k) as [[e|g] k'] eqn:E; cbn.
    + by rewrite (sys_open_err _ _ _ _ _ E).
    + by destruct (sys_open_ok _ _ _ _ _ E) as (_ & _ & _ & -> & _).
  - unfold sys_flock. destruct (k_open k !! fd0) as [o|] eqn:Eo; [|done].
    destruct (Nat.eqb_spec (ofd_owner o) who0) as [Hw|]; cbn; [|done].
    assert (fd ≠ fd0) as Hne.
    { intros ->. rewrite Ho in Eo. injection Eo as <-. cbn in Hw. congruence. }
    repeat case_match; try done; cbn.
    + rewrite lookup_insert_ne; [done|]. congruence.
    + by apply release_lookup_other.
  - unfold sys_close. destruct (k_open k !! fd0) as [o|] eqn:Eo; [|done].
    destruct (Nat.eqb_spec (ofd_owner o) who0) as [Hw|]; cbn; [|done].
    apply release_lookup_other; [done|].
    intros ->. rewrite Ho in Eo. injection Eo as <-. cbn in Hw. congruence.
  - done.
Qed.

Lemma run_flags who acts k :
  Forall (Env.foreign who) acts → flags (Env.run acts k) = flags k.
Proof.
  intros Hf. revert k. induction Hf as [|a acts Ha _ IH]; intros k; cbn; [done|].
  unfold Env.run in IH. by rewrite IH, (step_flags who).
Qed.

Lemma run_wf acts k : wf k → wf (Env.run acts k).
Proof.
  revert k. induction acts as [|a acts IH]; intros k Hwf; cbn; [done|].
  apply IH. by apply step_wf.
Qed.

Lemma run_now who acts k :
  Forall (Env.foreign who) acts → (k_now k <= k_now (Env.run acts k))%Q.
Proof.
  intros Hf. revert k. induction Hf as [|a acts Ha _ IH]; intros k; cbn.
  - lra.
  - specialize (IH (Env.step k a)). unfold Env.run in IH.
    pose proof (step_now who k a Ha). lra.
Qed.

Lemma run_open who acts k fd p :
  wf k → Forall (Env.foreign who) acts →
  k_open k !! fd = Some (Ofd who p) →
  k_open (Env.run acts k) !! fd = Some (Ofd who p).
Proof.
  intros Hwf Hf. revert k Hwf.
  induction Hf as [|a acts Ha _ IH]; intros k Hwf Ho; cbn; [done|].
  apply IH; [by apply step_wf|by apply step_open].
Qed.

Lemma run_holds who acts k p fd :
  wf k → Forall (Env.foreign who) acts →
  holds k who p fd → holds (Env.run acts k) who p fd.
Proof.
  intros Hwf Hf. revert k Hwf.
  induction Hf as [|a acts Ha _ IH]; intros k Hwf Hh; cbn; [done|].
  apply IH; [by apply step_wf|by apply step_holds].
Qed.

(** *** [os.makedirs] on the empty name and on an existing directory *)

(** The empty name resolves to nothing: [mkdir] answers [ENOENT], and
    [exist_ok] does not help since the name is no directory. *)
Lemma makedirs_empty k : makedirs "" k = (Some ENOENT, k).
Proof. reflexivity. Qed.

(** The name the recursion of [makedirs] goes to. *)
Lemma makedirs_existing name k :
  is_dir k name = true →
  (let '(head, tail) := posixpath.split name in
   let '(head, tail) :=
     if posixpath.is_empty tail then posixpath.split head else (head, tail) in
   negb (posixpath.is_empty head) && negb (posixpath.is_empty tail)
   && negb (exists_ k head)) = false →
  makedirs name k = (None, k).
Proof.
  intros Hdir Hguard. unfold makedirs. rewrite makedirs_rec_unfold.
  destruct (posixpath.split name) as [h0 t0].
  destruct (if posixpath.is_empty t0 then posixpath.split h0 else (h0, t0))
    as [h1 t1].
  rewrite Hguard. unfold mkdir_exist_ok, sys_mkdir.
  assert (posixpath.is_empty name = false) as ->.
  { unfold is_dir in Hdir. by destruct (posixpath.is_empty name). }
  assert (exists_ k name = true) as ->.
  { unfold exists_. by rewrite Hdir. }
  by rewrite Hdir.
Qed.

End KernelFacts.

(* ===================================================================== *)
(** ** The asynchronous class against the synchronous one *)
(* ===================================================================== *)

Module Refinement.
Import Kernel Py Notions.

Lemma refines_ret {A} (a : A) : refines (ret a) (ret a).
Proof. done. Qed.

Lemma refines_raise {A} e : refines (A:=A) (raise e) (raise e).
Proof. done. Qed.

Lemma refines_bind {A B} ma ms (fa : A → M _ B) fs :
  refines ma ms → (∀ a, refines (fa a) (fs a)) →
  refines (bind ma fa) (bind ms fs).
Proof.
  intros Hm Hf st. unfold bind. rewrite <- (Hm st).
  destruct (ma st) as [[a|e|] st']; cbn; [apply Hf|done..].
Qed.

Lemma refines_gets {A} (fa : _ → A) fs :
  (∀ s, fa s = fs (forget s)) → refines (gets fa) (gets fs).
Proof. intros H st. unfold gets, to_sync_out. cbn. by rewrite H. Qed.

Lemma refines_set_lockfile f :
  refines (modify (AsyncFileLock.set_lockfile f))
          (modify (FileLock.set_lockfile f)).
Proof. done. Qed.

Lemma refines_when b ma ms : refines ma ms → refines (when b ma) (when b ms).
Proof. destruct b; [done|]. intros _. apply refines_ret. Qed.

Lemma refines_try_except {A} ma ms handles (ha : _ → M _ A) hs :
  refines ma ms → (∀ e, refines (ha e) (hs e)) →
  refines (try_except ma handles ha) (try_except ms handles hs).
Proof.
  intros Hm Hh st. unfold try_except. rewrite <- (Hm st).
  destruct (ma st) as [[a|e|] st']; cbn; [done| |done].
  destruct (handles e); [apply Hh|done].
Qed.

Lemma refines_try_finally {A} (ma : M _ A) ms ca cs :
  refines ma ms → refines ca cs →
  refines (try_finally ma ca) (try_finally ms cs).
Proof.
  intros Hm Hc st. unfold try_finally. rewrite <- (Hm st).
  destruct (ma st) as [[a|e|] st']; cbn; [| |done].
  all: rewrite <- (Hc st'); by destruct (ca st') as [[[]|e'|] st''].
Qed.

Lemma refines_while_true fuel ba bs :
  refines ba bs → refines (while_true fuel ba) (while_true fuel bs).
Proof.
  intros Hb. induction fuel as [|fuel IH]; [done|]. cbn.
  apply refines_bind; [done|]. intros []; [apply refines_ret|done].
Qed.

Lemma to_sync_env_turn w :
  to_sync_world (env_turn w) = env_turn (to_sync_world w).
Proof. reflexivity. Qed.

Lemma refines_prim {A} ea es (f : nat → Kernel.t → Res A * Kernel.t) :
  erase ea = Some es → refines (prim ea f) (prim es f).
Proof.
  intros He [s w]. unfold prim, to_sync_out, to_sync. cbn.
  destruct (f (me w) (Env.run (hd [] (env w)) (kernel w))) as [r k'].
  unfold to_sync_world. cbn. by rewrite He.
Qed.

Lemma refines_run_in_executor {A} (ma : M _ A) ms :
  refines ma ms → refines (run_in_executor ma) ms.
Proof.
  intros Hm [s w]. unfold run_in_executor. cbn.
  rewrite (Hm (mkSt s (emit EvExecutor w))). done.
Qed.

Lemma refines_flock op :
  refines (bind (gets AsyncFileLock.lockfile) (fun f => fcntl_flock f op))
          (bind (gets FileLock.lockfile) (fun f => fcntl_flock f op)).
Proof.
  apply refines_bind; [by apply refines_gets|].
  intros [[fd []]|]; cbn; [apply refines_raise| |apply refines_raise].
  by apply refines_prim.
Qed.

Lemma refines_close :
  refines (close_attr AsyncFileLock.lockfile AsyncFileLock.set_lockfile)
          (close_attr FileLock.lockfile FileLock.set_lockfile).
Proof.
  apply refines_bind; [by apply refines_gets|].
  intros [[fd []]|]; cbn; [apply refines_ret| |apply refines_raise].
  apply refines_bind; [apply refines_set_lockfile|]. intros _.
  by apply refines_prim.
Qed.

Lemma refines_debug m :
  refines (bind (gets AsyncFileLock.debug)
             (fun dbg => when dbg (logging_debug m)))
          (bind (gets FileLock.debug)
             (fun dbg => when dbg (logging_debug m))).
Proof.
  apply refines_bind; [by apply refines_gets|]. intros dbg.
  apply refines_when. by apply refines_prim.
Qed.

Lemma bind_assoc {S A B C} (m : M S A) (f : A → M S B) (g : B → M S C) st :
  bind (bind m f) g st = bind m (fun x => bind (f x) g) st.
Proof. unfold bind. by destruct (m st) as [[a|e|] st']. Qed.

Lemma refines_assoc {A B C} ma (m : M _ A) (f : A → M _ B) (g : B → M _ C) :
  refines ma (bind (bind m f) g) →
  refines ma (bind m (fun x => bind (f x) g)).
Proof. intros H st. rewrite <- bind_assoc. apply H. Qed.

Lemma refines_time : refines time_time time_time.
Proof. by apply refines_prim. Qed.

Lemma attempt_refines start_time :
  refines (AsyncFileLock.attempt start_time) (FileLock.attempt start_time).
Proof.
  apply refines_try_except.
  - apply refines_assoc, refines_bind.
    { apply refines_run_in_executor, refines_flock. }
    intros _. apply refines_bind; [by apply refines_gets|]. intros dbg.
    apply refines_bind; [apply refines_when; by apply refines_prim|].
    intros; apply refines_ret.
  - intros _. apply refines_bind; [by apply refines_gets|]. intros tmo.
    apply refines_bind.
    { destruct tmo as [q|]; [|apply refines_ret].
      destruct (truthy q); [|apply refines_ret].
      apply refines_bind; [apply refines_time|]. intros; apply refines_ret. }
    intros expired. apply refines_bind.
    { destruct expired; [|apply refines_ret].
      apply refines_bind; [|intros; apply refines_raise].
      apply refines_run_in_executor, refines_close. }
    intros _. apply refines_bind; [by apply refines_prim|].
    intros; apply refines_ret.
Qed.

Lemma enter_rereading_eq fuel st :
  FileLock.__enter__ fuel st = enter_rereading fuel st.
Proof.
  unfold FileLock.__enter__, enter_rereading, bind, gets, os_makedirs,
    py_open, prim, modify.
  cbn.
  destruct (lift_errno _) as [[[]|e|] k1]; try reflexivity. cbn.
  destruct (sys_open _ _ _) as [[e|fd] k2]; reflexivity.
Qed.

Lemma aenter_refines fuel :
  refines (AsyncFileLock.__aenter__ fuel) (FileLock.__enter__ fuel).
Proof.
  intros st. rewrite enter_rereading_eq. revert st.
  apply refines_bind.
  { apply refines_run_in_executor, refines_bind; [by apply refines_gets|].
    intros path. by apply refines_prim. }
  intros _. apply refines_bind.
  { apply refines_run_in_executor, refines_bind; [by apply refines_gets|].
    intros path. by apply refines_prim. }
  intros f. apply refines_bind; [apply refines_set_lockfile|]. intros _.
  apply refines_bind; [by apply refines_gets|]. intros dbg.
  apply refines_bind; [by apply refines_gets|]. intros path.
  apply refines_bind; [apply refines_when; by apply refines_prim|].
  intros _. apply refines_bind; [apply refines_time|]. intros start.
  apply refines_while_true, attempt_refines.
Qed.

Lemma aexit_refines :
  refines AsyncFileLock.__aexit__ FileLock.__exit__.
Proof.
  apply refines_bind; [by apply refines_gets|]. intros [f|]; [|apply refines_ret].
  apply refines_try_finally.
  - apply refines_try_except.
    + apply refines_assoc, refines_bind.
      { apply refines_run_in_executor, refines_flock. }
      intros _. apply refines_debug.
    + intros e. apply refines_debug.
  - apply refines_bind; [|intros; apply refines_set_lockfile].
    apply refines_run_in_executor, refines_close.
Qed.

Lemma is_locked_refines :
  refines AsyncFileLock.is_locked FileLock.is_locked.
Proof.
  apply refines_bind; [by apply refines_gets|]. intros [f|]; [|apply refines_ret].
  apply refines_try_except; [|intros; apply refines_ret].
  apply refines_assoc, refines_bind.
  { apply refines_run_in_executor, refines_flock. }
  intros _. apply refines_assoc, refines_bind.
  { apply refines_run_in_executor, refines_flock. }
  intros; apply refines_ret.
Qed.

End Refinement.

(* ===================================================================== *)
(** ** Facts about [FileLock] *)
(* ===================================================================== *)

Module FileLockFacts.
Import Kernel Py Notions KernelFacts FileLock.

Lemma foreign_hd who (s : Env.script) :
  Env.foreign_script who s → Forall (Env.foreign who) (hd [] s).
Proof. intros [|b rest Hb _]; [constructor|exact Hb]. Qed.

Lemma foreign_tl who (s : Env.script) :
  Env.foreign_script who s → Env.foreign_script who (tl s).
Proof. intros [|b rest _ Hr]; [constructor|exact Hr]. Qed.

(** One call, spelled out. *)
Lemma prim_run {S A} e (f : nat → Kernel.t → Res A * Kernel.t) (s : S) k env tr m :
  prim e f (mkSt s (mkWorld k env tr m)) =
  (fst (f m (Env.run (hd [] env) k)),
   mkSt s (mkWorld (snd (f m (Env.run (hd [] env) k))) (tl env) (e :: tr) m)).
Proof. unfold prim. cbn. by destruct (f m _). Qed.

(** What a turn of the others leaves in place. *)
Lemma turn_facts m env k :
  wf k → Env.foreign_script m env →
  wf (Env.run (hd [] env) k) ∧ Env.foreign_script m (tl env) ∧
  flags (Env.run (hd [] env) k) = flags k ∧
  (k_now k <= k_now (Env.run (hd [] env) k))%Q ∧
  (∀ fd p, k_open k !! fd = Some (Ofd m p) →
           k_open (Env.run (hd [] env) k) !! fd = Some (Ofd m p)) ∧
  (∀ p fd, holds k m p fd → holds (Env.run (hd [] env) k) m p fd).
Proof.
  intros Hwf Hfs. pose proof (foreign_hd _ _ Hfs) as Hhd.
  split_and!.
  - by apply run_wf.
  - by apply foreign_tl.
  - by eapply run_flags.
  - by eapply run_now.
  - intros fd p. by apply run_open.
  - intros p fd. by apply run_holds.
Qed.

Lemma flags_enolck k k' : flags k' = flags k → k_enolck k' = k_enolck k.
Proof. unfold flags. congruence. Qed.

Lemma flags_close_eio k k' : flags k' = flags k → k_close_eio k' = k_close_eio k.
Proof. unfold flags. congruence. Qed.

Lemma flags_unlock_eio k k' :
  flags k' = flags k → k_unlock_eio k' = k_unlock_eio k.
Proof. unfold flags. congruence. Qed.

(** Two contenders cannot both hold the lock of a file. *)
Lemma holds_exclusive k a b p fa fb :
  holds k a p fa → holds k b p fb → a = b ∧ fa = fb.
Proof.
  intros [Hoa Hla] [Hob Hlb]. assert (fa = fb) as -> by congruence.
  split; [congruence|done].
Qed.

(** A turn of the others keeps a contention in place. *)
Lemma turn_contended o g s k env tr m :
  wf k →
  contended o g (mkSt s (mkWorld k env tr m)) →
  ∀ tr', contended o g (mkSt s (mkWorld (Env.run (hd [] env) k) (tl env) tr' m)).
Proof.
  intros Hwf (Hne & Hh & Hfo) tr'. cbn in *. split_and!; [done| |].
  - apply run_holds; [done|by apply foreign_hd|done].
  - by apply foreign_tl.
Qed.

(** [if self.debug: logging.debug(msg)] changes nothing the lock protocol
    looks at, beyond letting the others move. *)
Lemma debug_spec msg st fd :
  good (world st) → attached fd st →
  ∃ st',
    when (debug (self st)) (logging_debug msg) st = (Ok tt, st') ∧
    self st' = self st ∧ me (world st') = me (world st) ∧
    good (world st') ∧ attached fd st' ∧
    flags (kernel (world st')) = flags (kernel (world st)) ∧
    (k_now (kernel (world st)) <= k_now (kernel (world st')))%Q ∧
    (∀ o g, contended o g st → contended o g st') ∧
    (∀ p g, holds (kernel (world st)) (me (world st)) p g →
            holds (kernel (world st')) (me (world st)) p g).
Proof.
  destruct st as [s [k e tr m]]. intros [Hwf Hfs] [Hlf Ho]. cbn in *.
  destruct (debug s); cbn.
  - unfold logging_debug. rewrite prim_run. cbn. eexists. split; [done|].
    destruct (turn_facts _ _ _ Hwf Hfs) as (? & ? & ? & ? & Hop & ?).
    split_and!; try done.
    + split; cbn; [done|by apply Hop].
    + intros o g Hc. by eapply turn_contended.
  - eexists. split; [reflexivity|]. cbn. split_and!; try done. lra.
Qed.

Lemma try_lock_spec st fd :
  good (world st) → attached fd st →
  ∃ st',
    self st' = self st ∧ me (world st') = me (world st) ∧
    good (world st') ∧ attached fd st' ∧
    flags (kernel (world st')) = flags (kernel (world st)) ∧
    (k_now (kernel (world st)) <= k_now (kernel (world st')))%Q ∧
    (∀ o g, contended o g st → contended o g st') ∧
    ((try_lock st = (Ok Break, st') ∧
      k_enolck (kernel (world st)) = false ∧
      holds (kernel (world st')) (me (world st))
        (lockfile_path (self st)) fd)
     ∨
     (∃ e, try_lock st = (Raise (OSError e), st') ∧
           e = (if k_enolck (kernel (world st)) then ENOLCK else EWOULDBLOCK))).
Proof.
  destruct st as [[path tmo dbg lf] [k e tr m]].
  intros [Hwf Hfs] [Hlf Ho]. cbn in *. subst lf.
  unfold try_lock, bind, gets. cbn. rewrite prim_run.
  destruct (turn_facts _ _ _ Hwf Hfs) as (Hwf1 & Hfs1 & Hfl1 & Hnow1 & Hop1 & _).
  assert (Hc1 : ∀ o g s' tr', contended o g (mkSt s' (mkWorld k e tr m)) →
     contended o g (mkSt s' (mkWorld (Env.run (hd [] e) k) (tl e) tr' m))).
  { intros. by eapply turn_contended. }
  specialize (Hop1 _ _ Ho).
  pose proof (flags_enolck _ _ Hfl1) as Hen.
  rewrite <- Hen.
  set (k1 := Env.run (hd [] e) k) in *. clearbody k1.
  set (e1 := tl e) in *. clearbody e1.
  rewrite sys_flock_ex, Hop1. cbn. rewrite Nat.eqb_refl. cbn.
  destruct (k_enolck k1) eqn:Hen1; cbn.
  { eexists. split_and!; [..|right; eexists; split; reflexivity]; try done.
    intros o g Hc. by apply Hc1. }
  (* the state once the lock is ours *)
  assert (Hacq : ∀ k2, wf k2 → holds k2 m path fd → flags k2 = flags k →
     (k_now k <= k_now k2)%Q →
     (∀ o g, contended o g (mkSt (mk path tmo dbg (Some (File fd false)))
                              (mkWorld k e tr m)) → False) →
     ∃ st', self st' = mk path tmo dbg (Some (File fd false)) ∧
       me (world st') = m ∧ good (world st') ∧ attached fd st' ∧
       flags (kernel (world st')) = flags k ∧
       (k_now k <= k_now (kernel (world st')))%Q ∧
       (∀ o g, contended o g (mkSt (mk path tmo dbg (Some (File fd false)))
                              (mkWorld k e tr m)) → contended o g st') ∧
       (let (r, st'0) :=
          when dbg (logging_debug MsgAcquired)
            (mkSt (mk path tmo dbg (Some (File fd false)))
               (mkWorld k2 e1 (EvFlock fd (Z.lor LOCK_EX LOCK_NB) :: tr) m)) in
        match r with
        | Ok _ => ret Break st'0
        | Raise e0 => (Raise e0, st'0)
        | OutOfFuel => (OutOfFuel, st'0)
        end) = (Ok Break, st') ∧
       holds (kernel (world st')) m path fd).
  { intros k2 Hwf2 Hh2 Hfl2 Hnow2 Hno.
    destruct (debug_spec MsgAcquired
      (mkSt (mk path tmo dbg (Some (File fd false)))
         (mkWorld k2 e1 (EvFlock fd (Z.lor LOCK_EX LOCK_NB) :: tr) m)) fd)
      as (st' & Hrun & Hself & Hme & Hgood & Hatt & Hfl & Hnow & _ & Hkeep).
    { done. } { split; [done|]. apply Hh2. }
    cbn in *. rewrite Hrun. exists st'. split_and!; try done.
    - congruence.
    - lra.
    - intros o g Hc. destruct (Hno o g Hc).
    - by apply Hkeep. }
  destruct (k_lock k1 !! path) as [g'|] eqn:Hl1;
    [destruct (Nat.eqb_spec g' fd) as [->|Hne]|]; cbn.
  - destruct (Hacq k1) as (st' & ? & ? & ? & ? & ? & ? & ? & Hrun & ?); try done.
    { intros o g Hc. specialize (Hc1 o g _ tr Hc). destruct Hc1 as (Hne' & Hh' & _).
      cbn in *. by destruct (holds_exclusive _ _ _ _ _ _ Hh' (conj Hop1 Hl1)). }
    exists st'. split_and!; try done. by left.
  - eexists. split_and!; [..|right; eexists; split; reflexivity]; try done.
    intros o g Hc. by apply Hc1.
  - destruct (Hacq (set_lock (fun l => <[path := fd]> l) k1))
      as (st' & ? & ? & ? & ? & ? & ? & ? & Hrun & ?); try done.
    { pose proof (sys_flock_wf m fd (Z.lor LOCK_EX LOCK_NB) k1 Hwf1) as Hw.
      by rewrite (sys_flock_free _ _ _ _ Hop1 Hen1 Hl1) in Hw. }
    { split; cbn; [done|]. apply lookup_insert_eq. }
    { intros o g Hc. specialize (Hc1 o g _ tr Hc). destruct Hc1 as (_ & [_ Hh'] & _).
      cbn in *. congruence. }
    exists st'. split_and!; try done. by left.
Qed.

(** A turn of the others, seen from the handle. *)
Lemma turn_state s k e tr m fd tr' :
  good (mkWorld k e tr m) → attached fd (mkSt s (mkWorld k e tr m)) →
  good (mkWorld (Env.run (hd [] e) k) (tl e) tr' m) ∧
  attached fd (mkSt s (mkWorld (Env.run (hd [] e) k) (tl e) tr' m)) ∧
  flags (Env.run (hd [] e) k) = flags k ∧
  (k_now k <= k_now (Env.run (hd [] e) k))%Q ∧
  (∀ o g s', contended o g (mkSt s' (mkWorld k e tr m)) →
     contended o g (mkSt s' (mkWorld (Env.run (hd [] e) k) (tl e) tr' m))).
Proof.
  intros [Hwf Hfs] [Hlf Ho]. cbn in *.
  destruct (turn_facts _ _ _ Hwf Hfs) as (? & ? & ? & ? & Hop & ?).
  split_and!; try done.
  - split; cbn; [done|by apply Hop].
  - intros o g s' Hc. by eapply turn_contended.
Qed.

Lemma on_would_block_spec start st fd :
  good (world st) → attached fd st →
  ∃ r st',
    on_would_block start st = (r, st') ∧
    me (world st') = me (world st) ∧ good (world st') ∧
    flags (kernel (world st')) = flags (kernel (world st)) ∧
    (k_now (kernel (world st)) <= k_now (kernel (world st')))%Q ∧
    (∀ o g, contended o g st → contended o g st') ∧
    ((r = Ok Continue ∧
      self st' = self st ∧ attached fd st' ∧
      (k_now (kernel (world st)) + (1 # 10)
         <= k_now (kernel (world st')))%Q ∧
      (∀ q, timeout (self st) = Some q → truthy q = true →
            (k_now (kernel (world st)) - start <= q)%Q))
     ∨
     (∃ q, timeout (self st) = Some q ∧ truthy q = true ∧
        r = (if k_close_eio (kernel (world st))
             then Raise (OSError EIO) else Raise (TimeoutError (Some q))) ∧
        self st' = set_lockfile (Some (File fd true)) (self st) ∧
        k_open (kernel (world st')) !! fd = None ∧
        (q < k_now (kernel (world st')) - start)%Q)).
Proof.
  destruct st as [[path tmo dbg lf] [k e tr m]].
  intros Hgood Hatt. pose proof Hatt as [Hlf _]. cbn in Hlf. subst lf.
  (* the sleep that ends an iteration *)
  assert (Hsleep : ∀ k1 e1 tr1,
     good (mkWorld k1 e1 tr1 m) →
     attached fd (mkSt (mk path tmo dbg (Some (File fd false)))
                    (mkWorld k1 e1 tr1 m)) →
     flags k1 = flags k → (k_now k <= k_now k1)%Q →
     (∀ o g, contended o g (mkSt (mk path tmo dbg (Some (File fd false)))
                              (mkWorld k e tr m)) →
             contended o g (mkSt (mk path tmo dbg (Some (File fd false)))
                              (mkWorld k1 e1 tr1 m))) →
     ∃ st',
       bind (time_sleep (1 # 10)) (fun _ => ret Continue)
         (mkSt (mk path tmo dbg (Some (File fd false))) (mkWorld k1 e1 tr1 m))
       = (Ok Continue, st') ∧
       me (world st') = m ∧ good (world st') ∧
       flags (kernel (world st')) = flags k ∧
       (k_now k <= k_now (kernel (world st')))%Q ∧
       (∀ o g, contended o g (mkSt (mk path tmo dbg (Some (File fd false)))
                              (mkWorld k e tr m)) → contended o g st') ∧
       self st' = mk path tmo dbg (Some (File fd false)) ∧ attached fd st' ∧
       (k_now k + (1 # 10) <= k_now (kernel (world st')))%Q).
  { intros k1 e1 tr1 Hg1 Ha1 Hfl1 Hnow1 Hc1.
    unfold bind, time_sleep. rewrite prim_run. cbn.
    destruct (turn_state _ _ _ _ _ _ (EvSleep (1 # 10) :: tr1) Hg1 Ha1)
      as ([Hwf2 Hfs2] & [_ Ho2] & Hfl2 & Hnow2 & Hc2). cbn in *.
    eexists. split_and!; try reflexivity; cbn; try done; try lra.
    - change (flags (Env.run (hd [] e1) k1) = flags k). congruence.
    - intros o g Hc. exact (Hc2 o g _ (Hc1 o g Hc)). }
  unfold on_would_block. unfold bind at 1 2. unfold gets at 1. cbn.
  destruct tmo as [q|]; [destruct (truthy q) eqn:Ht|].
  2,3: destruct (Hsleep k e tr) as (st' & Hrun & ? & ? & ? & ? & ? & ? & ? & ?);
    [done|done|done|lra|done|];
    exists (Ok Continue), st'; split_and!; try done; left; split_and!; try done;
    intros ? [= <-]; congruence.
  unfold bind at 1, time_time. rewrite prim_run. cbn.
  destruct (turn_state _ _ _ _ _ _ (EvTime :: tr) Hgood Hatt)
    as (Hg1 & Ha1 & Hfl1 & Hnow1 & Hc1).
  set (k1 := Env.run (hd [] e) k) in *. clearbody k1.
  set (e1 := tl e) in *. clearbody e1. cbn in Hnow1.
  destruct (Qgtb (k_now k1 - start) q) eqn:Hexp.
  - (* expired: close and raise *)
    unfold close_attr, bind, gets, modify. cbn. rewrite prim_run. cbn.
    destruct (turn_state _ _ _ _ _ _ (EvClose fd :: EvTime :: tr) Hg1 Ha1)
      as ([Hwf2 Hfs2] & [_ Ho2] & Hfl2 & Hnow2 & Hc2).
    set (k2 := Env.run (hd [] e1) k1) in *. clearbody k2.
    set (e2 := tl e1) in *. clearbody e2. cbn in *.
    rewrite (sys_close_own _ _ _ _ Ho2). cbn.
    pose proof (sys_close_wf m fd k2 Hwf2) as Hwf3.
    rewrite (sys_close_own _ _ _ _ Ho2) in Hwf3. cbn in Hwf3.
    assert (k_close_eio k2 = k_close_eio k) as Hce.
    { apply flags_close_eio. congruence. }
    assert (Hq : (q < k_now k2 - start)%Q).
    { unfold Qgtb in Hexp. apply negb_true_iff in Hexp.
      destruct (Qlt_le_dec q (k_now k1 - start)) as [Hlt|Hle]; [lra|].
      apply Qle_bool_iff in Hle. congruence. }
    exists (if k_close_eio k then Raise (OSError EIO)
            else Raise (TimeoutError (Some q))).
    eexists. split.
    { rewrite Hce. destruct (k_close_eio k); reflexivity. }
    cbn. split_and!; try done.
    + change (flags k2 = flags k). congruence.
    + lra.
    + intros o g Hc. destruct (Hc2 o g _ (Hc1 o g _ Hc)) as (Hne & [Hog Hlg] & Hfo).
      cbn in *. split_and!; [done| |done]. split; cbn.
      * rewrite lookup_delete_ne; [done|]. intros ->. congruence.
      * apply release_lookup_other; [done|]. intros ->. congruence.
    + right. exists q. split_and!; try done. cbn. apply lookup_delete_eq.
  - (* not yet: sleep *)
    destruct (Hsleep k1 e1 (EvTime :: tr)) as (st' & Hrun & ? & ? & ? & ? & ? & ? & ? & ?);
      [done|done|done|done|by intros; apply Hc1|].
    exists (Ok Continue), st'. split_and!; try done. left. split_and!; try done.
    intros q' [= <-] _.
    unfold Qgtb in Hexp. apply negb_false_iff, Qle_bool_iff in Hexp. lra.
Qed.

(** One iteration of the loop, by cases: the lock is taken; or the
    iteration ends in the sleep; or the kernel has no lock record left; or
    the timeout has expired and the file is closed. *)
Lemma attempt_spec start st fd :
  good (world st) → attached fd st →
  ∃ r st',
    attempt start st = (r, st') ∧
    me (world st') = me (world st) ∧ good (world st') ∧
    flags (kernel (world st')) = flags (kernel (world st)) ∧
    (k_now (kernel (world st)) <= k_now (kernel (world st')))%Q ∧
    (∀ o g, contended o g st → contended o g st') ∧
    ((r = Ok Break ∧ k_enolck (kernel (world st)) = false ∧
      self st' = self st ∧ attached fd st' ∧
      holds (kernel (world st')) (me (world st)) (lockfile_path (self st)) fd)
     ∨
     (r = Ok Continue ∧ k_enolck (kernel (world st)) = false ∧
      self st' = self st ∧ attached fd st' ∧
      (k_now (kernel (world st)) + (1 # 10)
         <= k_now (kernel (world st')))%Q ∧
      (∀ q, timeout (self st) = Some q → truthy q = true →
            (k_now (kernel (world st)) - start <= q)%Q))
     ∨
     (r = Raise (OSError ENOLCK) ∧ k_enolck (kernel (world st)) = true ∧
      self st' = self st ∧ attached fd st')
     ∨
     (∃ q, k_enolck (kernel (world st)) = false ∧
        timeout (self st) = Some q ∧ truthy q = true ∧
        r = (if k_close_eio (kernel (world st))
             then Raise (OSError EIO) else Raise (TimeoutError (Some q))) ∧
        self st' = set_lockfile (Some (File fd true)) (self st) ∧
        k_open (kernel (world st')) !! fd = None ∧
        (q < k_now (kernel (world st')) - start)%Q)).
Proof.
  intros Hgood Hatt. unfold attempt, try_except.
  destruct (try_lock_spec st fd Hgood Hatt)
    as (st1 & Hs1 & Hm1 & Hg1 & Ha1 & Hf1 & Hn1 & Hc1 & [(-> & Hen & Hh)|(e & -> & ->)]).
  { exists (Ok Break), st1. split_and!; try done. left. done. }
  destruct (k_enolck (kernel (world st))) eqn:Hen; cbn -[on_would_block].
  { exists (Raise (OSError ENOLCK)), st1. split_and!; try done.
    right; right; left. done. }
  destruct (on_would_block_spec start st1 fd Hg1 Ha1)
    as (r & st2 & -> & Hm2 & Hg2 & Hf2 & Hn2 & Hc2 & Hcases).
  exists r, st2. split_and!; try done.
  - congruence.
  - congruence.
  - lra.
  - intros o g Hc. by apply Hc2, Hc1.
  - destruct Hcases as [(-> & Hs2 & Ha2 & Hadv & Hnot)|(q & Ht & Htr & -> & Hs2 & Hcl & Hq)].
    + right; left. split_and!; try done.
      * congruence.
      * lra.
      * intros q Hq Htr. rewrite <- Hs1 in Hq. specialize (Hnot q Hq Htr). lra.
    + right; right; right. exists q. split_and!; try done.
      * congruence.
      * by rewrite (flags_close_eio _ _ Hf1).
      * congruence.
Qed.

(** Once the loop has ended normally the handle holds the lock through the
    description in its [lockfile] attribute. *)
Lemma loop_acquired fuel start st fd st' :
  good (world st) → attached fd st →
  while_true fuel (attempt start) st = (Ok tt, st') →
  self st' = self st ∧ me (world st') = me (world st) ∧
  good (world st') ∧ attached fd st' ∧
  flags (kernel (world st')) = flags (kernel (world st)) ∧
  k_enolck (kernel (world st')) = false ∧
  holds (kernel (world st')) (me (world st)) (lockfile_path (self st)) fd.
Proof.
  revert st. induction fuel as [|fuel IH]; intros st Hgood Hatt; cbn.
  { discriminate. }
  unfold bind.
  destruct (attempt_spec start st fd Hgood Hatt)
    as (r & st1 & -> & Hm1 & Hg1 & Hf1 & Hn1 & Hc1 & Hcases).
  destruct Hcases as [(-> & Hen & Hs1 & Ha1 & Hh)|[(-> & Hen & Hs1 & Ha1 & _)|
    [(-> & _)|(q & _ & _ & _ & -> & _)]]].
  - intros [= <-]. split_and!; try done.
    rewrite (flags_enolck _ _ Hf1). done.
  - intros Hrun. destruct (IH st1 Hg1 Ha1 Hrun) as (? & ? & ? & ? & ? & ? & ?).
    split_and!; try done; congruence.
  - discriminate.
  - by destruct (k_close_eio _).
Qed.

(** Behind another holder the lock is never taken. *)
Lemma contended_not_held o g st fd :
  contended o g st →
  ¬ holds (kernel (world st)) (me (world st)) (lockfile_path (self st)) fd.
Proof.
  intros (Hne & Hh & _) Hmine.
  destruct (holds_exclusive _ _ _ _ _ _ Hh Hmine) as [-> _]. done.
Qed.

(** Behind another holder, a handle whose [timeout] is not true polls for as
    long as it is given fuel. *)
Lemma loop_contended_polls fuel start st o g fd :
  good (world st) → attached fd st → contended o g st →
  k_enolck (kernel (world st)) = false →
  match timeout (self st) with Some q => truthy q | None => false end = false →
  ∃ st', while_true fuel (attempt start) st = (OutOfFuel, st') ∧
         self st' = self st ∧ attached fd st' ∧ contended o g st'.
Proof.
  revert st. induction fuel as [|fuel IH]; intros st Hgood Hatt Hcon Hen Htmo; cbn.
  { by exists st. }
  unfold bind.
  destruct (attempt_spec start st fd Hgood Hatt)
    as (r & st1 & -> & Hm1 & Hg1 & Hf1 & Hn1 & Hc1 & Hcases).
  destruct Hcases as [(-> & _ & Hs1 & Ha1 & Hh)|[(-> & _ & Hs1 & Ha1 & _)|
    [(-> & Hen' & _)|(q & _ & Hq & Htr & _)]]].
  - destruct (contended_not_held o g st1 fd (Hc1 o g Hcon)). congruence.
  - destruct (IH st1) as (st' & Hrun & ? & ? & ?); try done.
    + by apply Hc1.
    + by rewrite (flags_enolck _ _ Hf1).
    + by rewrite Hs1.
    + exists st'. split_and!; try done. congruence.
  - congruence.
  - rewrite Hq, Htr in Htmo. discriminate.
Qed.

(** Behind another holder, a handle whose [timeout] is true closes its file
    and raises [TimeoutError] once the clock has passed the timeout: within
    [n] more iterations when less than [n] tenths of a second are left. *)
Lemma loop_contended_expires n start st o g fd q :
  good (world st) → attached fd st → contended o g st →
  k_enolck (kernel (world st)) = false →
  k_close_eio (kernel (world st)) = false →
  timeout (self st) = Some q → truthy q = true →
  (q - (k_now (kernel (world st)) - start) < inject_Z (Z.of_nat n) * (1 # 10))%Q →
  ∃ fuel st', (fuel <= S n)%nat ∧
    while_true fuel (attempt start) st = (Raise (TimeoutError (Some q)), st') ∧
    self st' = set_lockfile (Some (File fd true)) (self st) ∧
    k_open (kernel (world st')) !! fd = None ∧
    (q < k_now (kernel (world st')) - start)%Q ∧
    contended o g st'.
Proof.
  revert st. induction n as [|n IH];
    intros st Hgood Hatt Hcon Hen Hce Htmo Htr Hleft.
  all: destruct (attempt_spec start st fd Hgood Hatt)
    as (r & st1 & Hrun & Hm1 & Hg1 & Hf1 & Hn1 & Hc1 & Hcases).
  all: destruct Hcases as [(-> & _ & Hs1 & Ha1 & Hh)|[(-> & _ & Hs1 & Ha1 & Hadv & Hnot)|
    [(-> & Hen' & _)|(q' & _ & Hq' & _ & -> & Hs1 & Hcl & Hpast)]]].
  all: try (destruct (contended_not_held o g st1 fd (Hc1 o g Hcon)); congruence).
  all: try congruence.
  - specialize (Hnot q Htmo Htr).
    change (inject_Z (Z.of_nat 0)) with 0%Q in Hleft. lra.
  - exists 1%nat, st1. cbn. unfold bind. rewrite Hrun, Hce.
    assert (q' = q) as -> by congruence.
    split_and!; try done; try lia. by apply Hc1.
  - destruct (IH st1) as (fuel & st' & Hfuel & Hloop & ? & ? & ? & ?); try done.
    + by apply Hc1.
    + by rewrite (flags_enolck _ _ Hf1).
    + by rewrite (flags_close_eio _ _ Hf1).
    + congruence.
    + rewrite Nat2Z.inj_succ, <- Z.add_1_r, inject_Z_plus in Hleft.
      change (inject_Z 1) with 1%Q in Hleft. lra.
    + exists (S fuel), st'. cbn. unfold bind. rewrite Hrun.
      split_and!; try done; try lia. congruence.
  - exists 1%nat, st1. cbn. unfold bind. rewrite Hrun, Hce.
    assert (q' = q) as -> by congruence.
    split_and!; try done; try lia. by apply Hc1.
Qed.

(** With no lock record left in the kernel the first request fails, and the
    error leaves the loop with the file still open. *)
Lemma loop_enolck fuel start st fd :
  good (world st) → attached fd st →
  k_enolck (kernel (world st)) = true →
  ∃ st', while_true (S fuel) (attempt start) st = (Raise (OSError ENOLCK), st') ∧
         self st' = self st ∧ attached fd st'.
Proof.
  intros Hgood Hatt Hen. cbn. unfold bind.
  destruct (attempt_spec start st fd Hgood Hatt)
    as (r & st1 & -> & Hm1 & Hg1 & Hf1 & Hn1 & Hc1 & Hcases).
  destruct Hcases as [(-> & ? & _)|[(-> & ? & _)|
    [(-> & _ & ? & ?)|(q' & ? & _)]]]; try congruence.
  by exists st1.
Qed.

(** *** The lines before the loop *)

Lemma enter_prelude fuel st :
  __enter__ fuel st =
  bind prelude (fun start_time => while_true fuel (attempt start_time)) st.
Proof.
  unfold __enter__, prelude, bind, gets, modify. cbn.
  destruct (os_makedirs _ st) as [[[]|e|] st1]; try reflexivity.
  destruct (py_open _ st1) as [[f|e|] st2]; try reflexivity. cbn.
  destruct (when _ _ _) as [[[]|e|] st3]; try reflexivity.
Qed.

Lemma flags_core k k' : core k' = core k → flags k' = flags k.
Proof. unfold core, flags. congruence. Qed.

Lemma prelude_spec st :
  good (world st) →
  ∃ r st1,
    prelude st = (r, st1) ∧
    me (world st1) = me (world st) ∧ good (world st1) ∧
    flags (kernel (world st1)) = flags (kernel (world st)) ∧
    ((∃ fd, r = Ok (k_now (kernel (world st1))) ∧
            self st1 = set_lockfile (Some (File fd false)) (self st) ∧
            attached fd st1 ∧
            (∀ o g, contended o g st → contended o g st1))
     ∨ (∃ e, r = Raise (OSError e) ∧ self st1 = self st)).
Proof.
  destruct st as [[path tmo dbg lf] [k e tr m]]. intros [Hwf Hfs].
  cbn in Hwf, Hfs. unfold prelude. unfold bind at 1 2. unfold gets at 1. cbn.
  unfold os_makedirs. rewrite prim_run. cbn.
  destruct (turn_facts _ _ _ Hwf Hfs) as (Hwf1 & Hfs1 & Hfl1 & _ & _ & _).
  assert (Hc1 : ∀ o g s' tr', contended o g (mkSt s' (mkWorld k e tr m)) →
     contended o g (mkSt s' (mkWorld (Env.run (hd [] e) k) (tl e) tr' m))).
  { intros. by eapply turn_contended. }
  set (k1 := Env.run (hd [] e) k) in *. clearbody k1.
  set (e1 := tl e) in *. clearbody e1.
  pose proof (makedirs_core (posixpath.dirname path) k1) as Hcore.
  destruct (makedirs (posixpath.dirname path) k1) as [[err|] k1'] eqn:Emk;
    cbn in Hcore |- *.
  { eexists _, _. split; [reflexivity|]. unfold good. cbn. split_and!; try done.
    - by eapply wf_core.
    - rewrite (flags_core _ _ Hcore). done.
    - right. by eexists. }
  assert (Hwf1' : wf k1') by (by eapply wf_core).
  unfold bind at 1. unfold py_open. rewrite prim_run. cbn.
  destruct (turn_facts _ _ _ Hwf1' Hfs1) as (Hwf2 & Hfs2 & Hfl2 & _ & _ & _).
  assert (Hc2 : ∀ o g s' tr', contended o g (mkSt s' (mkWorld k e tr m)) →
     contended o g (mkSt s' (mkWorld (Env.run (hd [] e1) k1') (tl e1) tr' m))).
  { intros o g s' tr' Hc. eapply (turn_contended o g s' k1' e1 tr m); [done|].
    destruct (Hc1 o g s' tr Hc) as (? & ? & ?). cbn in *.
    split_and!; try done. by eapply holds_core. }
  set (k2 := Env.run (hd [] e1) k1') in *. clearbody k2.
  set (e2 := tl e1) in *. clearbody e2.
  pose proof (sys_open_wf m path k2 Hwf2) as Hwf3.
  destruct (sys_open m path k2) as [[err|fd] k3] eqn:Eop; cbn in Hwf3 |- *.
  { apply sys_open_err in Eop as ->.
    eexists _, _. split; [reflexivity|]. unfold good. cbn. split_and!; try done.
    - rewrite Hfl2, (flags_core _ _ Hcore). done.
    - right. by eexists. }
  destruct (sys_open_ok _ _ _ _ _ Eop) as (-> & Hop3 & Hnx3 & Hlk3 & Hnow3 & Hfl3).
  unfold set_lockfile. cbn.
  assert (Hatt3 : attached (k_next k2)
    (mkSt (mk path tmo dbg (Some (File (k_next k2) false)))
       (mkWorld k3 e2 (EvOpen path :: EvMakedirs (posixpath.dirname path) :: tr) m))).
  { split; cbn; [done|]. rewrite Hop3. apply lookup_insert_eq. }
  assert (Hc3 : ∀ o g s' tr', contended o g (mkSt s' (mkWorld k e tr m)) →
     contended o g (mkSt s' (mkWorld k3 e2 tr' m))).
  { intros o g s' tr' Hc. destruct (Hc2 o g s' tr Hc) as (? & [Hog Hlg] & ?).
    cbn in *. split_and!; try done. split; cbn.
    - rewrite Hop3, lookup_insert_ne; [done|].
      pose proof (wf_fresh _ _ _ Hwf2 Hog). lia.
    - by rewrite Hlk3. }
  assert (Hg3 : good (mkWorld k3 e2
    (EvOpen path :: EvMakedirs (posixpath.dirname path) :: tr) m)) by done.
  destruct (debug_spec (MsgTrying path) (mkSt _ _) _ Hg3 Hatt3)
    as (st4 & Hrun4 & Hs4 & Hm4 & Hg4 & Ha4 & Hfl4 & _ & Hc4 & _).
  cbn in Hrun4, Hs4, Hm4, Hfl4. unfold bind. rewrite Hrun4.
  destruct st4 as [s4 [k4 e4 tr4 m4]]. cbn in Hs4, Hm4, Hfl4. subst s4 m4.
  unfold time_time. rewrite prim_run. cbn.
  destruct (turn_state _ _ _ _ _ _ (EvTime :: tr4) Hg4 Ha4)
    as (Hg5 & Ha5 & Hfl5 & _ & Hc5).
  eexists _, _. split; [reflexivity|]. cbn. split_and!.
  - done.
  - exact Hg5.
  - rewrite Hfl5, Hfl4, Hfl3, Hfl2, (flags_core _ _ Hcore). done.
  - left. exists (k_next k2). split_and!; try done.
    intros o g Hc. apply Hc5, Hc4. cbn. by apply Hc3.
Qed.

(** *** Acquisition as a whole *)

(** A normal return of [__enter__] leaves the handle holding the lock
    through the description in its [lockfile] attribute. *)
Lemma enter_acquires fuel st st' :
  good (world st) → __enter__ fuel st = (Ok tt, st') →
  ∃ fd,
    self st' = set_lockfile (Some (File fd false)) (self st) ∧
    me (world st') = me (world st) ∧ good (world st') ∧
    k_enolck (kernel (world st')) = false ∧
    holds (kernel (world st')) (me (world st)) (lockfile_path (self st)) fd.
Proof.
  intros Hgood. rewrite enter_prelude. unfold bind.
  destruct (prelude_spec st Hgood)
    as (r & st1 & -> & Hm1 & Hg1 & Hf1 & [(fd & -> & Hs1 & Ha1 & _)|(e & -> & _)]);
    [|discriminate].
  intros Hloop.
  destruct (loop_acquired _ _ _ _ _ Hg1 Ha1 Hloop)
    as (Hs2 & Hm2 & Hg2 & Ha2 & Hf2 & Hen2 & Hh2).
  exists fd. split_and!; try done; try congruence.
  rewrite Hm1, Hs1 in Hh2. exact Hh2.
Qed.

(** Behind another holder [__enter__] never returns normally. *)
Lemma loop_contended_never_acquires fuel start st o g fd :
  good (world st) → attached fd st → contended o g st →
  ∀ st', while_true fuel (attempt start) st ≠ (Ok tt, st').
Proof.
  revert st. induction fuel as [|fuel IH]; intros st Hgood Hatt Hcon st'; cbn.
  { discriminate. }
  unfold bind.
  destruct (attempt_spec start st fd Hgood Hatt)
    as (r & st1 & -> & Hm1 & Hg1 & Hf1 & Hn1 & Hc1 & Hcases).
  destruct Hcases as [(-> & _ & Hs1 & Ha1 & Hh)|[(-> & _ & Hs1 & Ha1 & _)|
    [(-> & _)|(q & _ & _ & _ & -> & _)]]].
  - destruct (contended_not_held o g st1 fd (Hc1 o g Hcon)). congruence.
  - apply IH; [done|done|by apply Hc1].
  - discriminate.
  - by destruct (k_close_eio _).
Qed.

Lemma enter_contended_never_acquires fuel st o g :
  good (world st) → contended o g st →
  ∀ st', __enter__ fuel st ≠ (Ok tt, st').
Proof.
  intros Hgood Hcon st'. rewrite enter_prelude. unfold bind.
  destruct (prelude_spec st Hgood)
    as (r & st1 & -> & Hm1 & Hg1 & Hf1 & [(fd & -> & Hs1 & Ha1 & Hc1)|(e & -> & _)]);
    [|discriminate].
  eapply loop_contended_never_acquires; [done|done|by apply Hc1].
Qed.

(** *** [is_locked] *)

(** Without a file object the probe answers [False] and does nothing. *)
Lemma is_locked_no_file st :
  lockfile (self st) = None → is_locked st = (Ok false, st).
Proof. intros H. unfold is_locked, bind, gets. cbn. by rewrite H. Qed.

(** On a closed file object the probe raises [ValueError]. *)
Lemma is_locked_closed_file st fd :
  lockfile (self st) = Some (File fd true) →
  is_locked st = (Raise ValueError, st).
Proof.
  intros H. unfold is_locked, bind, gets, try_except. cbn. by rewrite H; cbn; rewrite H.
Qed.

Lemma is_locked_spec st fd :
  good (world st) → attached fd st →
  ∃ st',
    is_locked st =
      (probe_answer (Env.run (hd [] (env (world st))) (kernel (world st)))
         (me (world st)) fd, st') ∧
    self st' = self st ∧ me (world st') = me (world st) ∧
    good (world st') ∧ attached fd st'.
Proof.
  destruct st as [[path tmo dbg lf] [k e tr m]].
  intros Hgood Hatt. pose proof Hatt as [Hlf _]. cbn in Hlf. subst lf.
  unfold is_locked, bind, gets, try_except, probe_answer. cbn.
  rewrite prim_run. cbn.
  destruct (turn_state _ _ _ _ _ _ (EvFlock fd (Z.lor LOCK_EX LOCK_NB) :: tr)
              Hgood Hatt) as ([Hwf1 Hfs1] & [_ Ho1] & Hfl1 & _ & _).
  set (k1 := Env.run (hd [] e) k) in *. clearbody k1.
  set (e1 := tl e) in *. clearbody e1. cbn in *.
  pose proof (sys_flock_wf m fd (Z.lor LOCK_EX LOCK_NB) k1 Hwf1) as Hwf1'.
  pose proof (sys_flock_open m fd (Z.lor LOCK_EX LOCK_NB) k1) as Hop1'.
  pose proof (sys_flock_flags m fd (Z.lor LOCK_EX LOCK_NB) k1) as Hfl1'.
  destruct (sys_flock m fd (Z.lor LOCK_EX LOCK_NB) k1) as [[err|] k1'];
    cbn in *.
  { assert (Ha : attached fd (mkSt (mk path tmo dbg (Some (File fd false)))
        (mkWorld k1' e1 (EvFlock fd (Z.lor LOCK_EX LOCK_NB) :: tr) m))).
    { split; cbn; [done|]. by rewrite Hop1'. }
    destruct err; cbn; eexists; (split; [reflexivity|]); done. }
  rewrite prim_run. cbn.
  assert (Ha : attached fd (mkSt (mk path tmo dbg (Some (File fd false)))
      (mkWorld k1' e1 (EvFlock fd (Z.lor LOCK_EX LOCK_NB) :: tr) m))).
  { split; cbn; [done|]. by rewrite Hop1'. }
  destruct (turn_state _ _ _ _ _ _
              (EvFlock fd LOCK_UN :: EvFlock fd (Z.lor LOCK_EX LOCK_NB) :: tr)
              (conj Hwf1' Hfs1 : good (mkWorld k1' e1 _ m)) Ha)
    as ([Hwf2 Hfs2] & [_ Ho2] & Hfl2 & _ & _).
  set (k2 := Env.run (hd [] e1) k1') in *. clearbody k2.
  set (e2 := tl e1) in *. clearbody e2. cbn in *.
  assert (k_unlock_eio k2 = k_unlock_eio k1) as Hue.
  { apply flags_unlock_eio. congruence. }
  pose proof (sys_flock_wf m fd LOCK_UN k2 Hwf2) as Hwf2'.
  pose proof (sys_flock_open m fd LOCK_UN k2) as Hop2'.
  rewrite sys_flock_un, Ho2 in *. cbn in *. rewrite Nat.eqb_refl in *. cbn in *.
  rewrite Hue in *.
  destruct (k_unlock_eio k1); cbn in *; eexists; (split; [reflexivity|]);
    split_and!; try done; split; cbn; done.
Qed.

(** The probe of a handle that holds the lock: the request succeeds on the
    handle's own description and the unlock that follows gives the lock up. *)
Lemma is_locked_holder st fd :
  good (world st) → attached fd st →
  holds (kernel (world st)) (me (world st)) (lockfile_path (self st)) fd →
  k_enolck (kernel (world st)) = false →
  k_unlock_eio (kernel (world st)) = false →
  ∃ st',
    is_locked st = (Ok false, st') ∧
    self st' = self st ∧ attached fd st' ∧
    k_lock (kernel (world st')) !! lockfile_path (self st) = None.
Proof.
  destruct st as [[path tmo dbg lf] [k e tr m]].
  intros Hgood Hatt Hh Hen Hue. pose proof Hatt as [Hlf _]. cbn in Hlf. subst lf.
  cbn in Hh, Hen, Hue.
  unfold is_locked, bind, gets, try_except. cbn.
  rewrite prim_run. cbn.
  destruct Hgood as [Hwf Hfs]. cbn in Hwf, Hfs.
  destruct (turn_facts _ _ _ Hwf Hfs) as (Hwf1 & Hfs1 & Hfl1 & _ & _ & Hh1).
  specialize (Hh1 _ _ Hh).
  set (k1 := Env.run (hd [] e) k) in *. clearbody k1.
  set (e1 := tl e) in *. clearbody e1.
  rewrite (sys_flock_own _ _ _ _ Hh1); [|by rewrite (flags_enolck _ _ Hfl1)].
  cbn. rewrite prim_run. cbn.
  destruct (turn_facts _ _ _ Hwf1 Hfs1) as (Hwf2 & Hfs2 & Hfl2 & _ & _ & Hh2).
  specialize (Hh2 _ _ Hh1).
  set (k2 := Env.run (hd [] e1) k1) in *. clearbody k2.
  set (e2 := tl e1) in *. clearbody e2.
  destruct Hh2 as [Ho2 Hl2].
  rewrite sys_flock_un, Ho2. cbn. rewrite Nat.eqb_refl. cbn.
  assert (k_unlock_eio k2 = false) as ->.
  { rewrite (flags_unlock_eio _ _ Hfl2), (flags_unlock_eio _ _ Hfl1). done. }
  cbn. eexists. split; [reflexivity|]. cbn. split_and!; try done.
  rewrite (release_own _ _ _ Hl2). apply lookup_delete_eq.
Qed.

(** The probe of a holder leaves the machine in the health it found. *)
Lemma is_locked_holder_flags st fd :
  good (world st) → attached fd st →
  holds (kernel (world st)) (me (world st)) (lockfile_path (self st)) fd →
  k_enolck (kernel (world st)) = false →
  k_unlock_eio (kernel (world st)) = false →
  flags (kernel (world (snd (is_locked st)))) = flags (kernel (world st)) ∧
  me (world (snd (is_locked st))) = me (world st).
Proof.
  destruct st as [[path tmo dbg lf] [k e tr m]].
  intros Hgood Hatt Hh Hen Hue. pose proof Hatt as [Hlf _]. cbn in Hlf. subst lf.
  cbn in Hh, Hen, Hue.
  unfold is_locked, bind, gets, try_except. cbn.
  rewrite prim_run. cbn.
  destruct Hgood as [Hwf Hfs]. cbn in Hwf, Hfs.
  destruct (turn_facts _ _ _ Hwf Hfs) as (Hwf1 & Hfs1 & Hfl1 & _ & _ & Hh1).
  specialize (Hh1 _ _ Hh).
  set (k1 := Env.run (hd [] e) k) in *. clearbody k1.
  set (e1 := tl e) in *. clearbody e1.
  rewrite (sys_flock_own _ _ _ _ Hh1); [|by rewrite (flags_enolck _ _ Hfl1)].
  cbn. rewrite prim_run. cbn.
  destruct (turn_facts _ _ _ Hwf1 Hfs1) as (Hwf2 & Hfs2 & Hfl2 & _ & _ & Hh2).
  specialize (Hh2 _ _ Hh1).
  set (k2 := Env.run (hd [] e1) k1) in *. clearbody k2.
  set (e2 := tl e1) in *. clearbody e2.
  destruct Hh2 as [Ho2 Hl2].
  rewrite sys_flock_un, Ho2. cbn. rewrite Nat.eqb_refl. cbn.
  assert (k_unlock_eio k2 = false) as ->.
  { rewrite (flags_unlock_eio _ _ Hfl2), (flags_unlock_eio _ _ Hfl1). done. }
  cbn. split; [|done]. rewrite <- Hfl1, <- Hfl2. reflexivity.
Qed.

(** *** [__exit__] *)

(** Without a file object [__exit__] does nothing. *)
Lemma exit_no_file st :
  lockfile (self st) = None → __exit__ st = (Ok tt, st).
Proof. intros H. unfold __exit__, bind, gets. cbn. by rewrite H. Qed.

(** A normal return of [__exit__] leaves the attribute empty. *)
Lemma exit_clears st st' :
  __exit__ st = (Ok tt, st') → lockfile (self st') = None.
Proof.
  unfold __exit__. unfold bind at 1. unfold gets at 1. cbn.
  destruct (lockfile (self st)) as [f|] eqn:Hlf.
  - unfold try_finally.
    destruct (try_except _ _ _ st) as [[[]|e|] st1]; [| |discriminate].
    all: unfold bind, modify;
      destruct (close_attr lockfile set_lockfile st1) as [[[]|e'|] st2];
      try discriminate; by intros [= <-].
  - by intros [= <-].
Qed.

(** Releasing twice is releasing once. *)
Lemma exit_idempotent st st' :
  __exit__ st = (Ok tt, st') → __exit__ st' = (Ok tt, st').
Proof. intros H. apply exit_no_file. by eapply exit_clears. Qed.

(** On a closed file object the unlock raises [ValueError], which is
    swallowed, and the attribute is cleared. *)
Lemma exit_closed_file st fd :
  lockfile (self st) = Some (File fd true) →
  ∃ st', __exit__ st = (Ok tt, st') ∧
         self st' = set_lockfile None (self st) ∧
         kernel (world st') =
           (if debug (self st)
            then Env.run (hd [] (env (world st))) (kernel (world st))
            else kernel (world st)) ∧
         trace (world st') =
           (if debug (self st)
            then EvDebug (MsgReleaseError ValueError) :: trace (world st)
            else trace (world st)).
Proof.
  destruct st as [[path tmo dbg lf] [k e tr m]]. cbn. intros ->.
  unfold __exit__, bind, gets, try_finally, try_except, close_attr, modify.
  cbn. destruct dbg; cbn.
  - unfold logging_debug. rewrite prim_run. cbn. eexists. done.
  - eexists. done.
Qed.

(** On an open file: whatever the unlock answers, the file is closed; the
    attribute is cleared unless [close] fails, in which case the error of
    [close] leaves [__exit__] and the attribute keeps the closed file. *)
Lemma exit_spec st fd :
  good (world st) → attached fd st →
  ∃ st',
    __exit__ st =
      (if k_close_eio (kernel (world st))
       then Raise (OSError EIO) else Ok tt, st') ∧
    self st' =
      set_lockfile
        (if k_close_eio (kernel (world st))
         then Some (File fd true) else None) (self st) ∧
    me (world st') = me (world st) ∧ good (world st') ∧
    k_open (kernel (world st')) !! fd = None ∧
    k_lock (kernel (world st')) !! lockfile_path (self st) ≠ Some fd.
Proof.
  destruct st as [[path tmo dbg lf] [k e tr m]].
  intros Hgood Hatt. pose proof Hatt as [Hlf _]. cbn in Hlf. subst lf.
  (* the [finally] block, from any state in which the file is still open *)
  assert (Hfin : ∀ k1 e1 tr1 (r : Res unit),
     r ≠ OutOfFuel →
     good (mkWorld k1 e1 tr1 m) →
     attached fd (mkSt (mk path tmo dbg (Some (File fd false)))
                    (mkWorld k1 e1 tr1 m)) →
     flags k1 = flags k →
     ∃ st',
       match r with
       | OutOfFuel => (OutOfFuel, mkSt (mk path tmo dbg (Some (File fd false)))
                                    (mkWorld k1 e1 tr1 m))
       | _ =>
         match bind (close_attr lockfile set_lockfile)
                 (fun _ => modify (set_lockfile None))
                 (mkSt (mk path tmo dbg (Some (File fd false)))
                    (mkWorld k1 e1 tr1 m)) with
         | (Ok _, st'') => (Ok tt, st'')
         | (Raise e0, st'') => (Raise e0, st'')
         | (OutOfFuel, st'') => (OutOfFuel, st'')
         end
       end = (if k_close_eio k then Raise (OSError EIO) else Ok tt, st') ∧
       self st' =
         mk path tmo dbg (if k_close_eio k then Some (File fd true) else None) ∧
       me (world st') = m ∧ good (world st') ∧
       k_open (kernel (world st')) !! fd = None ∧
       k_lock (kernel (world st')) !! path ≠ Some fd).
  { intros k1 e1 tr1 r Hr Hg1 Ha1 Hfl1.
    unfold close_attr, bind, gets, modify. cbn. rewrite prim_run. cbn.
    destruct (turn_state _ _ _ _ _ _ (EvClose fd :: tr1) Hg1 Ha1)
      as ([Hwf2 Hfs2] & [_ Ho2] & Hfl2 & _ & _).
    set (k2 := Env.run (hd [] e1) k1) in *. clearbody k2.
    set (e2 := tl e1) in *. clearbody e2. cbn in *.
    pose proof (sys_close_wf m fd k2 Hwf2) as Hwf3.
    rewrite (sys_close_own _ _ _ _ Ho2) in *. cbn in *.
    assert (k_close_eio k2 = k_close_eio k) as ->.
    { apply flags_close_eio. congruence. }
    assert (Hrel : release path fd (k_lock k2) !! path ≠ Some fd).
    { by destruct (release_not_held path fd (k_lock k2) path). }
    destruct r; [| |done]; destruct (k_close_eio k); cbn;
      eexists; (split; [reflexivity|]); cbn; split_and!; try done;
      apply lookup_delete_eq. }
  unfold __exit__. unfold bind at 1. unfold gets at 1. cbn.
  unfold try_finally, try_except. unfold bind at 1 2. unfold gets at 1. cbn.
  rewrite prim_run. cbn.
  destruct (turn_state _ _ _ _ _ _ (EvFlock fd LOCK_UN :: tr) Hgood Hatt)
    as ([Hwf1 Hfs1] & [_ Ho1] & Hfl1 & _ & _).
  set (k1 := Env.run (hd [] e) k) in *. clearbody k1.
  set (e1 := tl e) in *. clearbody e1. cbn in *.
  pose proof (sys_flock_wf m fd LOCK_UN k1 Hwf1) as Hwf1'.
  pose proof (sys_flock_open m fd LOCK_UN k1) as Hop1'.
  pose proof (sys_flock_flags m fd LOCK_UN k1) as Hfl1'.
  destruct (sys_flock m fd LOCK_UN k1) as [[err|] k1']; cbn in *.
  all: assert (Ha1 : attached fd (mkSt (mk path tmo dbg (Some (File fd false)))
        (mkWorld k1' e1 (EvFlock fd LOCK_UN :: tr) m)))
      by (split; cbn; [done|by rewrite Hop1']).
  all: assert (Hg1 : good (mkWorld k1' e1 (EvFlock fd LOCK_UN :: tr) m))
      by done.
  - destruct (debug_spec (MsgReleaseError (OSError err)) (mkSt _ _) _ Hg1 Ha1)
      as (st2 & Hrun2 & Hs2 & Hm2 & Hg2 & Ha2 & Hfl2 & _).
    cbn in Hrun2, Hs2, Hm2, Hfl2. rewrite Hrun2.
    destruct st2 as [s2 [k2 e2 tr2 m2]]. cbn in Hs2, Hm2, Hfl2. subst s2 m2.
    apply (Hfin k2 e2 tr2 (Ok tt)); [done|done|done|congruence].
  - destruct (debug_spec MsgReleased (mkSt _ _) _ Hg1 Ha1)
      as (st2 & Hrun2 & Hs2 & Hm2 & Hg2 & Ha2 & Hfl2 & _).
    cbn in Hrun2, Hs2, Hm2, Hfl2. rewrite Hrun2.
    destruct st2 as [s2 [k2 e2 tr2 m2]]. cbn in Hs2, Hm2, Hfl2. subst s2 m2.
    apply (Hfin k2 e2 tr2 (Ok tt)); [done|done|done|congruence].
Qed.

(** *** Acquisition behind another holder, and in a kernel short of lock
    records *)

(** Every duration is less than some number of tenths of a second. *)
Lemma tenths_unbounded (q : Q) :
  ∃ n : nat, (q < inject_Z (Z.of_nat n) * (1 # 10))%Q.
Proof.
  destruct q as [a b]. exists (Z.to_nat (10 * (Z.abs a + 1))).
  rewrite Z2Nat.id by lia. unfold Qlt, Qmult, inject_Z. cbn.
  pose proof (Pos2Z.is_pos b). nia.
Qed.

(** Behind another holder, with a [timeout] that is not true ([None], or
    zero), the acquisition polls for as long as it is given fuel. *)
Lemma enter_contended_polls fuel st o g :
  good (world st) → contended o g st →
  k_enolck (kernel (world st)) = false →
  match timeout (self st) with Some q => truthy q | None => false end = false →
  (∃ e st', fst (prelude st) = Raise (OSError e) ∧
            __enter__ fuel st = (Raise (OSError e), st') ∧ self st' = self st)
  ∨ (∃ fd st', __enter__ fuel st = (OutOfFuel, st') ∧ attached fd st').
Proof.
  intros Hgood Hcon Hen Htmo. rewrite enter_prelude. unfold bind.
  destruct (prelude_spec st Hgood)
    as (r & st1 & Hpre & Hm1 & Hg1 & Hf1 & [(fd & -> & Hs1 & Ha1 & Hc1)|(e & -> & Hs1)]);
    rewrite Hpre.
  - right. destruct (loop_contended_polls fuel (k_now (kernel (world st1)))
                       st1 o g fd) as (st' & Hrun & _ & Ha & _); try done.
    + by apply Hc1.
    + by rewrite (flags_enolck _ _ Hf1).
    + by rewrite Hs1.
    + by exists fd, st'.
  - left. by exists e, st1.
Qed.

(** Behind another holder, with a [timeout] that is true, the acquisition
    ends in [TimeoutError] carrying the timeout, with the file closed. *)
Lemma enter_contended_expires st o g q :
  good (world st) → contended o g st →
  k_enolck (kernel (world st)) = false →
  k_close_eio (kernel (world st)) = false →
  timeout (self st) = Some q → truthy q = true →
  (∃ e st', fst (prelude st) = Raise (OSError e) ∧
            ∀ fuel, __enter__ fuel st = (Raise (OSError e), st') ∧
                    self st' = self st)
  ∨ (∃ fuel fd st',
       __enter__ fuel st = (Raise (TimeoutError (Some q)), st') ∧
       self st' = set_lockfile (Some (File fd true)) (self st) ∧
       k_open (kernel (world st')) !! fd = None).
Proof.
  intros Hgood Hcon Hen Hce Htmo Htr.
  destruct (prelude_spec st Hgood)
    as (r & st1 & Hpre & Hm1 & Hg1 & Hf1 & [(fd & -> & Hs1 & Ha1 & Hc1)|(e & -> & Hs1)]).
  - right. destruct (tenths_unbounded q) as [n Hn].
    destruct (loop_contended_expires n (k_now (kernel (world st1))) st1 o g fd q)
      as (fuel & st' & _ & Hrun & Hs & Hcl & _); try done.
    + by apply Hc1.
    + by rewrite (flags_enolck _ _ Hf1).
    + by rewrite (flags_close_eio _ _ Hf1).
    + by rewrite Hs1.
    + lra.
    + exists fuel, fd, st'. rewrite enter_prelude. unfold bind. rewrite Hpre.
      split_and!; try done. rewrite Hs, Hs1. done.
  - left. exists e, st1. rewrite Hpre. split; [done|].
    intros fuel. rewrite enter_prelude. unfold bind. by rewrite Hpre.
Qed.

(** In a kernel with no lock record left, the error of the first request
    leaves [__enter__] with the file open and still in the attribute. *)
Lemma enter_enolck fuel st :
  good (world st) → k_enolck (kernel (world st)) = true →
  (∃ e st', fst (prelude st) = Raise (OSError e) ∧
            __enter__ (S fuel) st = (Raise (OSError e), st') ∧
            self st' = self st)
  ∨ (∃ fd st', __enter__ (S fuel) st = (Raise (OSError ENOLCK), st') ∧
               self st' = set_lockfile (Some (File fd false)) (self st) ∧
               attached fd st').
Proof.
  intros Hgood Hen. rewrite enter_prelude. unfold bind.
  destruct (prelude_spec st Hgood)
    as (r & st1 & Hpre & Hm1 & Hg1 & Hf1 & [(fd & -> & Hs1 & Ha1 & Hc1)|(e & -> & Hs1)]);
    rewrite Hpre.
  - right. destruct (loop_enolck fuel (k_now (kernel (world st1))) st1 fd)
      as (st' & Hrun & Hs & Ha); try done.
    + by rewrite (flags_enolck _ _ Hf1).
    + exists fd, st'. split_and!; try done. congruence.
  - left. by exists e, st1.
Qed.

(** *** A [timeout] that is not true never expires *)

(** One call keeps the handle as it is. *)
Lemma prim_self {A} e (f : nat → Kernel.t → Res A * Kernel.t) (st : St t) :
  self (snd (prim e f st)) = self st.
Proof. unfold prim. by destruct (f _ _). Qed.

Lemma attempt_falsy start st :
  match timeout (self st) with Some q => truthy q | None => false end = false →
  timeout (self (snd (attempt start st))) = timeout (self st) ∧
  ∀ t, fst (attempt start st) ≠ Raise (TimeoutError t).
Proof.
  destruct st as [[path tmo dbg lf] w]. cbn. intros Htmo.
  unfold attempt, try_except, try_lock, on_would_block, bind, gets. cbn.
  assert (Hsleep : ∀ st1 : St t,
    timeout (self st1) = tmo →
    timeout (self (snd (let (r, st2) := time_sleep (1 # 10) st1 in
       match r with
       | Ok _ => ret Continue st2
       | Raise e => (Raise e, st2)
       | OutOfFuel => (OutOfFuel, st2)
       end))) = tmo ∧
    ∀ t, fst (let (r, st2) := time_sleep (1 # 10) st1 in
       match r with
       | Ok _ => ret Continue st2
       | Raise e => (Raise e, st2)
       | OutOfFuel => (OutOfFuel, st2)
       end) ≠ Raise (TimeoutError t)).
  { intros [s1 [k1 e1 tr1 m1]] Hs1. unfold time_sleep. rewrite prim_run. cbn.
    done. }
  destruct lf as [[fd []]|]; cbn; try done.
  destruct w as [k e tr m]. rewrite prim_run. cbn.
  destruct (sys_flock _ _ _ _) as [[err|] k1]; cbn.
  - destruct err; cbn; try done.
    destruct tmo as [q|]; [rewrite Htmo|]; cbn; by apply Hsleep.
  - destruct dbg; cbn; [|done].
    unfold logging_debug. rewrite prim_run. cbn. done.
Qed.

Lemma loop_falsy fuel start st :
  match timeout (self st) with Some q => truthy q | None => false end = false →
  ∀ t, fst (while_true fuel (attempt start) st) ≠ Raise (TimeoutError t).
Proof.
  revert st. induction fuel as [|fuel IH]; intros st Htmo t; cbn; [done|].
  unfold bind. destruct (attempt_falsy start st Htmo) as [Hkeep Hno].
  destruct (attempt start st) as [[[]|e|] st1]; cbn in *; try done.
  - apply IH. by rewrite Hkeep.
  - intros [= ->]. by apply (Hno t).
Qed.

(** With [timeout] absent, or zero, [__enter__] never raises
    [TimeoutError], whatever the others do. *)
Lemma enter_falsy_never_times_out fuel st :
  match timeout (self st) with Some q => truthy q | None => false end = false →
  ∀ t, fst (__enter__ fuel st) ≠ Raise (TimeoutError t).
Proof.
  intros Htmo t. destruct st as [[path tmo dbg lf] [k e tr m]].
  unfold __enter__, bind, gets, os_makedirs, py_open, modify. cbn in *.
  rewrite !prim_run. cbn.
  destruct (makedirs _ _) as [[err|] k1]; cbn; [done|].
  destruct (sys_open _ _ _) as [[err|fd] k2]; cbn; [done|].
  destruct dbg; cbn.
  - unfold logging_debug, time_time. rewrite !prim_run. cbn.
    by apply loop_falsy.
  - unfold time_time. rewrite !prim_run. cbn. by apply loop_falsy.
Qed.

(** *** What the probe answers *)

(** The probe answers [True] exactly when a description other than the
    handle's holds the lock and the kernel has a lock record to spare. *)
Lemma probe_answer_true k who fd p :
  k_open k !! fd = Some (Ofd who p) →
  probe_answer k who fd = Ok true ↔
  k_enolck k = false ∧ ∃ g, g ≠ fd ∧ k_lock k !! p = Some g.
Proof.
  intros Ho. unfold probe_answer. rewrite sys_flock_ex, Ho. cbn.
  rewrite Nat.eqb_refl. cbn.
  destruct (k_enolck k); cbn; [split; [done|by intros [? _]]|].
  destruct (k_lock k !! p) as [g|] eqn:Hl; cbn.
  - destruct (Nat.eqb_spec g fd) as [->|Hne]; cbn.
    + split.
      * by destruct (k_unlock_eio k).
      * intros (_ & g & Hne & [= <-]). done.
    + split; [|done]. intros _. split; [done|]. by exists g.
  - split.
    + by destruct (k_unlock_eio k).
    + by intros (_ & g & _ & ?).
Qed.

(** It answers [False] exactly when the lock is free, or the handle's own,
    and neither the request nor the unlock fails. *)
Lemma probe_answer_false k who fd p :
  k_open k !! fd = Some (Ofd who p) →
  probe_answer k who fd = Ok false ↔
  k_enolck k = false ∧ k_unlock_eio k = false ∧
  (k_lock k !! p = None ∨ k_lock k !! p = Some fd).
Proof.
  intros Ho. unfold probe_answer. rewrite sys_flock_ex, Ho. cbn.
  rewrite Nat.eqb_refl. cbn.
  destruct (k_enolck k); cbn; [split; [done|by intros [? _]]|].
  destruct (k_lock k !! p) as [g|] eqn:Hl; cbn.
  - destruct (Nat.eqb_spec g fd) as [->|Hne]; cbn.
    + destruct (k_unlock_eio k); split; try done.
      * by intros (_ & ? & _).
      * intros _. split_and!; try done. by right.
    + split; [done|]. intros (_ & _ & [?|[= ?]]); done.
  - destruct (k_unlock_eio k); split; try done.
    + by intros (_ & ? & _).
    + intros _. split_and!; try done. by left.
Qed.

(** In every other case it is an error of the operating system. *)
Lemma probe_answer_cases k who fd :
  probe_answer k who fd = Ok true ∨ probe_answer k who fd = Ok false ∨
  ∃ e, probe_answer k who fd = Raise (OSError e).
Proof.
  unfold probe_answer.
  destruct (fst (sys_flock who fd (Z.lor LOCK_EX LOCK_NB) k)) as [[]|];
    try (right; right; by eexists).
  - by left.
  - destruct (k_unlock_eio k); [right; right; by eexists|right; by left].
Qed.

End FileLockFacts.

(* ===================================================================== *)
(** ** Mutual exclusion *)
(* ===================================================================== *)

Module Exclusion.
Import Kernel Py Notions KernelFacts.

Lemma holder_excludes k who p fd acts :
  wf k → k_enolck k = false → holds k who p fd →
  Forall (Env.foreign who) acts →
  excludes_others k who p fd acts.
Proof.
  intros Hwf Hen Hh Hacts.
  pose proof (run_holds _ _ _ _ _ Hwf Hacts Hh) as Hh'.
  split; [done|]. intros w fd' Hne Ho.
  eapply sys_flock_blocked; [done| |apply Hh'|].
  - by rewrite (FileLockFacts.flags_enolck _ _ (run_flags _ acts k Hacts)).
  - intros ->. destruct Hh' as [Ho' _]. congruence.
Qed.

End Exclusion.

(* ===================================================================== *)
(** ** Facts about [AsyncFileLock], through [FileLock] *)
(* ===================================================================== *)

Module AsyncFacts.
Import Kernel Py Notions Refinement.

Lemma aenter_run fuel st r st' :
  AsyncFileLock.__aenter__ fuel st = (r, st') →
  FileLock.__enter__ fuel (to_sync st) = (r, to_sync st').
Proof. intros H. rewrite <- aenter_refines. unfold to_sync_out. by rewrite H. Qed.

Lemma aexit_run st r st' :
  AsyncFileLock.__aexit__ st = (r, st') →
  FileLock.__exit__ (to_sync st) = (r, to_sync st').
Proof. intros H. rewrite <- aexit_refines. unfold to_sync_out. by rewrite H. Qed.

Lemma ais_locked_run st r st' :
  AsyncFileLock.is_locked st = (r, st') →
  FileLock.is_locked (to_sync st) = (r, to_sync st').
Proof.
  intros H. rewrite <- is_locked_refines. unfold to_sync_out. by rewrite H.
Qed.

Lemma aenter_fst fuel st :
  fst (AsyncFileLock.__aenter__ fuel st)
  = fst (FileLock.__enter__ fuel (to_sync st)).
Proof. by rewrite <- aenter_refines. Qed.

Lemma aenter_snd fuel st :
  to_sync (snd (AsyncFileLock.__aenter__ fuel st))
  = snd (FileLock.__enter__ fuel (to_sync st)).
Proof. by rewrite <- aenter_refines. Qed.

Lemma aexit_fst st :
  fst (AsyncFileLock.__aexit__ st) = fst (FileLock.__exit__ (to_sync st)).
Proof. by rewrite <- aexit_refines. Qed.

Lemma ais_locked_fst st :
  fst (AsyncFileLock.is_locked st) = fst (FileLock.is_locked (to_sync st)).
Proof. by rewrite <- is_locked_refines. Qed.

(** The other direction: what the synchronous method returns on the
    forgotten state is what the asynchronous one returns. *)
Lemma aenter_of_sync fuel st r sst' :
  FileLock.__enter__ fuel (to_sync st) = (r, sst') →
  ∃ st', AsyncFileLock.__aenter__ fuel st = (r, st') ∧ to_sync st' = sst'.
Proof.
  rewrite <- aenter_refines. unfold to_sync_out.
  destruct (AsyncFileLock.__aenter__ fuel st) as [r' st']. cbn.
  intros [= -> <-]. by exists st'.
Qed.

Lemma aexit_of_sync st r sst' :
  FileLock.__exit__ (to_sync st) = (r, sst') →
  ∃ st', AsyncFileLock.__aexit__ st = (r, st') ∧ to_sync st' = sst'.
Proof.
  rewrite <- aexit_refines. unfold to_sync_out.
  destruct (AsyncFileLock.__aexit__ st) as [r' st']. cbn.
  intros [= -> <-]. by exists st'.
Qed.

Lemma ais_locked_of_sync st r sst' :
  FileLock.is_locked (to_sync st) = (r, sst') →
  ∃ st', AsyncFileLock.is_locked st = (r, st') ∧ to_sync st' = sst'.
Proof.
  rewrite <- is_locked_refines. unfold to_sync_out.
  destruct (AsyncFileLock.is_locked st) as [r' st']. cbn.
  intros [= -> <-]. by exists st'.
Qed.

(** With [timeout] absent, or zero, [__aenter__] never raises
    [TimeoutError]. *)
Lemma aenter_falsy_never_times_out fuel st :
  match AsyncFileLock.timeout (self st) with
  | Some q => truthy q
  | None => false
  end = false →
  ∀ t, fst (AsyncFileLock.__aenter__ fuel st) ≠ Raise (TimeoutError t).
Proof.
  intros Htmo t. rewrite aenter_fst.
  by apply FileLockFacts.enter_falsy_never_times_out.
Qed.

(** Without a file object [__aexit__] does nothing, and releasing twice is
    releasing once. *)
Lemma aexit_no_file st :
  AsyncFileLock.lockfile (self st) = None →
  AsyncFileLock.__aexit__ st = (Ok tt, st).
Proof.
  intros H. unfold AsyncFileLock.__aexit__, bind, gets. cbn. by rewrite H.
Qed.

Lemma aexit_idempotent st st' :
  AsyncFileLock.__aexit__ st = (Ok tt, st') →
  AsyncFileLock.__aexit__ st' = (Ok tt, st').
Proof.
  intros H. apply aexit_no_file. apply aexit_run in H.
  by apply FileLockFacts.exit_clears in H.
Qed.

Lemma forget_lockfile s :
  FileLock.lockfile (forget s) = AsyncFileLock.lockfile s.
Proof. reflexivity. Qed.

Lemma forget_set_lockfile f s :
  forget (AsyncFileLock.set_lockfile f s) = FileLock.set_lockfile f (forget s).
Proof. reflexivity. Qed.

(** Nothing but the event loop is forgotten, and there is one event
    loop. *)
Lemma forget_inj s s' : forget s' = forget s → s' = s.
Proof.
  destruct s as [p t d l []], s' as [p' t' d' l' []]. unfold forget. cbn.
  by intros [= -> -> -> ->].
Qed.

Lemma forget_set s s' f :
  forget s' = FileLock.set_lockfile f (forget s) →
  s' = AsyncFileLock.set_lockfile f s.
Proof. intros H. apply forget_inj. by rewrite H. Qed.

End AsyncFacts.

(* ===================================================================== *)
(** ** The properties of the specification *)
(* ===================================================================== *)

Import Kernel Py Notions KernelFacts FileLockFacts Refinement AsyncFacts
  Exclusion Scenario.

(** *** Mutual exclusion *)

(** Exclusion while the holder makes no call.  In any world in order, for
    a synchronous handle [s] and an asynchronous handle [a]: once the
    acquisition of either has returned, the handle holds the kernel lock
    through the descriptor in its [lockfile] attribute, and for as long as
    it does nothing every non-blocking exclusive request of any other
    contender on that lock file fails with "would block", whatever the
    others do in between; and while another contender holds the lock and
    keeps it, the acquisition of either handle never returns. *)
Theorem mutual_exclusion (fuel : nat) (s : FileLock.t) (a : AsyncFileLock.t)
    (w : World) (acts : list Env.action) :
  good w → Forall (Env.foreign (me w)) acts →
  (∀ st', FileLock.__enter__ fuel (mkSt s w) = (Ok tt, st') →
     ∃ fd, FileLock.lockfile (self st') = Some (File fd false) ∧
           excludes_others (kernel (world st')) (me w)
             (FileLock.lockfile_path s) fd acts) ∧
  (∀ st', AsyncFileLock.__aenter__ fuel (mkSt a w) = (Ok tt, st') →
     ∃ fd, AsyncFileLock.lockfile (self st') = Some (File fd false) ∧
           excludes_others (kernel (world st')) (me w)
             (AsyncFileLock.lockfile_path a) fd acts) ∧
  (∀ o g, o ≠ me w → Env.foreign_script o (env w) →
     holds (kernel w) o (FileLock.lockfile_path s) g →
     ∀ st', FileLock.__enter__ fuel (mkSt s w) ≠ (Ok tt, st')) ∧
  (∀ o g, o ≠ me w → Env.foreign_script o (env w) →
     holds (kernel w) o (AsyncFileLock.lockfile_path a) g →
     ∀ st', AsyncFileLock.__aenter__ fuel (mkSt a w) ≠ (Ok tt, st')).
Proof.
  intros Hgood Hacts.
  assert (Hsync : ∀ (s0 : FileLock.t) w0 st',
    good w0 → Forall (Env.foreign (me w0)) acts →
    FileLock.__enter__ fuel (mkSt s0 w0) = (Ok tt, st') →
    ∃ fd, FileLock.lockfile (self st') = Some (File fd false) ∧
          excludes_others (kernel (world st')) (me w0)
            (FileLock.lockfile_path s0) fd acts).
  { intros s0 w0 st' Hg0 Ha0 Hrun.
    destruct (enter_acquires fuel (mkSt s0 w0) st' Hg0 Hrun)
      as (fd & Hs & Hm & [Hwf _] & Hen & Hh).
    exists fd. split; [by rewrite Hs|].
    apply holder_excludes; done. }
  split_and!.
  - intros st'. by apply Hsync.
  - intros st' Hrun. apply aenter_run in Hrun.
    destruct (Hsync (forget a) (to_sync_world w) (to_sync st') Hgood Hacts Hrun)
      as (fd & Hlf & Hex).
    by exists fd.
  - intros o g Hne Hfo Hh st'.
    by apply (enter_contended_never_acquires fuel (mkSt s w) o g).
  - intros o g Hne Hfo Hh st' Hrun. apply aenter_run in Hrun.
    by apply (enter_contended_never_acquires fuel (to_sync (mkSt a w)) o g)
      in Hrun.
Qed.

(** The world of contender 0 in a busy neighbourhood is in order. *)
Lemma busy_world_good : good (world_of k_boot busy).
Proof.
  split.
  - apply (bool_decide_unpack _). vm_compute. reflexivity.
  - repeat constructor; cbn; try lia; vm_compute; discriminate.
Qed.

(** Contender 0 acquires through a synchronous handle in the busy
    neighbourhood; afterwards contender 2 opens the lock file again and
    time passes; contender 0 still holds the lock, through descriptor 1,
    and a request of contender 2 would block. *)
Lemma mutual_exclusion_witness :
  excludes_others
    (kernel (world (snd (FileLock.__enter__ 5
       (mkSt (sync_handle None false) (world_of k_boot busy))))))
    0 path 1 [Env.Open 2 path; Env.Tick (1 # 2)].
Proof.
  destruct (mutual_exclusion 5 (sync_handle None false)
              (async_handle None false) (world_of k_boot busy)
              [Env.Open 2 path; Env.Tick (1 # 2)]) as (H & _).
  - exact busy_world_good.
  - repeat constructor; cbn; [lia|vm_compute; discriminate].
  - destruct (H (snd (FileLock.__enter__ 5
       (mkSt (sync_handle None false) (world_of k_boot busy)))))
      as (fd & Hlf & Hex).
    + vm_compute. reflexivity.
    + vm_compute in Hlf. injection Hlf as <-. exact Hex.
Defined.

(** C1.  The probe of a holder breaks the exclusion.  For a handle of
    either class that has acquired and not released (its [lockfile]
    attribute holds the open descriptor through which it holds the lock), on
    a machine in good health and under any script of the others:
    [is_locked] returns [False] and leaves the attribute and the descriptor
    as they were, so the handle is still inside its [with] block; yet from
    then on the non-blocking exclusive request of any other contender that
    has the lock file open does not fail with "would block": it succeeds,
    and that contender holds the lock. *)
Theorem probe_breaks_exclusion (s : FileLock.t) (a : AsyncFileLock.t)
    (w : World) (fd : nat) :
  good w →
  k_enolck (kernel w) = false → k_unlock_eio (kernel w) = false →
  (FileLock.lockfile s = Some (File fd false) →
   holds (kernel w) (me w) (FileLock.lockfile_path s) fd →
   ∃ st', FileLock.is_locked (mkSt s w) = (Ok false, st') ∧
     FileLock.lockfile (self st') = Some (File fd false) ∧
     k_open (kernel (world st')) !! fd
       = Some (Ofd (me w) (FileLock.lockfile_path s)) ∧
     ∀ o g, o ≠ me w →
       k_open (kernel (world st')) !! g
         = Some (Ofd o (FileLock.lockfile_path s)) →
       ∃ k', sys_flock o g (Z.lor LOCK_EX LOCK_NB) (kernel (world st'))
               = (None, k') ∧
             holds k' o (FileLock.lockfile_path s) g) ∧
  (AsyncFileLock.lockfile a = Some (File fd false) →
   holds (kernel w) (me w) (AsyncFileLock.lockfile_path a) fd →
   ∃ st', AsyncFileLock.is_locked (mkSt a w) = (Ok false, st') ∧
     AsyncFileLock.lockfile (self st') = Some (File fd false) ∧
     k_open (kernel (world st')) !! fd
       = Some (Ofd (me w) (AsyncFileLock.lockfile_path a)) ∧
     ∀ o g, o ≠ me w →
       k_open (kernel (world st')) !! g
         = Some (Ofd o (AsyncFileLock.lockfile_path a)) →
       ∃ k', sys_flock o g (Z.lor LOCK_EX LOCK_NB) (kernel (world st'))
               = (None, k') ∧
             holds k' o (AsyncFileLock.lockfile_path a) g).
Proof.
  intros Hgood Hen Hue.
  assert (Hsync : ∀ (s0 : FileLock.t) w0,
    good w0 → k_enolck (kernel w0) = false → k_unlock_eio (kernel w0) = false →
    FileLock.lockfile s0 = Some (File fd false) →
    holds (kernel w0) (me w0) (FileLock.lockfile_path s0) fd →
    ∃ st', FileLock.is_locked (mkSt s0 w0) = (Ok false, st') ∧
      FileLock.lockfile (self st') = Some (File fd false) ∧
      k_open (kernel (world st')) !! fd
        = Some (Ofd (me w0) (FileLock.lockfile_path s0)) ∧
      ∀ o g, o ≠ me w0 →
        k_open (kernel (world st')) !! g
          = Some (Ofd o (FileLock.lockfile_path s0)) →
        ∃ k', sys_flock o g (Z.lor LOCK_EX LOCK_NB) (kernel (world st'))
                = (None, k') ∧
              holds k' o (FileLock.lockfile_path s0) g).
  { intros s0 w0 Hg0 Hen0 Hue0 Hlf Hh.
    assert (Hatt : attached fd (mkSt s0 w0)) by (split; [done|apply Hh]).
    destruct (is_locked_holder (mkSt s0 w0) fd) as (st' & Hrun & Hs & Ha & Hl);
      try done.
    destruct (is_locked_holder_flags (mkSt s0 w0) fd) as (Hfl & Hm); try done.
    rewrite Hrun in Hfl, Hm. cbn in Hfl, Hm, Hs, Hl.
    exists st'. split_and!; try done.
    - by rewrite Hs.
    - destruct Ha as [_ Ho]. by rewrite Hs, Hm in Ho.
    - intros o g Hne Hog.
      eexists. split.
      + apply (sys_flock_free _ _ _ _ Hog); [|done].
        by rewrite (flags_enolck _ _ Hfl).
      + split; cbn; [done|apply lookup_insert_eq]. }
  split.
  - by apply Hsync.
  - intros Hlf Hh.
    destruct (Hsync (forget a) (to_sync_world w))
      as (sst' & Hrun & Hlf' & Ho & Hreq); try done.
    destruct (ais_locked_of_sync (mkSt a w) _ _ Hrun) as (st' & Hrun' & <-).
    by exists st'.
Qed.

(** C1 at the failing input: contender 2 has the lock file open
    (descriptor 0); contender 0 acquires through a synchronous handle
    (descriptor 1) and, inside its [with] block, probes.  The attribute
    still holds the open descriptor 1, and the request of contender 2 is
    granted. *)
Lemma probe_breaks_exclusion_witness :
  ∃ st', FileLock.is_locked (holding [[Env.Open 2 path]]) = (Ok false, st') ∧
    FileLock.lockfile (self st') = Some (File 1 false) ∧
    ∃ k', sys_flock 2 0 (Z.lor LOCK_EX LOCK_NB) (kernel (world st'))
            = (None, k') ∧
          holds k' 2 path 0.
Proof.
  destruct (probe_breaks_exclusion (self (holding [[Env.Open 2 path]]))
              (self (aholding [])) (world (holding [[Env.Open 2 path]])) 1)
    as ((st' & Hrun & Hlf & _ & Hreq) & _).
  - split; [apply (bool_decide_unpack _); vm_compute; reflexivity|].
    repeat constructor.
  - vm_compute. reflexivity.
  - vm_compute. reflexivity.
  - vm_compute. reflexivity.
  - split; vm_compute; reflexivity.
  - assert (E : mkSt (self (holding [[Env.Open 2 path]]))
                  (world (holding [[Env.Open 2 path]]))
                = holding [[Env.Open 2 path]]) by (vm_compute; reflexivity).
    assert (Hp : FileLock.lockfile_path (self (holding [[Env.Open 2 path]]))
                 = path) by (vm_compute; reflexivity).
    rewrite E in Hrun. rewrite Hp in Hreq.
    exists st'. split; [exact Hrun|split; [exact Hlf|]].
    apply (Hreq 2 0).
    + vm_compute. discriminate.
    + assert (st' = snd (FileLock.is_locked (holding [[Env.Open 2 path]])))
        as -> by (by rewrite Hrun).
      vm_compute. reflexivity.
Defined.

(** *** The two classes are one algorithm *)

(** C9.  [AsyncFileLock] does what [FileLock] does.  From any state, under
    any script of the others, [__aenter__] and [__aexit__] return or raise
    what [__enter__] and [__exit__] return or raise on the handle with the
    same attributes, leave the same kernel, the same script and the same
    attributes, and perform the same effects in the same order once the
    dispatches to the executor are forgotten and the cooperative sleep is
    read as a sleep (of the same 0.1 seconds). *)
Theorem async_is_sync (fuel : nat) (st : St AsyncFileLock.t) :
  to_sync_out (AsyncFileLock.__aenter__ fuel st)
    = FileLock.__enter__ fuel (to_sync st) ∧
  to_sync_out (AsyncFileLock.__aexit__ st) = FileLock.__exit__ (to_sync st).
Proof. split; [apply aenter_refines|apply aexit_refines]. Qed.

(** *** The probe *)

(** C10.  The probe of a holder gives the lock up.  For a handle of either
    class that holds the lock through the descriptor in its [lockfile]
    attribute, on a machine in good health, [is_locked] returns [False]:
    the request on the handle's own descriptor succeeds, the unlock that
    follows releases the lock; afterwards nobody holds the lock of the
    file, while the attribute still holds the open descriptor. *)
Theorem probe_releases_own_lock (s : FileLock.t) (a : AsyncFileLock.t)
    (w : World) (fd : nat) :
  good w →
  k_enolck (kernel w) = false → k_unlock_eio (kernel w) = false →
  (FileLock.lockfile s = Some (File fd false) →
   holds (kernel w) (me w) (FileLock.lockfile_path s) fd →
   ∃ st', FileLock.is_locked (mkSt s w) = (Ok false, st') ∧
          self st' = s ∧
          k_lock (kernel (world st')) !! FileLock.lockfile_path s = None ∧
          k_open (kernel (world st')) !! fd
            = Some (Ofd (me w) (FileLock.lockfile_path s))) ∧
  (AsyncFileLock.lockfile a = Some (File fd false) →
   holds (kernel w) (me w) (AsyncFileLock.lockfile_path a) fd →
   ∃ st', AsyncFileLock.is_locked (mkSt a w) = (Ok false, st') ∧
          self st' = a ∧
          k_lock (kernel (world st')) !! AsyncFileLock.lockfile_path a = None ∧
          k_open (kernel (world st')) !! fd
            = Some (Ofd (me w) (AsyncFileLock.lockfile_path a))).
Proof.
  intros Hgood Hen Hue.
  assert (Hsync : ∀ (s0 : FileLock.t) w0,
    good w0 → k_enolck (kernel w0) = false → k_unlock_eio (kernel w0) = false →
    FileLock.lockfile s0 = Some (File fd false) →
    holds (kernel w0) (me w0) (FileLock.lockfile_path s0) fd →
    ∃ st', FileLock.is_locked (mkSt s0 w0) = (Ok false, st') ∧
           self st' = s0 ∧
           k_lock (kernel (world st')) !! FileLock.lockfile_path s0 = None ∧
           k_open (kernel (world st')) !! fd
             = Some (Ofd (me w0) (FileLock.lockfile_path s0))).
  { intros s0 w0 Hg0 Hen0 Hue0 Hlf Hh.
    destruct (is_locked_spec (mkSt s0 w0) fd) as (st1 & _ & _ & Hm1 & _ & _);
      [done|split; [done|apply Hh]|].
    destruct (is_locked_holder (mkSt s0 w0) fd) as (st' & Hrun & Hs & Ha & Hl);
      try done. { split; [done|apply Hh]. }
    exists st'. split_and!; try done.
    destruct Ha as [_ Ho]. rewrite Hs in Ho. cbn in Ho.
    assert (me (world st') = me w0) as <-; [|done].
    destruct (is_locked_spec (mkSt s0 w0) fd) as (st2 & Hrun2 & _ & Hm2 & _);
      [done|split; [done|apply Hh]|].
    rewrite Hrun in Hrun2. by injection Hrun2 as _ <-. }
  split.
  - by apply Hsync.
  - intros Hlf Hh.
    destruct (Hsync (forget a) (to_sync_world w)) as (sst' & Hrun & Hs & Hl & Ho);
      try done.
    destruct (ais_locked_of_sync (mkSt a w) _ _ Hrun) as (st' & Hrun' & <-).
    exists st'. split_and!; try done. by apply forget_inj.
Qed.

(** C10 at work: contender 0 holds the lock on the healthy machine and
    probes; the probe answers [False] and the lock is free. *)
Lemma probe_releases_own_lock_witness :
  fst (FileLock.is_locked (holding [])) = Ok false ∧
  k_lock (kernel (world (snd (FileLock.is_locked (holding []))))) !! path
    = None.
Proof.
  destruct (probe_releases_own_lock (self (holding []))
              (self (aholding [])) (world (holding [])) 0) as ((st' & Hrun & _ & Hl & _) & _).
  - split; [apply (bool_decide_unpack _); vm_compute; reflexivity|constructor].
  - reflexivity.
  - reflexivity.
  - reflexivity.
  - split; reflexivity.
  - change (mkSt (self (holding [])) (world (holding []))) with (holding [])
      in Hrun.
    rewrite Hrun. split; [reflexivity|exact Hl].
Defined.

(** The probe raises when the operating system fails it: contender 0
    acquires on the healthy machine, the machine then runs out of lock
    records, and [is_locked] raises [OSError(ENOLCK)] in both classes. *)
Lemma probe_raises_on_os_error :
  fst (FileLock.is_locked (holding then_no_lock_records))
    = Raise (OSError ENOLCK) ∧
  fst (AsyncFileLock.is_locked (aholding then_no_lock_records))
    = Raise (OSError ENOLCK).
Proof. split; vm_compute; reflexivity. Qed.

(** C7, amended.  In a world in order, for a handle of either class: with
    an empty [lockfile] attribute [is_locked] returns [False] and does
    nothing; with an open descriptor in the attribute it returns [True]
    exactly when the non-blocking exclusive request would block, that is
    when a descriptor other than its own holds the lock, it returns
    [False] exactly when the lock is free or its own and both the request
    and the unlock succeed, and in every other case it raises the error of
    the operating system. *)
Theorem probe_answers (s : FileLock.t) (a : AsyncFileLock.t) (w : World) :
  good w →
  (FileLock.lockfile s = None →
     FileLock.is_locked (mkSt s w) = (Ok false, mkSt s w)) ∧
  (AsyncFileLock.lockfile a = None →
     AsyncFileLock.is_locked (mkSt a w) = (Ok false, mkSt a w)) ∧
  (∀ fd p,
     let k := Env.run (hd [] (env w)) (kernel w) in
     k_open (kernel w) !! fd = Some (Ofd (me w) p) →
     (FileLock.lockfile s = Some (File fd false) →
      FileLock.lockfile_path s = p →
      fst (FileLock.is_locked (mkSt s w)) = probe_answer k (me w) fd) ∧
     (AsyncFileLock.lockfile a = Some (File fd false) →
      AsyncFileLock.lockfile_path a = p →
      fst (AsyncFileLock.is_locked (mkSt a w)) = probe_answer k (me w) fd) ∧
     (probe_answer k (me w) fd = Ok true ↔
      k_enolck k = false ∧ ∃ g, g ≠ fd ∧ k_lock k !! p = Some g) ∧
     (probe_answer k (me w) fd = Ok false ↔
      k_enolck k = false ∧ k_unlock_eio k = false ∧
      (k_lock k !! p = None ∨ k_lock k !! p = Some fd)) ∧
     (probe_answer k (me w) fd = Ok true ∨
      probe_answer k (me w) fd = Ok false ∨
      ∃ e, probe_answer k (me w) fd = Raise (OSError e))).
Proof.
  intros Hgood. split_and!.
  - intros Hlf. by apply is_locked_no_file.
  - intros Hlf. unfold AsyncFileLock.is_locked, bind, gets. cbn.
    by rewrite Hlf.
  - intros fd p k Ho.
    assert (Ho1 : k_open k !! fd = Some (Ofd (me w) p)).
    { destruct Hgood as [Hwf Hfs].
      destruct (turn_facts _ _ _ Hwf Hfs) as (_ & _ & _ & _ & Hop & _).
      by apply Hop. }
    split_and!.
    + intros Hlf <-.
      destruct (is_locked_spec (mkSt s w) fd Hgood) as (st' & -> & _);
        [by split|done].
    + intros Hlf <-. rewrite ais_locked_fst.
      destruct (is_locked_spec (to_sync (mkSt a w)) fd Hgood) as (st' & -> & _);
        [by split|done].
    + by apply probe_answer_true.
    + by apply probe_answer_false.
    + apply probe_answer_cases.
Qed.

(** C7 at work: the probe of a holder on the healthy machine answers
    [False], as the lock is the handle's own. *)
Lemma probe_answers_witness :
  fst (FileLock.is_locked (holding [])) = Ok false.
Proof.
  destruct (probe_answers (self (holding [])) (self (aholding []))
              (world (holding []))) as (_ & _ & H).
  - split; [apply (bool_decide_unpack _); vm_compute; reflexivity|constructor].
  - destruct (H 0 path) as (Hs & _).
    + reflexivity.
    + change (mkSt (self (holding [])) (world (holding []))) with (holding [])
        in Hs.
      rewrite Hs; reflexivity.
Defined.

(** The probe answers [True] behind another holder: contender 0 has
    probed while holding, which released its lock; contender 2 then opens
    the file and takes the lock; the next probe of contender 0 would
    block. *)
Example probe_behind_other_holder :
  let st1 := snd (FileLock.is_locked (holding [])) in
  let w2 := mkWorld (kernel (world st1))
              [[Env.Open 2 path; Env.Flock 2 1 (Z.lor LOCK_EX LOCK_NB)]]
              (trace (world st1)) 0 in
  fst (FileLock.is_locked (mkSt (self st1) w2)) = Ok true.
Proof. vm_compute. reflexivity. Qed.

(** *** Where the code departs from the specification *)

(** C2.  A timeout of zero never expires.  Contender 1 holds the lock and
    keeps it; a handle of either class with [timeout=0] polls for as long
    as it is given fuel: [self.timeout and ...] is false for zero, so the
    clock is never compared with the timeout. *)
Theorem zero_timeout_polls_forever (fuel : nat) :
  fst (FileLock.__enter__ fuel
         (mkSt (sync_handle (Some 0%Q) false) (quiet k_held))) = OutOfFuel ∧
  fst (AsyncFileLock.__aenter__ fuel
         (mkSt (async_handle (Some 0%Q) false) (quiet k_held))) = OutOfFuel.
Proof.
  assert (Hsync : fst (FileLock.__enter__ fuel
         (mkSt (sync_handle (Some 0%Q) false) (quiet k_held))) = OutOfFuel).
  { destruct (enter_contended_polls fuel
                (mkSt (sync_handle (Some 0%Q) false) (quiet k_held)) 1 0)
      as [(e & st' & Hpre & _)|(fd & st' & -> & _)].
    - split; [apply (bool_decide_unpack _); vm_compute; reflexivity|constructor].
    - split_and!; [done|split; reflexivity|constructor].
    - reflexivity.
    - reflexivity.
    - vm_compute in Hpre. discriminate.
    - reflexivity. }
  split; [exact Hsync|]. rewrite aenter_fst. exact Hsync.
Qed.

(** C3.  An error of the lock request other than "would block" leaves the
    descriptor open.  The machine runs out of lock records just before the
    first request of contender 0: [__enter__] raises [OSError(ENOLCK)], in
    either class, while the file opened by the attempt is still open in
    the kernel and still in the [lockfile] attribute.  (On the timeout path
    the same method closes the file first, see [enter_contended_expires].) *)
Theorem lock_error_leaves_descriptor_open (fuel : nat) :
  let r := FileLock.__enter__ (S fuel)
             (mkSt (sync_handle None false)
                (world_of k_boot no_lock_records_at_lock)) in
  let r' := AsyncFileLock.__aenter__ (S fuel)
              (mkSt (async_handle None false)
                 (world_of k_boot no_lock_records_at_lock)) in
  (fst r = Raise (OSError ENOLCK) ∧
   FileLock.lockfile (self (snd r)) = Some (File 0 false) ∧
   k_open (kernel (world (snd r))) !! 0 = Some (Ofd 0 path)) ∧
  (fst r' = Raise (OSError ENOLCK) ∧
   AsyncFileLock.lockfile (self (snd r')) = Some (File 0 false) ∧
   k_open (kernel (world (snd r'))) !! 0 = Some (Ofd 0 path)).
Proof. vm_compute. done. Qed.

(** C4.  A timed-out handle keeps its file object.  Contender 1 holds the
    lock and keeps it; the acquisition of contender 0 with a timeout of 0.2
    seconds raises [TimeoutError] carrying 0.2; afterwards the handle holds
    no lock and no open descriptor, yet its [lockfile] attribute is not
    empty: it is the closed file.  ([__exit__] clears the attribute after
    closing, see [exit_spec]; the timeout path does not.) *)
Theorem timed_out_handle_keeps_file (fuel : nat) :
  let r := FileLock.__enter__ (4 + fuel)
             (mkSt (sync_handle (Some (1 # 5)) false) (quiet k_held)) in
  let r' := AsyncFileLock.__aenter__ (4 + fuel)
              (mkSt (async_handle (Some (1 # 5)) false) (quiet k_held)) in
  (fst r = Raise (TimeoutError (Some (1 # 5))) ∧
   FileLock.lockfile (self (snd r)) = Some (File 1 true) ∧
   k_open (kernel (world (snd r))) !! 1 = None ∧
   k_lock (kernel (world (snd r))) !! path = Some 0) ∧
  (fst r' = Raise (TimeoutError (Some (1 # 5))) ∧
   AsyncFileLock.lockfile (self (snd r')) = Some (File 1 true) ∧
   k_open (kernel (world (snd r'))) !! 1 = None ∧
   k_lock (kernel (world (snd r'))) !! path = Some 0).
Proof. vm_compute. done. Qed.

(** C5.  Releasing a handle that never acquired is not always a no-op.
    After an acquisition that timed out, [__exit__] returns normally but
    changes the handle: the attribute that held the closed file is
    cleared; with diagnostics on it also logs the [ValueError] of the
    unlock.  (Releasing with an empty attribute is a no-op, and releasing
    twice is releasing once: [exit_no_file], [exit_idempotent].) *)
Theorem release_after_timeout_changes_handle :
  (fst (FileLock.__exit__ timed_out) = Ok tt ∧
   FileLock.lockfile (self timed_out) = Some (File 1 true) ∧
   FileLock.lockfile (self (snd (FileLock.__exit__ timed_out))) = None) ∧
  (fst (AsyncFileLock.__aexit__ atimed_out) = Ok tt ∧
   AsyncFileLock.lockfile (self atimed_out) = Some (File 1 true) ∧
   AsyncFileLock.lockfile (self (snd (AsyncFileLock.__aexit__ atimed_out)))
     = None).
Proof. vm_compute. done. Qed.

(** C6.  A failure of [close] leaves [__exit__].  Contender 0 acquires on
    the healthy machine; the storage then starts failing on [close];
    [__exit__] raises [OSError(EIO)] in either class, and the attribute is
    not cleared: it keeps the closed file.  (A failure of the unlock is
    swallowed, see [exit_spec] and [unlock_failure_is_swallowed].) *)
Theorem close_failure_leaves_exit :
  (fst (FileLock.__exit__ (holding then_close_fails)) = Raise (OSError EIO) ∧
   FileLock.lockfile (self (snd (FileLock.__exit__ (holding then_close_fails))))
     = Some (File 0 true)) ∧
  (fst (AsyncFileLock.__aexit__ (aholding then_close_fails))
     = Raise (OSError EIO) ∧
   AsyncFileLock.lockfile
     (self (snd (AsyncFileLock.__aexit__ (aholding then_close_fails))))
     = Some (File 0 true)).
Proof. vm_compute. done. Qed.

(** The unlock failing does not leave [__exit__]: the file is closed, which
    releases the lock, and the attribute is cleared. *)
Example unlock_failure_is_swallowed :
  let r := FileLock.__exit__ (holding then_unlock_fails) in
  fst r = Ok tt ∧ FileLock.lockfile (self (snd r)) = None ∧
  k_lock (kernel (world (snd r))) !! path = None ∧
  k_open (kernel (world (snd r))) !! 0 = None.
Proof. vm_compute. done. Qed.

(** C8.  A bare file name cannot be locked.  When [os.path.dirname] of the
    path is empty, [os.makedirs] is called on the empty name and raises
    [FileNotFoundError] (an [OSError] with [ENOENT]), on every machine and
    in either class: the acquisition fails in its first step although the
    parent directory, the current one, exists. *)
Theorem bare_filename_fails (fuel : nat) (p : string) (tmo : option Q)
    (dbg : bool) (lf : option FileObj) (w : World) :
  posixpath.dirname p = "" →
  fst (FileLock.__enter__ fuel (mkSt (FileLock.mk p tmo dbg lf) w))
    = Raise (OSError ENOENT) ∧
  fst (AsyncFileLock.__aenter__ fuel
         (mkSt (AsyncFileLock.mk p tmo dbg lf AsyncFileLock.event_loop) w))
    = Raise (OSError ENOENT).
Proof.
  intros Hdir.
  assert (Hsync : ∀ w0,
    fst (FileLock.__enter__ fuel (mkSt (FileLock.mk p tmo dbg lf) w0))
    = Raise (OSError ENOENT)).
  { intros [k e tr m]. unfold FileLock.__enter__, bind, gets, os_makedirs.
    cbn. rewrite prim_run, Hdir, makedirs_empty. reflexivity. }
  split; [apply Hsync|]. rewrite aenter_fst. apply Hsync.
Qed.

(** C8 at work: ["app.lock"] has an empty [dirname]. *)
Lemma bare_filename_fails_witness :
  fst (FileLock.__enter__ 1
         (mkSt (FileLock.mk "app.lock" None false None) (quiet k_boot)))
    = Raise (OSError ENOENT).
Proof.
  apply (bare_filename_fails 1 "app.lock" None false None (quiet k_boot)).
  reflexivity.
Defined.

(** With a directory in the path the first step succeeds when the directory
    exists: the acquisition on ["/tmp/app.lock"] goes through. *)
Example path_with_directory_acquires :
  fst (FileLock.__enter__ 1 (mkSt (sync_handle None false) (quiet k_boot)))
    = Ok tt.
Proof. vm_compute. reflexivity. Qed.

(* ===================================================================== *)
(** ** Further properties of the code *)
(* ===================================================================== *)

Import Invariants Conditions Handover Usage Traces.

(** *** Invariants of programs *)

Module InvariantFacts.
Import Py.

Section Rules.
Context {S : Type}.
Implicit Types (J : St S → Prop).

Lemma keeps_ret {A} (a : A) J : keeps J (ret a).
Proof. by intros st. Qed.

Lemma keeps_raise {A} e J : keeps J (raise (A:=A) e).
Proof. by intros st. Qed.

Lemma keeps_gets {A} (g : S → A) J : keeps J (gets g).
Proof. by intros st. Qed.

Lemma keeps_bind {A B} J (m : M S A) (f : A → M S B) :
  keeps J m → (∀ a, keeps J (f a)) → keeps J (bind m f).
Proof.
  intros Hm Hf st HJ. unfold bind. specialize (Hm st HJ).
  destruct (m st) as [[a|e|] st']; cbn in *; [by apply Hf|done|done].
Qed.

Lemma keeps_when J b (m : M S unit) : keeps J m → keeps J (when b m).
Proof. intros H. destruct b; [done|apply keeps_ret]. Qed.

Lemma keeps_try_except {A} J (m : M S A) (handles : Exn → bool) h :
  keeps J m → (∀ e, keeps J (h e)) → keeps J (try_except m handles h).
Proof.
  intros Hm Hh st HJ. unfold try_except. specialize (Hm st HJ).
  destruct (m st) as [[a|e|] st']; cbn in *; [done| |done].
  destruct (handles e); [by apply Hh|done].
Qed.

Lemma keeps_try_finally {A} J (m : M S A) c :
  keeps J m → keeps J c → keeps J (try_finally m c).
Proof.
  intros Hm Hc st HJ. unfold try_finally. specialize (Hm st HJ).
  destruct (m st) as [[a|e|] st']; cbn in *; [| |done].
  - specialize (Hc st' Hm). by destruct (c st') as [[?|?|] ?].
  - specialize (Hc st' Hm). by destruct (c st') as [[?|?|] ?].
Qed.

Lemma keeps_while fuel J (body : M S LoopCtl) :
  keeps J body → keeps J (while_true fuel body).
Proof.
  intros Hb. induction fuel as [|fuel IH]; [by intros st|].
  cbn. apply keeps_bind; [done|]. intros []; [apply keeps_ret|done].
Qed.

Lemma keeps_run_in_executor {A} J (m : M S A) :
  (∀ st, J st → J (mkSt (self st) (emit EvExecutor (world st)))) →
  keeps J m → keeps J (run_in_executor m).
Proof. intros HJ Hm st Hst. unfold run_in_executor. by apply Hm, HJ. Qed.

Lemma keeps_prim {A} e (f : nat → Kernel.t → Res A * Kernel.t) J :
  (∀ s k env tr m, J (mkSt s (mkWorld k env tr m)) →
     J (mkSt s (mkWorld (snd (f m (Env.run (hd [] env) k))) (tl env)
                  (e :: tr) m))) →
  keeps J (prim e f).
Proof.
  intros H [s [k env tr m]] HJ. rewrite prim_run. cbn. by apply H.
Qed.

End Rules.

End InvariantFacts.
Import InvariantFacts.

(** *** Properties that every call of a handle keeps *)

Module FrameFacts.

Lemma snd_lift_errno r : snd (lift_errno r) = snd r.
Proof. by destruct r as [[e|] k]. Qed.

Lemma snd_open_step m path k :
  snd (let (s, k') := sys_open m path k in
       match s with
       | inl e => (Raise (OSError e), k')
       | inr fd => (Ok (File fd false), k')
       end) = Env.step k (Env.Open m path).
Proof. cbn. by destruct (sys_open m path k) as [[?|?] ?]. Qed.

(** *** What the calls of a handle keep *)

Section Calls.
Context {S : Type}.
Variable I : nat → Kernel.t → Env.script → Prop.
Hypothesis I_turn : ∀ m k s, I m k s → I m (Env.run (hd [] s) k) (tl s).

Lemma frame_prim {A} e (f : nat → Kernel.t → Res A * Kernel.t) :
  (∀ m k s, I m k s → I m (snd (f m k)) s) →
  keeps (framed (S:=S) I) (prim e f).
Proof using I_turn.
  intros Hf. apply keeps_prim. intros s k env tr m HI. unfold framed in *.
  cbn in *. by apply Hf, I_turn.
Qed.

Lemma frame_modify (f : S → S) : keeps (framed I) (modify f).
Proof. by intros st. Qed.

Lemma frame_executor {A} (m : M S A) :
  keeps (framed I) m → keeps (framed I) (run_in_executor m).
Proof. apply keeps_run_in_executor. by intros st. Qed.

Lemma frame_time : keeps (framed (S:=S) I) time_time.
Proof using I_turn. by apply frame_prim. Qed.

Lemma frame_debug msg : keeps (framed (S:=S) I) (logging_debug msg).
Proof using I_turn. by apply frame_prim. Qed.

Lemma frame_makedirs name :
  (∀ m k s, I m k s → I m (snd (makedirs name k)) s) →
  keeps (framed (S:=S) I) (os_makedirs name).
Proof using I_turn.
  intros H. apply frame_prim. intros m k s HI. rewrite snd_lift_errno.
  by apply H.
Qed.

Lemma frame_open path :
  (∀ m k s, I m k s → I m (Env.step k (Env.Open m path)) s) →
  keeps (framed (S:=S) I) (py_open path).
Proof using I_turn.
  intros H. apply frame_prim. intros m k s HI. rewrite snd_open_step.
  by apply H.
Qed.

Lemma frame_flock f op :
  (∀ m k s fd, I m k s → I m (Env.step k (Env.Flock m fd op)) s) →
  keeps (framed (S:=S) I) (fcntl_flock f op).
Proof using I_turn.
  intros H. destruct f as [[fd [|]]|]; cbn; try apply keeps_raise.
  apply frame_prim. intros m k s HI. rewrite snd_lift_errno.
  by apply (H m k s fd).
Qed.

Lemma frame_close (get : S → option FileObj) set :
  (∀ m k s fd, I m k s → I m (Env.step k (Env.Close m fd)) s) →
  keeps (framed I) (close_attr get set).
Proof using I_turn.
  intros H. unfold close_attr. apply keeps_bind; [apply keeps_gets|].
  intros [[fd [|]]|]; cbn; [apply keeps_ret| |apply keeps_raise].
  apply keeps_bind; [apply frame_modify|]. intros _.
  apply frame_prim. intros m k s HI. rewrite snd_lift_errno.
  by apply (H m k s fd).
Qed.

Lemma frame_sleep d :
  (∀ m k s, I m k s → I m (Env.step k (Env.Tick d)) s) →
  keeps (framed (S:=S) I) (time_sleep d).
Proof using I_turn. intros H. apply frame_prim. intros m k s HI. by apply H. Qed.

Lemma frame_asleep d :
  (∀ m k s, I m k s → I m (Env.step k (Env.Tick d)) s) →
  keeps (framed (S:=S) I) (asyncio_sleep d).
Proof using I_turn. intros H. apply frame_prim. intros m k s HI. by apply H. Qed.

End Calls.

#[local] Ltac frame_step :=
  first
    [ apply keeps_ret | apply keeps_raise | apply keeps_gets
    | apply frame_modify | apply frame_time | apply frame_debug
    | apply frame_makedirs | apply frame_open
    | apply frame_flock | apply frame_close
    | apply frame_sleep | apply frame_asleep
    | apply frame_executor
    | apply keeps_when | apply keeps_try_except | apply keeps_try_finally
    | apply keeps_while | apply keeps_bind
    | match goal with
      | |- ∀ _, keeps _ _ => intros ?
      | |- keeps _ (match ?x with _ => _ end) => destruct x
      end
    | assumption ].

(** *** What the first steps of an acquisition keep *)

Section Prelude.
Variable I : nat → Kernel.t → Env.script → Prop.
Hypothesis I_turn : ∀ m k s, I m k s → I m (Env.run (hd [] s) k) (tl s).
Hypothesis I_makedirs : ∀ m k s name, I m k s → I m (snd (makedirs name k)) s.
Hypothesis I_open : ∀ m k s p, I m k s → I m (Env.step k (Env.Open m p)) s.

Lemma frame_prelude : keeps (framed I) prelude.
Proof using All.
  unfold prelude. repeat frame_step; intros; by auto.
Qed.

End Prelude.

(** *** What every method keeps *)

Section Methods.
Variable I : nat → Kernel.t → Env.script → Prop.
Hypothesis I_turn : ∀ m k s, I m k s → I m (Env.run (hd [] s) k) (tl s).
Hypothesis I_makedirs : ∀ m k s name, I m k s → I m (snd (makedirs name k)) s.
Hypothesis I_own : ∀ m k s a, own m a → I m k s → I m (Env.step k a) s.

#[local] Ltac own_call := intros; apply I_own; [by cbn|assumption].

Lemma frame_enter fuel : keeps (framed I) (FileLock.__enter__ fuel).
Proof using All.
  unfold FileLock.__enter__, FileLock.attempt, FileLock.try_lock,
    FileLock.on_would_block. repeat frame_step; try own_call; intros; by auto.
Qed.

Lemma frame_exit : keeps (framed I) FileLock.__exit__.
Proof using All.
  unfold FileLock.__exit__. repeat frame_step; try own_call; intros; by auto.
Qed.

Lemma frame_is_locked : keeps (framed I) FileLock.is_locked.
Proof using All.
  unfold FileLock.is_locked. repeat frame_step; try own_call; intros; by auto.
Qed.

Lemma frame_aenter fuel : keeps (framed I) (AsyncFileLock.__aenter__ fuel).
Proof using All.
  unfold AsyncFileLock.__aenter__, AsyncFileLock.attempt,
    AsyncFileLock.try_lock, AsyncFileLock.on_would_block.
  repeat frame_step; try own_call; intros; by auto.
Qed.

Lemma frame_aexit : keeps (framed I) AsyncFileLock.__aexit__.
Proof using All.
  unfold AsyncFileLock.__aexit__.
  repeat frame_step; try own_call; intros; by auto.
Qed.

Lemma frame_ais_locked : keeps (framed I) AsyncFileLock.is_locked.
Proof using All.
  unfold AsyncFileLock.is_locked.
  repeat frame_step; try own_call; intros; by auto.
Qed.

End Methods.

End FrameFacts.
Import FrameFacts.

(** *** Two properties kept by every method *)

Module ConditionFacts.

(** A call of the handle is, for anyone else, the action of another. *)
Lemma own_foreign m o a : o ≠ m → own m a → Env.foreign o a.
Proof. destruct a; cbn; try congruence; try done. intros _ ->. done. Qed.

Lemma now_core k k' : core k' = core k → k_now k' = k_now k.
Proof. unfold core. congruence. Qed.

Lemma own_flags m k a : own m a → flags (Env.step k a) = flags k.
Proof.
  destruct a as [d|q|w q|w fd op|w fd|f on]; cbn; try done.
  - intros _. destruct (sys_open w q k) as [[e|fd] k'] eqn:Ho; cbn.
    + by rewrite (sys_open_err _ _ _ _ _ Ho).
    + by destruct (sys_open_ok _ _ _ _ _ Ho) as (_ & _ & _ & _ & _ & ?).
  - intros _. apply sys_flock_flags.
  - intros _. apply sys_close_flags.
Qed.

Lemma own_now m k a : own m a → (k_now k <= k_now (Env.step k a))%Q.
Proof.
  destruct a as [d|q|w q|w fd op|w fd|f on]; cbn; try done.
  - intros ->. lra.
  - intros _. destruct (sys_open w q k) as [[e|fd] k'] eqn:Ho; cbn.
    + rewrite (sys_open_err _ _ _ _ _ Ho). lra.
    + destruct (sys_open_ok _ _ _ _ _ Ho) as (_ & _ & _ & _ & -> & _). lra.
  - intros _. rewrite sys_flock_now. lra.
  - intros _. rewrite sys_close_now. lra.
Qed.

Lemma bystander_turn o g p m k s :
  bystander_at o g p m k s → bystander_at o g p m (Env.run (hd [] s) k) (tl s).
Proof.
  intros (Hwf & Hne & HE & Hh).
  split_and!; [by apply run_wf|done|by apply foreign_tl|].
  apply run_holds; [done|by apply foreign_hd|done].
Qed.

Lemma bystander_makedirs o g p m k s name :
  bystander_at o g p m k s → bystander_at o g p m (snd (makedirs name k)) s.
Proof.
  intros (Hwf & Hne & HE & Hh). pose proof (makedirs_core name k).
  split_and!; [by eapply wf_core|done|done|by eapply holds_core].
Qed.

Lemma bystander_own o g p m k s a :
  own m a → bystander_at o g p m k s → bystander_at o g p m (Env.step k a) s.
Proof.
  intros Ho (Hwf & Hne & HE & Hh).
  split_and!; [by apply step_wf|done|done|].
  apply step_holds; [done|by eapply own_foreign|done].
Qed.

Lemma sound_turn fl t0 m k s :
  sound_at fl t0 m k s → sound_at fl t0 m (Env.run (hd [] s) k) (tl s).
Proof.
  intros ((Hwf & HE) & Hfl & Hnow).
  destruct (turn_facts _ _ _ Hwf HE) as (? & ? & ? & ? & _).
  split_and!; [done|done|congruence|lra].
Qed.

Lemma sound_makedirs fl t0 m k s name :
  sound_at fl t0 m k s → sound_at fl t0 m (snd (makedirs name k)) s.
Proof.
  intros ((Hwf & HE) & Hfl & Hnow). pose proof (makedirs_core name k) as Hc.
  split_and!; [by eapply wf_core|done|by rewrite (flags_core _ _ Hc)|].
  by rewrite (now_core _ _ Hc).
Qed.

Lemma sound_own fl t0 m k s a :
  own m a → sound_at fl t0 m k s → sound_at fl t0 m (Env.step k a) s.
Proof.
  intros Ho ((Hwf & HE) & Hfl & Hnow).
  split_and!; [by apply step_wf|done|by rewrite (own_flags m)|].
  pose proof (own_now m k a Ho). lra.
Qed.

(** Whatever a method does and however it ends, a lock held by a
    contender that stays put is still held afterwards. *)
Lemma bystander_kept o g p :
  (∀ fuel, keeps (λ st, bystander o g p (world st)) (FileLock.__enter__ fuel)) ∧
  keeps (λ st, bystander o g p (world st)) FileLock.__exit__ ∧
  keeps (λ st, bystander o g p (world st)) FileLock.is_locked ∧
  (∀ fuel, keeps (λ st, bystander o g p (world st))
             (AsyncFileLock.__aenter__ fuel)) ∧
  keeps (λ st, bystander o g p (world st)) AsyncFileLock.__aexit__ ∧
  keeps (λ st, bystander o g p (world st)) AsyncFileLock.is_locked.
Proof.
  pose proof (bystander_turn o g p) as H1.
  pose proof (bystander_makedirs o g p) as H2.
  pose proof (bystander_own o g p) as H3.
  split_and!; [intros fuel| | |intros fuel| |].
  - exact (frame_enter _ H1 H2 H3 fuel).
  - exact (frame_exit _ H1 H2 H3).
  - exact (frame_is_locked _ H1 H2 H3).
  - exact (frame_aenter _ H1 H2 H3 fuel).
  - exact (frame_aexit _ H1 H2 H3).
  - exact (frame_ais_locked _ H1 H2 H3).
Qed.

Lemma sound_kept fl t0 :
  (∀ fuel, keeps (λ st, sound fl t0 (world st)) (FileLock.__enter__ fuel)) ∧
  keeps (λ st, sound fl t0 (world st)) FileLock.__exit__ ∧
  keeps (λ st, sound fl t0 (world st)) FileLock.is_locked ∧
  (∀ fuel, keeps (λ st, sound fl t0 (world st))
             (AsyncFileLock.__aenter__ fuel)) ∧
  keeps (λ st, sound fl t0 (world st)) AsyncFileLock.__aexit__ ∧
  keeps (λ st, sound fl t0 (world st)) AsyncFileLock.is_locked.
Proof.
  pose proof (sound_turn fl t0) as H1.
  pose proof (sound_makedirs fl t0) as H2.
  pose proof (sound_own fl t0) as H3.
  split_and!; [intros fuel| | |intros fuel| |].
  - exact (frame_enter _ H1 H2 H3 fuel).
  - exact (frame_exit _ H1 H2 H3).
  - exact (frame_is_locked _ H1 H2 H3).
  - exact (frame_aenter _ H1 H2 H3 fuel).
  - exact (frame_aexit _ H1 H2 H3).
  - exact (frame_ais_locked _ H1 H2 H3).
Qed.

Lemma sound_prelude fl t0 : keeps (λ st, sound fl t0 (world st)) prelude.
Proof.
  apply (frame_prelude _ (sound_turn fl t0) (sound_makedirs fl t0)).
  intros m k s p. apply sound_own. done.
Qed.

(** What [__enter__] keeps of the health of the machine and of the clock. *)
Lemma enter_sound fuel st :
  good (world st) →
  good (world (snd (FileLock.__enter__ fuel st))) ∧
  flags (kernel (world (snd (FileLock.__enter__ fuel st))))
    = flags (kernel (world st)) ∧
  (k_now (kernel (world st))
     <= k_now (kernel (world (snd (FileLock.__enter__ fuel st)))))%Q.
Proof.
  intros Hg.
  destruct (sound_kept (flags (kernel (world st))) (k_now (kernel (world st))))
    as (He & _).
  destruct (He fuel st) as (? & ? & ?); [|done].
  split_and!; [done|done|lra].
Qed.

End ConditionFacts.
Import ConditionFacts.

(** *** The calls before the loop *)

Module OpeningFacts.
Import FileLock.

(** An acquisition fails before its loop exactly when [os.makedirs] or
    [open] fails, with the error of that call; otherwise it reaches the
    loop. *)
Lemma opening_cases st :
  match opening_error (lockfile_path (self st)) (world st) with
  | Some e => ∀ n, fst (__enter__ n st) = Raise (OSError e)
  | None => fst (__enter__ 0 st) = OutOfFuel
  end.
Proof.
  destruct st as [[path tmo dbg lf] [k e tr m]].
  unfold opening_error. cbn.
  destruct (makedirs (posixpath.dirname path) (Env.run (hd [] e) k))
    as [[err|] k1] eqn:Emk.
  - intros n. unfold __enter__, bind, gets. cbn. unfold os_makedirs.
    rewrite prim_run. cbn. by rewrite Emk.
  - destruct (sys_open m path (Env.run (hd [] (tl e)) k1))
      as [[err|fd] k2] eqn:Eop.
    + intros n. unfold __enter__, bind, gets. cbn. unfold os_makedirs.
      rewrite prim_run. cbn. rewrite Emk. cbn. unfold py_open.
      rewrite prim_run. cbn. by rewrite Eop.
    + unfold __enter__, bind, gets. cbn. unfold os_makedirs.
      rewrite prim_run. cbn. rewrite Emk. cbn. unfold py_open.
      rewrite prim_run. cbn. rewrite Eop. cbn.
      destruct dbg; cbn; unfold logging_debug, time_time;
        repeat (rewrite prim_run; cbn); done.
Qed.

(** An error raised with any fuel, none included, is the one of the calls
    before the loop. *)
Lemma opening_decides st (P : Prop) :
  (∃ e, ∀ n, fst (__enter__ n st) = Raise (OSError e)) ∨ P →
  match opening_error (lockfile_path (self st)) (world st) with
  | Some e => ∀ n, fst (__enter__ n st) = Raise (OSError e)
  | None => P
  end.
Proof.
  intros H. pose proof (opening_cases st) as Hc.
  destruct (opening_error _ _) as [e|]; [done|].
  destruct H as [(e & He)|HP]; [|done].
  specialize (He 0%nat). rewrite Hc in He. discriminate.
Qed.

(** The calls before the loop are those of the synchronous class. *)
Lemma opening_error_async p w :
  opening_error p (to_sync_world w) = opening_error p w.
Proof. reflexivity. Qed.

End OpeningFacts.
Import OpeningFacts.

(** *** Timeouts *)

Module TimeoutFacts.
Import FileLock.

(** When the loop ends in [TimeoutError], the error carries the timeout of
    the handle, which is true, and the clock has passed the start time by
    more than it. *)
Lemma loop_timeout fuel start st fd t st' :
  good (world st) → attached fd st →
  while_true fuel (attempt start) st = (Raise (TimeoutError t), st') →
  ∃ q, t = Some q ∧ timeout (self st) = Some q ∧ truthy q = true ∧
       (q < k_now (kernel (world st')) - start)%Q.
Proof.
  revert st. induction fuel as [|fuel IH]; intros st Hgood Hatt; cbn.
  { discriminate. }
  unfold bind.
  destruct (attempt_spec start st fd Hgood Hatt)
    as (r & st1 & -> & Hm1 & Hg1 & Hf1 & Hn1 & Hc1 & Hcases).
  destruct Hcases as [(-> & _)|[(-> & Hen & Hs1 & Ha1 & _)|
    [(-> & _)|(q & _ & Htmo & Htr & -> & _ & _ & Hq)]]].
  - discriminate.
  - intros Hrun. destruct (IH st1 Hg1 Ha1 Hrun) as (q & ? & ? & ? & ?).
    exists q. split_and!; try done; congruence.
  - discriminate.
  - destruct (k_close_eio _); [discriminate|]. intros [= <- <-].
    exists q. done.
Qed.

Lemma enter_timeout fuel st t st' :
  good (world st) →
  __enter__ fuel st = (Raise (TimeoutError t), st') →
  ∃ q, t = Some q ∧ timeout (self st) = Some q ∧ truthy q = true ∧
       (q < k_now (kernel (world st')) - k_now (kernel (world st)))%Q.
Proof.
  intros Hgood. rewrite enter_prelude. unfold bind.
  pose proof (sound_prelude (flags (kernel (world st)))
                (k_now (kernel (world st))) st) as Hsound.
  destruct (prelude_spec st Hgood)
    as (r & st1 & Hrun & Hm1 & Hg1 & Hf1 & [(fd & -> & Hs1 & Ha1 & _)|(e & -> & _)]);
    rewrite Hrun in *; cbn in Hsound; [|discriminate].
  destruct Hsound as (_ & _ & Hnow); [split_and!; [done|done|lra]|].
  intros Hloop.
  destruct (loop_timeout _ _ _ _ _ _ Hg1 Ha1 Hloop) as (q & ? & Htmo & ? & ?).
  exists q. split_and!; try done.
  - by rewrite Hs1 in Htmo.
  - lra.
Qed.

End TimeoutFacts.
Import TimeoutFacts.

Module NegativeFacts.
Import FileLock.

Lemma negative_truthy q : (q < 0)%Q → truthy q = true.
Proof.
  intros Hq. unfold truthy. apply negb_true_iff.
  destruct (Qeq_bool q 0) eqn:E; [|done].
  apply Qeq_bool_iff in E. lra.
Qed.

Lemma enter_negative fuel st o g q :
  good (world st) → contended o g st →
  k_enolck (kernel (world st)) = false →
  k_close_eio (kernel (world st)) = false →
  timeout (self st) = Some q → (q < 0)%Q →
  (∃ e, ∀ n, fst (__enter__ n st) = Raise (OSError e)) ∨
  fst (__enter__ (S fuel) st) = Raise (TimeoutError (Some q)).
Proof.
  intros Hgood Hc Hen Hce Htmo Hq.
  destruct (prelude_spec st Hgood)
    as (r & st1 & Hrun & Hm1 & Hg1 & Hf1 & [(fd & -> & Hs1 & Ha1 & Hc1)|(e & -> & _)]).
  2: { left. exists e. intros n. rewrite enter_prelude. unfold bind.
       by rewrite Hrun. }
  right. rewrite enter_prelude. unfold bind. rewrite Hrun. cbn. unfold bind.
  destruct (attempt_spec (k_now (kernel (world st1))) st1 fd Hg1 Ha1)
    as (r & st2 & -> & Hm2 & Hg2 & Hf2 & Hn2 & Hc2 & Hcases).
  assert (Htmo1 : timeout (self st1) = Some q) by by rewrite Hs1.
  destruct Hcases as [(-> & _ & Hs2 & _ & Hh)|[(-> & _ & _ & _ & _ & Hle)|
    [(-> & Hen1 & _)|(q' & _ & Htmo' & _ & -> & _)]]].
  - exfalso. apply (contended_not_held o g st2 fd); [by apply Hc2, Hc1|].
    by rewrite Hm2, Hs2.
  - specialize (Hle q Htmo1 (negative_truthy q Hq)). lra.
  - rewrite (flags_enolck _ _ Hf1) in Hen1. congruence.
  - rewrite (flags_close_eio _ _ Hf1), Hce. cbn. congruence.
Qed.

End NegativeFacts.
Import NegativeFacts.

(** *** Paths that cannot be opened, and handles used again *)

Module EdgeFacts.
Import FileLock.

Lemma ends_with_sep_nonempty p :
  ends_with_sep p = true → posixpath.is_empty p = false.
Proof. by destruct p. Qed.

Lemma sys_open_trailing who p k :
  ends_with_sep p = true → sys_open who p k = (inl EISDIR, k).
Proof.
  intros H. unfold sys_open. rewrite (ends_with_sep_nonempty p H), H.
  by rewrite orb_true_r.
Qed.

Lemma enter_trailing fuel st :
  ends_with_sep (lockfile_path (self st)) = true →
  ∃ e st', __enter__ fuel st = (Raise (OSError e), st') ∧ self st' = self st.
Proof.
  destruct st as [[p tmo dbg lf] [k env tr m]]. cbn. intros Hp.
  unfold __enter__, bind, gets. cbn. unfold os_makedirs. rewrite prim_run.
  destruct (makedirs _ _) as [[e|] k1]; cbn.
  { by eexists _, _. }
  unfold py_open. rewrite prim_run. rewrite sys_open_trailing by done. cbn.
  by eexists _, _.
Qed.

End EdgeFacts.
Import EdgeFacts.

Module ReenterFacts.
Import FileLock.

(** [__enter__] overwrites the [lockfile] attribute before it reads it. *)
Lemma enter_overwrites fuel p tmo dbg lf lf' w :
  let r := __enter__ fuel (mkSt (mk p tmo dbg lf) w) in
  let r' := __enter__ fuel (mkSt (mk p tmo dbg lf') w) in
  fst r = fst r' ∧ world (snd r) = world (snd r') ∧
  (fst r = Ok tt → self (snd r) = self (snd r')).
Proof.
  destruct w as [k env tr m]. cbn zeta.
  unfold __enter__, bind, gets. cbn. unfold os_makedirs. rewrite !prim_run.
  destruct (makedirs _ _) as [[e|] k1]; cbn.
  { done. }
  unfold py_open. rewrite !prim_run.
  destruct (sys_open _ _ _) as [[e|fd] k2]; cbn.
  { done. }
  unfold set_lockfile. cbn. done.
Qed.

Lemma aenter_overwrites fuel p tmo dbg lf lf' w :
  let r := AsyncFileLock.__aenter__ fuel
             (mkSt (AsyncFileLock.mk p tmo dbg lf AsyncFileLock.event_loop) w) in
  let r' := AsyncFileLock.__aenter__ fuel
              (mkSt (AsyncFileLock.mk p tmo dbg lf' AsyncFileLock.event_loop) w) in
  fst r = fst r' ∧ world (snd r) = world (snd r') ∧
  (fst r = Ok tt → self (snd r) = self (snd r')).
Proof.
  destruct w as [k env tr m]. cbn zeta.
  unfold AsyncFileLock.__aenter__, bind, gets, run_in_executor, emit. cbn.
  unfold os_makedirs.
  do 2 rewrite prim_run.
  destruct (makedirs _ _) as [[e|] k1]; cbn.
  { done. }
  unfold py_open. do 2 rewrite prim_run.
  destruct (sys_open _ _ _) as [[e|fd] k2]; cbn.
  { done. }
  unfold AsyncFileLock.set_lockfile. cbn. done.
Qed.

End ReenterFacts.
Import ReenterFacts.

(** *** A free lock, and a lock that is released *)

Module HandoverFacts.
Import FileLock.

Lemma step_free p k a :
  calm a → k_lock k !! p = None → k_lock (Env.step k a) !! p = None.
Proof.
  intros Hc Hl. destruct a as [d|q|w q|w fd op|w fd|f on]; cbn in *.
  - done.
  - pose proof (sys_mkdir_core q k) as E. unfold core in E. congruence.
  - destruct (sys_open w q k) as [[e|g] k'] eqn:E; cbn.
    + by rewrite (sys_open_err _ _ _ _ _ E).
    + by destruct (sys_open_ok _ _ _ _ _ E) as (_ & _ & _ & -> & _).
  - subst op. rewrite sys_flock_un.
    destruct (k_open k !! fd) as [o|]; [|done].
    destruct (negb _); [done|]. destruct (k_unlock_eio k); [done|]. cbn.
    destruct (release (ofd_path o) fd (k_lock k) !! p) as [x|] eqn:E; [|done].
    apply release_lookup_Some in E. congruence.
  - unfold sys_close. destruct (k_open k !! fd) as [o|]; [|done].
    destruct (negb _); [done|]. cbn.
    destruct (release (ofd_path o) fd (k_lock k) !! p) as [x|] eqn:E; [|done].
    apply release_lookup_Some in E. congruence.
  - by destruct f.
Qed.

Lemma run_free p acts k :
  Forall calm acts → k_lock k !! p = None → k_lock (Env.run acts k) !! p = None.
Proof.
  intros H. revert k. induction H as [|a acts Ha _ IH]; intros k Hl; [done|].
  cbn. apply IH. by apply step_free.
Qed.

(** Closing the description that holds the lock frees it. *)
Lemma close_frees o g p k :
  holds k o p g → k_lock (Env.step k (Env.Close o g)) !! p = None.
Proof.
  intros [Ho Hl]. cbn. rewrite (sys_close_own _ _ _ _ Ho). cbn.
  rewrite (release_own _ _ _ Hl). apply lookup_delete_eq.
Qed.

Lemma step_lock_state o g p k a :
  wf k → calm a → (Env.foreign o a ∨ a = Env.Close o g) →
  lock_state o g p k →
  lock_state o g p (Env.step k a) ∧
  (a = Env.Close o g → k_lock (Env.step k a) !! p = None).
Proof.
  intros Hwf Hc Ha [Hfree|Hh].
  - split; [left|intros _]; by apply step_free.
  - destruct Ha as [Hf| ->].
    + split; [right; by apply step_holds|].
      intros ->. cbn in Hf. done.
    + split; [left|intros _]; by apply close_frees.
Qed.

Lemma run_lock_state o g p acts k :
  wf k → Forall calm acts →
  Forall (λ a, Env.foreign o a ∨ a = Env.Close o g) acts →
  lock_state o g p k →
  lock_state o g p (Env.run acts k) ∧
  (Env.Close o g ∈ acts → k_lock (Env.run acts k) !! p = None).
Proof.
  intros Hwf Hc. revert k Hwf.
  induction Hc as [|a acts Ha Hc IH]; intros k Hwf Hp Hs.
  { split; [done|]. by intros ?%elem_of_nil. }
  apply Forall_cons in Hp as [Hpa Hp]. cbn.
  destruct (step_lock_state o g p k a Hwf Ha Hpa Hs) as [Hs1 Hcl].
  destruct (IH (Env.step k a) (step_wf _ _ Hwf) Hp Hs1) as [Hs2 Hcl2].
  split; [done|].
  intros [<-|Hin]%elem_of_cons; [|by apply Hcl2].
  apply run_free; [done|by apply Hcl].
Qed.

Lemma holds_not_free k o p g : holds k o p g → k_lock k !! p ≠ None.
Proof. intros [_ Hl]. congruence. Qed.

(** A turn of the others keeps the hand-over on its way. *)
Lemma handover_turn o g p m k s :
  handover o g p m k s → handover o g p m (Env.run (hd [] s) k) (tl s).
Proof.
  intros (Hwf & Hcalm & Hst).
  assert (Hchd : Forall calm (hd [] s)).
  { destruct Hcalm; [constructor|done]. }
  assert (Hctl : calm_script (tl s)).
  { destruct Hcalm; [constructor|done]. }
  split_and!; [by apply run_wf|done|].
  destruct Hst as [Hfree|(Hne & Hh & Hrel & Honly)].
  { left. by apply run_free. }
  destruct Honly as [|b s' Hb Hs']; [by apply Exists_nil in Hrel|]. cbn in *.
  destruct (run_lock_state o g p b k Hwf Hchd Hb (or_intror Hh)) as [Hs1 Hcl].
  apply Exists_cons in Hrel as [Hin|Hrel]; [left; by apply Hcl|].
  destruct Hs1 as [Hfree|Hh1]; [by left|right; done].
Qed.

Lemma handover_core o g p m k k' s :
  core k' = core k → handover o g p m k s → handover o g p m k' s.
Proof.
  intros Hc (Hwf & Hcalm & Hst).
  split_and!; [by eapply wf_core|done|].
  destruct Hst as [Hfree|(Hne & Hh & Hrel & Honly)].
  - left. unfold core in Hc. congruence.
  - right. split_and!; try done. by eapply holds_core.
Qed.

Lemma handover_makedirs o g p m k s name :
  handover o g p m k s → handover o g p m (snd (makedirs name k)) s.
Proof. apply handover_core, makedirs_core. Qed.

(** The calls of the handle other than its lock request. *)
Lemma handover_own o g p m k s a :
  own m a → calm a → handover o g p m k s →
  handover o g p m (Env.step k a) s.
Proof.
  intros Ho Hc (Hwf & Hcalm & Hst).
  split_and!; [by apply step_wf|done|].
  destruct Hst as [Hfree|(Hne & Hh & Hrel & Honly)].
  - left. by apply step_free.
  - right. split_and!; try done.
    apply step_holds; [done|by eapply own_foreign|done].
Qed.

Lemma handover_prelude o g p :
  keeps (framed (handover o g p)) prelude.
Proof.
  apply frame_prelude.
  - apply handover_turn.
  - apply handover_makedirs.
  - intros m k s q. by apply handover_own.
Qed.

(** *** The loop, call by call *)

Lemma try_lock_run s k env tr m fd :
  lockfile s = Some (File fd false) →
  try_lock (mkSt s (mkWorld k env tr m)) =
  match sys_flock m fd (Z.lor LOCK_EX LOCK_NB) (Env.run (hd [] env) k) with
  | (None, k2) =>
    if debug s
    then (Ok Break,
          mkSt s (mkWorld (Env.run (hd [] (tl env)) k2) (tl (tl env))
                    (EvDebug MsgAcquired
                     :: EvFlock fd (Z.lor LOCK_EX LOCK_NB) :: tr) m))
    else (Ok Break,
          mkSt s (mkWorld k2 (tl env)
                    (EvFlock fd (Z.lor LOCK_EX LOCK_NB) :: tr) m))
  | (Some e, k2) =>
    (Raise (OSError e),
     mkSt s (mkWorld k2 (tl env) (EvFlock fd (Z.lor LOCK_EX LOCK_NB) :: tr) m))
  end.
Proof.
  intros Hlf. unfold try_lock, bind, gets. cbn. rewrite Hlf. cbn.
  rewrite prim_run. cbn.
  destruct (sys_flock _ _ _ _) as [[e|] k2]; cbn; [done|].
  destruct (debug s); cbn; [|done].
  unfold logging_debug. by rewrite prim_run.
Qed.

Lemma on_would_block_falsy start s k env tr m :
  match timeout s with Some q => truthy q | None => false end = false →
  on_would_block start (mkSt s (mkWorld k env tr m)) =
  (Ok Continue,
   mkSt s (mkWorld (sys_sleep (1 # 10) (Env.run (hd [] env) k)) (tl env)
             (EvSleep (1 # 10) :: tr) m)).
Proof.
  intros Ht. unfold on_would_block, bind, gets. cbn.
  destruct (timeout s) as [q|]; [rewrite Ht|]; cbn;
    unfold time_sleep; by rewrite prim_run.
Qed.

(** One iteration when the lock is free at the request. *)
Lemma attempt_free start s k env tr m fd :
  good (mkWorld k env tr m) →
  attached fd (mkSt s (mkWorld k env tr m)) →
  k_enolck k = false →
  k_lock (Env.run (hd [] env) k) !! lockfile_path s = None →
  ∃ st', attempt start (mkSt s (mkWorld k env tr m)) = (Ok Break, st') ∧
         self st' = s ∧ me (world st') = m ∧
         holds (kernel (world st')) m (lockfile_path s) fd.
Proof.
  intros Hgood Hatt Hen Hl1. pose proof Hatt as [Hlf _]; cbn in Hlf.
  unfold attempt, try_except. rewrite (try_lock_run _ _ _ _ _ _ Hlf).
  destruct (turn_state _ _ _ _ _ _
         (EvFlock fd (Z.lor LOCK_EX LOCK_NB) :: tr) Hgood Hatt)
         as ([Hwf1 Hfs1] & [_ Ho1] & Hfl1 & _ & _). cbn in Hwf1, Hfs1, Ho1.
  assert (Hen1 : k_enolck (Env.run (hd [] env) k) = false)
    by by rewrite (flags_enolck _ _ Hfl1).
  rewrite (sys_flock_free _ _ _ _ Ho1 Hen1 Hl1).
  pose proof (sys_flock_wf m fd (Z.lor LOCK_EX LOCK_NB)
                (Env.run (hd [] env) k) Hwf1) as Hwf2.
  rewrite (sys_flock_free _ _ _ _ Ho1 Hen1 Hl1) in Hwf2. cbn in Hwf2.
  assert (Hh2 : holds (set_lock (λ l, <[lockfile_path s := fd]> l)
                         (Env.run (hd [] env) k)) m (lockfile_path s) fd)
    by (split; cbn; [done|apply lookup_insert_eq]).
  destruct (debug s); cbn; eexists; (split; [reflexivity|]); cbn;
    (split_and!; [done|done|]); [|done].
  apply run_holds; [done|by apply foreign_hd|done].
Qed.

(** One iteration behind a holder, without a timeout that counts. *)
Lemma attempt_held start s k env tr m fd o g :
  good (mkWorld k env tr m) →
  attached fd (mkSt s (mkWorld k env tr m)) →
  k_enolck k = false → o ≠ m →
  holds (Env.run (hd [] env) k) o (lockfile_path s) g →
  match timeout s with Some q => truthy q | None => false end = false →
  attempt start (mkSt s (mkWorld k env tr m)) =
  (Ok Continue,
   mkSt s (mkWorld
             (sys_sleep (1 # 10)
                (Env.run (hd [] (tl env)) (Env.run (hd [] env) k)))
             (tl (tl env))
             (EvSleep (1 # 10) :: EvFlock fd (Z.lor LOCK_EX LOCK_NB) :: tr) m)).
Proof.
  intros Hgood Hatt Hen Hne Hh1 Hfalsy. pose proof Hatt as [Hlf _]; cbn in Hlf.
  unfold attempt, try_except. rewrite (try_lock_run _ _ _ _ _ _ Hlf).
  destruct (turn_state _ _ _ _ _ _
         (EvFlock fd (Z.lor LOCK_EX LOCK_NB) :: tr) Hgood Hatt)
         as ([Hwf1 Hfs1] & [_ Ho1] & Hfl1 & _ & _). cbn in Hwf1, Hfs1, Ho1.
  assert (Hen1 : k_enolck (Env.run (hd [] env) k) = false)
    by by rewrite (flags_enolck _ _ Hfl1).
  assert (Hgfd : g ≠ fd).
  { intros ->. destruct Hh1 as [Hog _]. congruence. }
  rewrite (sys_flock_blocked _ _ _ _ g Ho1 Hen1 (proj2 Hh1) Hgfd).
  cbn -[on_would_block].
  by rewrite (on_would_block_falsy _ _ _ _ _ _ Hfalsy).
Qed.

(** The state after a sleep is as good as before. *)
Lemma slept_state s k env tr m fd tr' :
  good (mkWorld k env tr m) →
  attached fd (mkSt s (mkWorld k env tr m)) →
  good (mkWorld (sys_sleep (1 # 10) k) env tr' m) ∧
  attached fd (mkSt s (mkWorld (sys_sleep (1 # 10) k) env tr' m)).
Proof.
  intros [Hwf Hfs] [Hlf Ho]. split; split; done.
Qed.

Lemma handover_acquires n : ∀ start s k env tr m fd o g,
  good (mkWorld k env tr m) →
  attached fd (mkSt s (mkWorld k env tr m)) →
  k_enolck k = false →
  handover o g (lockfile_path s) m k env →
  (k_lock k !! lockfile_path s = None ∨
   (match timeout s with Some q => truthy q | None => false end = false ∧
    length env ≤ 2 * n)) →
  ∃ st', while_true (S n) (attempt start) (mkSt s (mkWorld k env tr m))
         = (Ok tt, st') ∧
         self st' = s ∧ me (world st') = m ∧
         holds (kernel (world st')) m (lockfile_path s) fd.
Proof.
  induction n as [|n IH]; intros start s k env tr m fd o g Hgood Hatt Hen Hho Hcase.
  all: cbn [while_true]; unfold bind.
  all: pose proof (handover_turn _ _ _ _ _ _ Hho) as (Hwf1 & Hcalm1 & Hst1).
  all: assert (Hchd : Forall calm (hd [] env))
         by (destruct Hho as (_ & Hc & _); destruct Hc; [constructor|done]).
  all: destruct Hst1 as [Hl1|(Hne & Hh1 & Hrel1 & Honly1)];
         [destruct (attempt_free start _ _ _ _ _ _ Hgood Hatt Hen Hl1)
            as (st' & -> & ? & ? & ?); by exists st'|].
  all: destruct Hcase as [Hl|[Hfalsy Hlen]];
         [exfalso; apply (holds_not_free _ _ _ _ Hh1); by apply run_free|].
  - destruct env; [|cbn in Hlen; lia]. by apply Exists_nil in Hrel1.
  - rewrite (attempt_held start _ _ _ _ _ _ o g Hgood Hatt Hen Hne Hh1 Hfalsy).
    destruct (turn_state _ _ _ _ _ _
         (EvFlock fd (Z.lor LOCK_EX LOCK_NB) :: tr) Hgood Hatt)
         as (Hg1 & Ha1 & Hfl1 & _ & _).
    destruct (turn_state _ _ _ _ _ _
         (EvSleep (1 # 10) :: EvFlock fd (Z.lor LOCK_EX LOCK_NB) :: tr) Hg1 Ha1)
         as (Hg2 & Ha2 & Hfl2 & _ & _).
    destruct (slept_state _ _ _ _ _ _
         (EvSleep (1 # 10) :: EvFlock fd (Z.lor LOCK_EX LOCK_NB) :: tr) Hg2 Ha2)
         as (Hg3 & Ha3).
    assert (Hho1 : handover o g (lockfile_path s) m (Env.run (hd [] env) k)
                     (tl env)).
    { split_and!; [done|done|]. right. done. }
    pose proof (handover_turn _ _ _ _ _ _ Hho1) as Hho2.
    apply (IH start s _ _ _ m fd o g Hg3 Ha3).
    + cbn. rewrite (flags_enolck _ _ Hfl2), (flags_enolck _ _ Hfl1). done.
    + by apply (handover_own _ _ _ _ _ _ (Env.Tick (1 # 10))).
    + right. split; [done|]. destruct env as [|b1 [|b2 env]]; cbn in *; lia.
Qed.

End HandoverFacts.
Import HandoverFacts.

Module HandoverEnter.
Import FileLock.

(** The script only gets shorter. *)
Lemma script_prelude (L : nat) :
  keeps (framed (script_within L)) prelude.
Proof.
  apply frame_prelude; try done.
  intros m k s H. unfold script_within in *. destruct s; cbn in *; lia.
Qed.

Lemma enter_handover n st o g :
  good (world st) → k_enolck (kernel (world st)) = false →
  framed (handover o g (lockfile_path (self st))) st →
  (o = me (world st) ∨
   (match timeout (self st) with Some q => truthy q | None => false end = false ∧
    length (env (world st)) ≤ 2 * n)) →
  (∃ e, ∀ m, fst (__enter__ m st) = Raise (OSError e)) ∨
  (∃ fd st', __enter__ (S n) st = (Ok tt, st') ∧
     self st' = set_lockfile (Some (File fd false)) (self st) ∧
     holds (kernel (world st')) (me (world st)) (lockfile_path (self st)) fd).
Proof.
  intros Hgood Hen Hho Hcase.
  pose proof (handover_prelude o g (lockfile_path (self st)) st Hho) as Hho1.
  pose proof (script_prelude (length (env (world st))) st) as Hlen1.
  destruct (prelude_spec st Hgood)
    as (r & st1 & Hrun & Hm1 & Hg1 & Hf1 & [(fd & -> & Hs1 & Ha1 & _)|(e & -> & _)]).
  2: { left. exists e. intros m. rewrite enter_prelude. unfold bind.
       by rewrite Hrun. }
  rewrite enter_prelude. unfold bind.
  rewrite Hrun in *; cbn in Hho1, Hlen1.
  right. unfold framed, script_within in Hho1, Hlen1.
  specialize (Hlen1 (le_n _)).
  destruct st1 as [s1 [k1 env1 tr1 m1]]. cbn in *. subst m1.
  assert (Hp : lockfile_path s1 = lockfile_path (self st)) by by rewrite Hs1.
  destruct (handover_acquires n (k_now k1) s1 k1 env1 tr1 (me (world st)) fd o g)
    as (st' & Hloop & Hs' & Hm' & Hh'); try done.
  - by rewrite (flags_enolck _ _ Hf1).
  - by rewrite Hp.
  - rewrite Hp. destruct Hcase as [->|[Hfalsy Hlen]].
    + left. destruct Hho1 as (_ & _ & [?|(Hne & _)]); done.
    + right. split; [by rewrite Hs1|lia].
  - exists fd, st'. split_and!; try done.
    + congruence.
    + by rewrite <- Hp.
Qed.

End HandoverEnter.
Import HandoverEnter.

(** *** Two handles in one process *)

Module ReentrantFacts.
Import FileLock.

Lemma flock_beside m fd op k p g :
  holds k m p g → fd ≠ g → holds (snd (sys_flock m fd op k)) m p g.
Proof.
  intros [Ho Hl] Hne. split; [by rewrite sys_flock_open|].
  unfold sys_flock. destruct (k_open k !! fd) as [o|] eqn:Eo; [|done].
  destruct (negb _); [done|].
  repeat case_match; try done; cbn.
  - rewrite lookup_insert_ne; [done|]. congruence.
  - apply release_lookup_other; [done|]. congruence.
Qed.

Lemma close_beside m fd k p g :
  holds k m p g → fd ≠ g → holds (snd (sys_close m fd k)) m p g.
Proof.
  intros [Ho Hl] Hne. unfold sys_close.
  destruct (k_open k !! fd) as [o|] eqn:Eo; [|done].
  destruct (negb _); [done|]. cbn. split; cbn.
  - rewrite lookup_delete_ne; [done|]. congruence.
  - apply release_lookup_other; [done|]. congruence.
Qed.

Lemma open_beside m q k p g :
  wf k → holds k m p g →
  holds (snd (sys_open m q k)) m p g ∧
  ∀ fd, fst (sys_open m q k) = inr fd → fd ≠ g.
Proof.
  intros Hwf [Ho Hl].
  destruct (sys_open m q k) as [[e|fd] k'] eqn:E; cbn.
  - rewrite (sys_open_err _ _ _ _ _ E). done.
  - destruct (sys_open_ok _ _ _ _ _ E) as (-> & Hop & _ & Hlk & _).
    pose proof (wf_fresh _ _ _ Hwf Ho) as Hlt.
    split; [split|].
    + rewrite Hop, lookup_insert_ne; [done|lia].
    + by rewrite Hlk.
    + intros fd [= <-]. lia.
Qed.

Section Beside.
Variables (g : nat) (p : string).

(** A call that leaves the lock table and the open descriptions as they
    are. *)
Lemma beside_prim {A} e (f : nat → Kernel.t → Res A * Kernel.t) :
  (∀ m k, wf k → holds k m p g →
          wf (snd (f m k)) ∧ holds (snd (f m k)) m p g) →
  keeps (held_beside g p) (prim e f).
Proof.
  intros Hf. apply keeps_prim. intros s k env tr m ([Hwf Hfs] & Hh & Hlf).
  cbn in *.
  destruct (turn_facts _ _ _ Hwf Hfs) as (Hwf1 & Hfs1 & _ & _ & _ & Hk).
  destruct (Hf m _ Hwf1 (Hk _ _ Hh)) as [Hwf2 Hh2].
  split_and!; done.
Qed.

Lemma beside_time : keeps (held_beside g p) time_time.
Proof. apply beside_prim. by intros. Qed.

Lemma beside_debug msg : keeps (held_beside g p) (logging_debug msg).
Proof. apply beside_prim. by intros. Qed.

Lemma beside_sleep d : keeps (held_beside g p) (time_sleep d).
Proof. apply beside_prim. by intros. Qed.

Lemma beside_makedirs name : keeps (held_beside g p) (os_makedirs name).
Proof.
  apply beside_prim. intros m k Hwf Hh. rewrite snd_lift_errno.
  pose proof (makedirs_core name k).
  split; [by eapply wf_core|by eapply holds_core].
Qed.

Lemma beside_flock f op :
  match f with Some f => fileno f ≠ g | None => True end →
  keeps (held_beside g p) (fcntl_flock f op).
Proof.
  intros Hf. destruct f as [[fd [|]]|]; cbn in *; try apply keeps_raise.
  apply beside_prim. intros m k Hwf Hh. rewrite snd_lift_errno.
  split; [by apply sys_flock_wf|by apply flock_beside].
Qed.

Lemma beside_gets_lockfile {A} (f : option FileObj → M t A) :
  (∀ lf, match lf with Some f => fileno f ≠ g | None => True end →
         keeps (held_beside g p) (f lf)) →
  keeps (held_beside g p) (bind (gets lockfile) f).
Proof.
  intros H st HJ. unfold bind, gets. cbn. apply H; [|done].
  by destruct HJ as (_ & _ & ?).
Qed.

Lemma beside_close : keeps (held_beside g p) (close_attr lockfile set_lockfile).
Proof.
  unfold close_attr. apply beside_gets_lockfile.
  intros [[fd [|]]|] Hfd; cbn in *; [apply keeps_ret| |apply keeps_raise].
  apply keeps_bind; [by intros st (? & ? & _)|]. intros _.
  apply beside_prim. intros m k Hwf Hh. rewrite snd_lift_errno.
  split; [by apply sys_close_wf|by apply close_beside].
Qed.

Lemma beside_attempt start : keeps (held_beside g p) (attempt start).
Proof.
  unfold attempt, try_lock, on_would_block.
  apply keeps_try_except.
  - apply beside_gets_lockfile. intros lf Hlf.
    apply keeps_bind; [by apply beside_flock|]. intros _.
    apply keeps_bind; [apply keeps_gets|]. intros dbg.
    apply keeps_bind; [apply keeps_when, beside_debug|]. intros _.
    apply keeps_ret.
  - intros _. apply keeps_bind; [apply keeps_gets|]. intros tmo.
    apply keeps_bind.
    { destruct tmo as [q|]; [destruct (truthy q)|]; try apply keeps_ret.
      apply keeps_bind; [apply beside_time|]. intros now. apply keeps_ret. }
    intros expired. apply keeps_bind.
    { destruct expired; [|apply keeps_ret].
      apply keeps_bind; [apply beside_close|]. intros _. apply keeps_raise. }
    intros _. apply keeps_bind; [apply beside_sleep|]. intros _.
    apply keeps_ret.
Qed.

(** The file is opened on a fresh description, which is then the one of
    the handle. *)
Lemma beside_open_assign path :
  keeps (held_beside g p) (bind (py_open path) (fun f => modify (set_lockfile (Some f)))).
Proof.
  intros [s [k env tr m]] ([Hwf Hfs] & Hh & Hlf). cbn in *.
  unfold bind, py_open. rewrite prim_run. cbn.
  destruct (turn_facts _ _ _ Hwf Hfs) as (Hwf1 & Hfs1 & _ & _ & _ & Hk).
  specialize (Hk _ _ Hh).
  destruct (open_beside m path _ p g Hwf1 Hk) as [Hh2 Hfresh].
  pose proof (sys_open_wf m path _ Hwf1) as Hwf2.
  destruct (sys_open m path _) as [[e|fd] k2]; cbn in *.
  - split_and!; done.
  - split_and!; try done. cbn. by apply Hfresh.
Qed.

Lemma beside_enter fuel : keeps (held_beside g p) (__enter__ fuel).
Proof.
  intros st HJ.
  assert (Heq : __enter__ fuel st =
    bind (gets lockfile_path) (fun path =>
    bind (os_makedirs (posixpath.dirname path)) (fun _ =>
    bind (bind (py_open path) (fun f => modify (set_lockfile (Some f))))
      (fun _ =>
    bind (gets debug) (fun dbg =>
    bind (when dbg (logging_debug (MsgTrying path))) (fun _ =>
    bind time_time (fun start_time =>
    while_true fuel (attempt start_time))))))) st).
  { unfold __enter__. unfold bind at 1 7. unfold gets at 1 3. cbn.
    unfold bind at 1 6. destruct (os_makedirs _ st) as [[[]|e|] st1]; try done.
    by rewrite bind_assoc. }
  rewrite Heq. clear Heq. revert st HJ.
  apply keeps_bind; [apply keeps_gets|]. intros path.
  apply keeps_bind; [apply beside_makedirs|]. intros _.
  apply keeps_bind; [apply beside_open_assign|]. intros _.
  apply keeps_bind; [apply keeps_gets|]. intros dbg.
  apply keeps_bind; [apply keeps_when, beside_debug|]. intros _.
  apply keeps_bind; [apply beside_time|]. intros start.
  apply keeps_while, beside_attempt.
Qed.

End Beside.

(** While the contender holds the lock through another description, an
    acquisition never returns. *)
Lemma enter_beside_never_acquires fuel st g :
  held_beside g (lockfile_path (self st)) st →
  ∀ st', __enter__ fuel st ≠ (Ok tt, st').
Proof.
  intros HJ st' Hrun.
  pose proof (beside_enter g _ fuel st HJ) as HJ'. rewrite Hrun in HJ'.
  destruct (enter_acquires fuel st st' (proj1 HJ) Hrun)
    as (fd & Hs & Hm & _ & _ & Hh).
  destruct HJ' as (_ & Hh' & Hlf). cbn in *.
  rewrite Hs in Hlf. cbn in Hlf. rewrite Hm in Hh'.
  by destruct (holds_exclusive _ _ _ _ _ _ Hh Hh') as [_ ?].
Qed.

End ReentrantFacts.
Import ReentrantFacts.

(** *** The [with] statement *)

Module WithFacts.

Lemma with_releases {A} fuel (body : M FileLock.t A) p tmo dbg w st1 :
  good w → k_close_eio (kernel w) = false → leaves_alone body →
  FileLock.__enter__ fuel (mkSt (FileLock.__init__ p tmo dbg) w) = (Ok tt, st1) →
  fst (body st1) ≠ OutOfFuel →
  ∃ fd st3,
    with_ fuel body (mkSt (FileLock.__init__ p tmo dbg) w)
      = (fst (body st1), st3) ∧
    FileLock.lockfile (self st1) = Some (File fd false) ∧
    self st3 = FileLock.__init__ p tmo dbg ∧
    k_open (kernel (world st3)) !! fd = None ∧
    k_lock (kernel (world st3)) !! p ≠ Some fd.
Proof.
  intros Hgood Hce Hbody Hrun Hr.
  destruct (enter_acquires fuel (mkSt (FileLock.__init__ p tmo dbg) w) st1 Hgood Hrun)
    as (fd & Hs & Hm & Hg1 & _ & Hh).
  destruct (enter_sound fuel (mkSt (FileLock.__init__ p tmo dbg) w) Hgood)
    as (_ & Hfl & _).
  rewrite Hrun in Hfl. cbn in Hfl, Hs, Hm, Hh.
  assert (Hatt : attached fd st1).
  { split; [by rewrite Hs|]. rewrite Hs, Hm. apply Hh. }
  destruct (Hbody st1 fd Hg1 Hatt) as (Hs2 & Hm2 & Hg2 & Ha2 & Hce2).
  destruct (exit_spec (snd (body st1)) fd Hg2 Ha2)
    as (st3 & Hx & Hs3 & _ & _ & Hcl & Hl).
  rewrite Hce2, (flags_close_eio _ _ Hfl), Hce in Hx, Hs3.
  exists fd, st3. split_and!.
  - unfold with_, bind. rewrite Hrun. unfold try_finally.
    destruct (body st1) as [[a|e|] st2]; cbn in *; [| |done]; by rewrite Hx.
  - by rewrite Hs.
  - by rewrite Hs3, Hs2, Hs.
  - done.
  - by rewrite Hs2, Hs in Hl.
Qed.

(** Sleeping is a block that leaves the handle alone. *)
Lemma sleep_leaves_alone d : (0 <= d)%Q → leaves_alone (time_sleep d).
Proof.
  intros Hd [s [k env tr m]] fd Hgood Hatt. unfold time_sleep.
  rewrite prim_run. cbn.
  destruct (turn_state _ _ _ _ _ _ (EvSleep d :: tr) Hgood Hatt)
    as ([Hwf1 Hfs1] & [Hlf1 Ho1] & Hfl1 & _ & _).
  split_and!; try done. by rewrite (flags_close_eio _ _ Hfl1).
Qed.

(** So is a block that raises at once. *)
Lemma raise_leaves_alone {A} e : leaves_alone (raise (A:=A) e).
Proof. intros st fd Hgood Hatt. by split_and!. Qed.

Lemma async_with_releases {A} fuel (body : M AsyncFileLock.t A) p tmo dbg w st1 :
  good w → k_close_eio (kernel w) = false → aleaves_alone body →
  AsyncFileLock.__aenter__ fuel (mkSt (AsyncFileLock.__init__ p tmo dbg) w)
    = (Ok tt, st1) →
  fst (body st1) ≠ OutOfFuel →
  ∃ fd st3,
    async_with fuel body (mkSt (AsyncFileLock.__init__ p tmo dbg) w)
      = (fst (body st1), st3) ∧
    AsyncFileLock.lockfile (self st1) = Some (File fd false) ∧
    self st3 = AsyncFileLock.__init__ p tmo dbg ∧
    k_open (kernel (world st3)) !! fd = None ∧
    k_lock (kernel (world st3)) !! p ≠ Some fd.
Proof.
  intros Hgood Hce Hbody Hrun Hr.
  pose proof (aenter_run _ _ _ _ Hrun) as Hsrun.
  destruct (enter_acquires fuel
              (to_sync (mkSt (AsyncFileLock.__init__ p tmo dbg) w))
              (to_sync st1) Hgood Hsrun)
    as (fd & Hs & Hm & Hg1 & _ & Hh).
  destruct (enter_sound fuel
              (to_sync (mkSt (AsyncFileLock.__init__ p tmo dbg) w)) Hgood)
    as (_ & Hfl & _).
  rewrite Hsrun in Hfl. cbn in Hfl, Hs, Hm, Hh.
  apply forget_set in Hs.
  assert (Hatt : attached fd (to_sync st1)).
  { split; cbn; rewrite Hs; cbn; [done|]. rewrite Hm. apply Hh. }
  destruct (Hbody st1 fd Hg1 Hatt) as (Hs2 & Hm2 & Hg2 & Ha2 & Hce2).
  destruct (exit_spec (to_sync (snd (body st1))) fd Hg2 Ha2)
    as (sst3 & Hx & Hs3 & _ & _ & Hcl & Hl).
  cbn in Hx, Hs3, Hl. rewrite Hce2, (flags_close_eio _ _ Hfl), Hce in Hx, Hs3.
  destruct (aexit_of_sync _ _ _ Hx) as (st3 & Hx' & <-).
  exists fd, st3. split_and!.
  - unfold async_with, bind. rewrite Hrun. unfold try_finally.
    destruct (body st1) as [[a|e|] st2]; cbn in *; [| |done]; by rewrite Hx'.
  - by rewrite Hs.
  - apply forget_inj. cbn in Hs3. rewrite Hs3, Hs2, Hs. done.
  - done.
  - rewrite Hs2, Hs in Hl. done.
Qed.

Lemma asleep_leaves_alone d : (0 <= d)%Q → aleaves_alone (asyncio_sleep d).
Proof.
  intros Hd [s [k env tr m]] fd Hgood Hatt. unfold asyncio_sleep.
  rewrite prim_run. cbn.
  destruct (turn_state _ _ _ _ _ _ (EvSleep d :: omap erase tr) Hgood Hatt)
    as ([Hwf1 Hfs1] & [Hlf1 Ho1] & Hfl1 & _ & _).
  split_and!; try done. by rewrite (flags_close_eio _ _ Hfl1).
Qed.

End WithFacts.
Import WithFacts.

(** *** What the calls of a handle look like *)

Module DispatchFacts.

Section Dispatch.
Context {S : Type} (base : list Event).

Lemma dispatch_quick {A} e (f : nat → Kernel.t → Res A * Kernel.t) :
  blocking e = false → keeps (all_dispatched (S:=S) base) (prim e f).
Proof.
  intros He. apply keeps_prim. intros s k env tr m (new & Htr & Hd).
  cbn in *. exists (e :: new). split; [by rewrite Htr|]. cbn. by rewrite He.
Qed.

Lemma dispatch_executor {A} (c : M S A) :
  one_call c → keeps (all_dispatched (S:=S) base) (run_in_executor c).
Proof.
  intros Hc st (new & Htr & Hd). unfold run_in_executor.
  destruct (Hc (mkSt (self st) (emit EvExecutor (world st)))) as [H|[e H]].
  - exists (EvExecutor :: new). rewrite H. cbn. by rewrite Htr.
  - exists (e :: EvExecutor :: new). rewrite H. cbn. rewrite Htr.
    split; [done|]. by destruct (blocking e).
Qed.

Lemma one_call_prim {A} e (f : nat → Kernel.t → Res A * Kernel.t) :
  one_call (S:=S) (prim e f).
Proof. intros [s [k env tr m]]. rewrite prim_run. right. by exists e. Qed.

Lemma one_call_gets {A B} (g : S → A) (c : A → M S B) :
  (∀ a, one_call (c a)) → one_call (bind (gets g) c).
Proof. intros H st. apply H. Qed.

Lemma one_call_flock f op : one_call (S:=S) (fcntl_flock f op).
Proof.
  destruct f as [[fd [|]]|]; cbn; try (intros st; by left).
  apply one_call_prim.
Qed.

Lemma one_call_close (get : S → option FileObj) set :
  one_call (close_attr get set).
Proof.
  unfold close_attr. apply one_call_gets.
  intros [[fd [|]]|]; cbn; try (intros st; by left).
  intros st. unfold bind, modify. cbn.
  by destruct (one_call_prim (EvClose fd)
    (λ who k, lift_errno (sys_close who fd k))
    (mkSt (set (Some (File fd true)) (self st)) (world st))) as [?|?];
    [left|right].
Qed.

Lemma dispatch_modify (f : S → S) : keeps (all_dispatched (S:=S) base) (modify f).
Proof. by intros st. Qed.

End Dispatch.

#[local] Ltac dispatch_step :=
  first
    [ apply keeps_ret | apply keeps_raise | apply keeps_gets
    | apply dispatch_modify
    | apply dispatch_quick; reflexivity
    | apply dispatch_executor;
        first [ apply one_call_close
              | apply one_call_gets; intros ?;
                  first [apply one_call_flock | apply one_call_prim] ]
    | apply keeps_when | apply keeps_try_except | apply keeps_try_finally
    | apply keeps_while | apply keeps_bind
    | match goal with
      | |- ∀ _, keeps _ _ => intros ?
      | |- keeps _ (match ?x with _ => _ end) => destruct x
      end ].

Lemma dispatch_aenter base fuel :
  keeps (all_dispatched base)
    (AsyncFileLock.__aenter__ fuel).
Proof.
  unfold AsyncFileLock.__aenter__, AsyncFileLock.attempt,
    AsyncFileLock.try_lock, AsyncFileLock.on_would_block,
    time_time, logging_debug, asyncio_sleep, os_makedirs, py_open.
  repeat dispatch_step.
Qed.

Lemma dispatch_aexit base :
  keeps (all_dispatched base) AsyncFileLock.__aexit__.
Proof.
  unfold AsyncFileLock.__aexit__, logging_debug. repeat dispatch_step.
Qed.

Lemma dispatch_ais_locked base :
  keeps (all_dispatched base) AsyncFileLock.is_locked.
Proof.
  unfold AsyncFileLock.is_locked. repeat dispatch_step.
Qed.

End DispatchFacts.
Import DispatchFacts.

Module LogFacts.
Import FileLock.

Lemma log_erase tr : log (omap erase tr) = log tr.
Proof.
  unfold log. induction tr as [|e tr IH]; [done|].
  destruct e; cbn [omap list_omap erase]; cbn; by rewrite ?IH.
Qed.

Section Silent.
Variable L : list LogMsg.

Lemma silent_prim {A} e (f : nat → Kernel.t → Res A * Kernel.t) :
  (∀ m, e ≠ EvDebug m) → keeps (silent L) (prim e f).
Proof.
  intros He. apply keeps_prim. intros s k env tr m [Hd Hl]. cbn in *.
  split; [done|]. destruct e as [| | | | | |msg| |]; cbn; try done.
  by destruct (He msg).
Qed.

Lemma silent_modify f : keeps (silent L) (modify (set_lockfile f)).
Proof. by intros st. Qed.

Lemma silent_flock f op : keeps (silent L) (fcntl_flock f op).
Proof.
  destruct f as [[fd [|]]|]; cbn; try apply keeps_raise.
  by apply silent_prim.
Qed.

Lemma silent_close : keeps (silent L) (close_attr lockfile set_lockfile).
Proof.
  unfold close_attr. apply keeps_bind; [apply keeps_gets|].
  intros [[fd [|]]|]; cbn; [apply keeps_ret| |apply keeps_raise].
  apply keeps_bind; [apply silent_modify|]. intros _. by apply silent_prim.
Qed.

(** [if self.debug: logging.debug(msg)] with [debug] off. *)
Lemma silent_guard {A} msg (rest : M t A) :
  keeps (silent L) rest →
  keeps (silent L) (bind (gets debug) (fun dbg =>
           bind (when dbg (logging_debug msg)) (fun _ => rest))).
Proof.
  intros Hr st HJ. unfold bind at 1. unfold gets. cbn.
  rewrite (proj1 HJ). cbn. by apply Hr.
Qed.

Lemma silent_guard_last msg :
  keeps (silent L) (bind (gets debug) (fun dbg => when dbg (logging_debug msg))).
Proof.
  intros st HJ. unfold bind, gets. cbn. rewrite (proj1 HJ). done.
Qed.

End Silent.

#[local] Ltac silent_step :=
  first
    [ apply keeps_ret | apply keeps_raise
    | apply silent_guard | apply silent_guard_last
    | apply keeps_gets
    | apply silent_modify | apply silent_flock | apply silent_close
    | apply silent_prim; done
    | apply keeps_try_except | apply keeps_try_finally
    | apply keeps_while | apply keeps_bind
    | match goal with
      | |- ∀ _, keeps _ _ => intros ?
      | |- keeps _ (match ?x with _ => _ end) => destruct x
      end ].

Lemma silent_enter L fuel :
  keeps (silent L)
    (__enter__ fuel).
Proof.
  unfold __enter__, attempt, try_lock, on_would_block,
    time_time, time_sleep, os_makedirs, py_open.
  repeat silent_step.
Qed.

Lemma silent_exit L :
  keeps (silent L) __exit__.
Proof. unfold __exit__. repeat silent_step. Qed.

Lemma silent_is_locked L :
  keeps (silent L) is_locked.
Proof. unfold is_locked. repeat silent_step. Qed.

Lemma aexit_snd st :
  to_sync (snd (AsyncFileLock.__aexit__ st))
  = snd (FileLock.__exit__ (to_sync st)).
Proof. by rewrite <- aexit_refines. Qed.

Lemma ais_locked_snd st :
  to_sync (snd (AsyncFileLock.is_locked st))
  = snd (FileLock.is_locked (to_sync st)).
Proof. by rewrite <- is_locked_refines. Qed.

End LogFacts.
Import LogFacts.

Module CallFacts.
Import FileLock.

Lemma prelude_calls st :
  match prelude st with
  | (Ok _, st1) =>
    ∃ fd, self st1 = set_lockfile (Some (File fd false)) (self st) ∧
          trace (world st1)
          = opening (lockfile_path (self st)) (debug (self st))
            ++ trace (world st)
  | (Raise e, _) => ∃ err, e = OSError err
  | (OutOfFuel, _) => False
  end.
Proof.
  destruct st as [[p tmo dbg lf] [k env tr m]].
  unfold prelude, bind, gets. cbn. unfold os_makedirs. rewrite prim_run.
  destruct (makedirs _ _) as [[e|] k1]; cbn; [by eexists|].
  unfold py_open. rewrite prim_run.
  destruct (sys_open _ _ _) as [[e|fd] k2]; cbn; [by eexists|].
  unfold set_lockfile, opening. cbn.
  destruct dbg; cbn; unfold logging_debug, time_time; rewrite ?prim_run; cbn;
    by exists fd.
Qed.

(** One iteration of the loop, by its outcome. *)
Lemma attempt_calls start s k env tr m fd :
  lockfile s = Some (File fd false) →
  match attempt start (mkSt s (mkWorld k env tr m)) with
  | (Ok Break, st') =>
    self st' = s ∧
    trace (world st')
    = said (debug s) MsgAcquired ++ EvFlock fd (Z.lor LOCK_EX LOCK_NB) :: tr
  | (Ok Continue, st') =>
    self st' = s ∧
    trace (world st') = round fd (counts (timeout s)) ++ tr
  | (Raise (TimeoutError t), st') =>
    t = timeout s ∧ counts (timeout s) = true ∧
    self st' = set_lockfile (Some (File fd true)) s ∧
    trace (world st')
    = EvClose fd :: EvTime :: EvFlock fd (Z.lor LOCK_EX LOCK_NB) :: tr
  | (Raise _, _) => True
  | (OutOfFuel, _) => False
  end.
Proof.
  intros Hlf. unfold attempt, try_except.
  rewrite (try_lock_run _ _ _ _ _ _ Hlf).
  destruct (sys_flock _ _ _ _) as [[e|] k2]; cbn -[on_would_block].
  2: { unfold said. by destruct (debug s). }
  destruct e; cbn -[on_would_block]; try done.
  unfold on_would_block, bind, gets. cbn. unfold counts, round.
  destruct (timeout s) as [q|] eqn:Htmo; [destruct (truthy q) eqn:Htr|]; cbn.
  2,3: unfold time_sleep; rewrite prim_run; by cbn.
  unfold time_time. rewrite prim_run. cbn.
  destruct (Qgtb _ _); cbn.
  - unfold close_attr, bind, gets, modify. cbn. rewrite Hlf. cbn.
    rewrite prim_run. cbn.
    destruct (sys_close _ _ _) as [[e'|] k3]; cbn; done.
  - unfold time_sleep. rewrite prim_run. by cbn.
Qed.

Lemma loop_calls fuel start : ∀ n s k env tr m fd base,
  lockfile s = Some (File fd false) →
  tr = rounds n fd (counts (timeout s)) ++ base →
  match while_true fuel (attempt start) (mkSt s (mkWorld k env tr m)) with
  | (Ok _, st') =>
    self st' = s ∧
    ∃ n', trace (world st')
          = said (debug s) MsgAcquired ++
            EvFlock fd (Z.lor LOCK_EX LOCK_NB) ::
            rounds n' fd (counts (timeout s)) ++ base
  | (Raise (TimeoutError t), st') =>
    t = timeout s ∧ counts (timeout s) = true ∧
    self st' = set_lockfile (Some (File fd true)) s ∧
    ∃ n', trace (world st')
          = EvClose fd :: EvTime :: EvFlock fd (Z.lor LOCK_EX LOCK_NB) ::
            rounds n' fd true ++ base
  | _ => True
  end.
Proof.
  induction fuel as [|fuel IH]; intros n s k env tr m fd base Hlf Htr; [done|].
  cbn [while_true]. unfold bind.
  pose proof (attempt_calls start s k env tr m fd Hlf) as Ha.
  destruct (attempt start _) as [[[]|e|] st1]; cbn.
  - destruct Ha as [Hs Ht]. split; [done|]. exists n. by rewrite Ht, Htr.
  - destruct Ha as [Hs Ht]. destruct st1 as [s1 [k1 env1 tr1 m1]].
    cbn in Hs, Ht. subst s1.
    apply (IH (S n)); [done|]. rewrite Ht, Htr. cbn [rounds].
    by rewrite app_assoc.
  - destruct e; try done. destruct Ha as (-> & Hc & Hs & Ht).
    split_and!; try done. exists n. rewrite Ht, Htr. by rewrite Hc.
  - done.
Qed.

Lemma enter_calls fuel st :
  match __enter__ fuel st with
  | (Ok _, st') =>
    ∃ n fd,
      self st' = set_lockfile (Some (File fd false)) (self st) ∧
      trace (world st')
      = said (debug (self st)) MsgAcquired ++
        EvFlock fd (Z.lor LOCK_EX LOCK_NB) ::
        rounds n fd (counts (timeout (self st))) ++
        opening (lockfile_path (self st)) (debug (self st)) ++
        trace (world st)
  | (Raise (TimeoutError t), st') =>
    t = timeout (self st) ∧ counts (timeout (self st)) = true ∧
    ∃ n fd,
      self st' = set_lockfile (Some (File fd true)) (self st) ∧
      trace (world st')
      = EvClose fd :: EvTime :: EvFlock fd (Z.lor LOCK_EX LOCK_NB) ::
        rounds n fd true ++
        opening (lockfile_path (self st)) (debug (self st)) ++
        trace (world st)
  | _ => True
  end.
Proof.
  rewrite enter_prelude. unfold bind.
  pose proof (prelude_calls st) as Hp.
  destruct (prelude st) as [[start|e|] st1]; [|by destruct Hp as [err ->]|done].
  destruct Hp as (fd & Hs1 & Ht1).
  destruct st1 as [s1 [k1 env1 tr1 m1]]. cbn in Hs1, Ht1.
  assert (Hlf : lockfile s1 = Some (File fd false)) by by rewrite Hs1.
  pose proof (loop_calls fuel start 0 s1 k1 env1 tr1 m1 fd tr1 Hlf eq_refl) as Hl.
  destruct (while_true fuel _ _) as [[[]|e|] st']; [| |done].
  - destruct Hl as (Hs & n' & Ht). exists n', fd. split; [congruence|].
    rewrite Ht, Ht1, Hs1. done.
  - destruct e; try done. destruct Hl as (-> & Hc & Hs & n' & Ht).
    rewrite Hs1 in Hc |- *. cbn in Hc |- *. split_and!; try done.
    exists n', fd. split; [by rewrite Hs, Hs1|by rewrite Ht, Ht1].
Qed.

(** [__exit__] on an open file, call by call. *)
Lemma exit_calls s k env tr m fd :
  lockfile s = Some (File fd false) →
  let unlocked :=
    fst (sys_flock m fd LOCK_UN (Env.run (hd [] env) k)) in
  let msg := match unlocked with
             | None => MsgReleased
             | Some e => MsgReleaseError (OSError e)
             end in
  let r := __exit__ (mkSt s (mkWorld k env tr m)) in
  trace (world (snd r))
  = EvClose fd :: said (debug s) msg ++ EvFlock fd LOCK_UN :: tr ∧
  ((fst r = Ok tt ∧ self (snd r) = set_lockfile None s) ∨
   (∃ e, fst r = Raise (OSError e) ∧
         self (snd r) = set_lockfile (Some (File fd true)) s)).
Proof.
  intros Hlf. cbn zeta.
  unfold __exit__, bind, gets, try_finally, try_except. cbn. rewrite Hlf. cbn.
  rewrite Hlf. cbn. rewrite prim_run. cbn.
  destruct (sys_flock _ _ _ _) as [[e|] k1]; cbn.
  all: unfold said; destruct (debug s); cbn;
    unfold logging_debug, close_attr, bind, gets, modify; rewrite ?prim_run;
    cbn; rewrite Hlf; cbn; rewrite prim_run; cbn;
    destruct (sys_close _ _ _) as [[e'|] k2]; cbn;
    (split; [done|]); first [by left|right; by eexists].
Qed.

End CallFacts.
Import CallFacts.

(** *** Acquisition and release together *)

(** X1.  Acquisition followed by release is a round trip.  For a handle of
    either class fresh from its constructor, in a world in order whose
    storage does not fail on [close]: when the acquisition returns, the
    [lockfile] attribute holds an open descriptor, and the release that
    follows returns normally, closes that descriptor, leaves the lock of
    the file to others, and leaves the handle with the attributes its
    constructor gave it, ready to be entered again. *)
Theorem acquire_release_round_trip (fuel : nat) (p : string)
    (tmo : option Q) (dbg : bool) (w : World) :
  good w → k_close_eio (kernel w) = false →
  (∀ st1,
     FileLock.__enter__ fuel (mkSt (FileLock.__init__ p tmo dbg) w)
       = (Ok tt, st1) →
     ∃ fd st2, FileLock.lockfile (self st1) = Some (File fd false) ∧
       FileLock.__exit__ st1 = (Ok tt, st2) ∧
       self st2 = FileLock.__init__ p tmo dbg ∧
       k_open (kernel (world st2)) !! fd = None ∧
       k_lock (kernel (world st2)) !! p ≠ Some fd) ∧
  (∀ st1,
     AsyncFileLock.__aenter__ fuel (mkSt (AsyncFileLock.__init__ p tmo dbg) w)
       = (Ok tt, st1) →
     ∃ fd st2, AsyncFileLock.lockfile (self st1) = Some (File fd false) ∧
       AsyncFileLock.__aexit__ st1 = (Ok tt, st2) ∧
       self st2 = AsyncFileLock.__init__ p tmo dbg ∧
       k_open (kernel (world st2)) !! fd = None ∧
       k_lock (kernel (world st2)) !! p ≠ Some fd).
Proof.
  intros Hgood Hce.
  assert (Hsync : ∀ w0 st1, good w0 → k_close_eio (kernel w0) = false →
    FileLock.__enter__ fuel (mkSt (FileLock.__init__ p tmo dbg) w0)
      = (Ok tt, st1) →
    ∃ fd st2, FileLock.lockfile (self st1) = Some (File fd false) ∧
      FileLock.__exit__ st1 = (Ok tt, st2) ∧
      self st2 = FileLock.__init__ p tmo dbg ∧
      k_open (kernel (world st2)) !! fd = None ∧
      k_lock (kernel (world st2)) !! p ≠ Some fd).
  { intros w0 st1 Hg0 Hce0 Hrun.
    destruct (enter_acquires fuel (mkSt (FileLock.__init__ p tmo dbg) w0) st1 Hg0 Hrun)
      as (fd & Hs & Hm & Hg1 & _ & Hh).
    destruct (enter_sound fuel (mkSt (FileLock.__init__ p tmo dbg) w0) Hg0)
      as (_ & Hfl & _).
    rewrite Hrun in Hfl. cbn in Hfl, Hs, Hm, Hh.
    assert (Hatt : attached fd st1).
    { split; [by rewrite Hs|]. rewrite Hs, Hm. apply Hh. }
    destruct (exit_spec st1 fd Hg1 Hatt) as (st2 & Hx & Hs2 & _ & _ & Hcl & Hl).
    rewrite (flags_close_eio _ _ Hfl), Hce0 in Hx, Hs2.
    exists fd, st2. split_and!; try done.
    - by rewrite Hs.
    - by rewrite Hs2, Hs.
    - by rewrite Hs in Hl. }
  split.
  - intros st1. by apply Hsync.
  - intros st1 Hrun. apply aenter_run in Hrun.
    destruct (Hsync (to_sync_world w) (to_sync st1) Hgood Hce Hrun)
      as (fd & sst2 & Hlf & Hx & Hs2 & Hcl & Hl).
    destruct (aexit_of_sync st1 _ _ Hx) as (st2 & Hx' & <-).
    exists fd, st2. split_and!; try done. by apply forget_inj.
Qed.

Lemma acquire_release_round_trip_witness :
  ∃ st2, FileLock.__exit__ (holding []) = (Ok tt, st2) ∧
         self st2 = FileLock.__init__ path None false.
Proof.
  destruct (acquire_release_round_trip 1 path None false (quiet k_boot))
    as (H & _).
  - split; [apply (bool_decide_unpack _); vm_compute; reflexivity|constructor].
  - reflexivity.
  - destruct (H (holding [])) as (fd & st2 & _ & Hx & Hs & _).
    + vm_compute. reflexivity.
    + exists st2. split; [exact Hx|exact Hs].
Defined.

(** X2.  The [with] statement releases however the block ends.  For a
    fresh handle of either class in a world in order whose storage does
    not fail on [close], and a block that leaves the handle alone: once
    the acquisition has returned and whatever the block does short of
    running for ever, return or raise, the statement as a whole returns
    what the block returned or raises what it raised, with the descriptor
    closed, the lock given up and the handle as its constructor made
    it. *)
Theorem with_block_always_releases {A} (fuel : nat)
    (body : M FileLock.t A) (abody : M AsyncFileLock.t A)
    (p : string) (tmo : option Q) (dbg : bool) (w : World) :
  good w → k_close_eio (kernel w) = false →
  (leaves_alone body →
   ∀ st1, FileLock.__enter__ fuel (mkSt (FileLock.__init__ p tmo dbg) w)
            = (Ok tt, st1) →
     fst (body st1) ≠ OutOfFuel →
     ∃ fd st3,
       with_ fuel body (mkSt (FileLock.__init__ p tmo dbg) w)
         = (fst (body st1), st3) ∧
       FileLock.lockfile (self st1) = Some (File fd false) ∧
       self st3 = FileLock.__init__ p tmo dbg ∧
       k_open (kernel (world st3)) !! fd = None ∧
       k_lock (kernel (world st3)) !! p ≠ Some fd) ∧
  (aleaves_alone abody →
   ∀ st1, AsyncFileLock.__aenter__ fuel
            (mkSt (AsyncFileLock.__init__ p tmo dbg) w) = (Ok tt, st1) →
     fst (abody st1) ≠ OutOfFuel →
     ∃ fd st3,
       async_with fuel abody (mkSt (AsyncFileLock.__init__ p tmo dbg) w)
         = (fst (abody st1), st3) ∧
       AsyncFileLock.lockfile (self st1) = Some (File fd false) ∧
       self st3 = AsyncFileLock.__init__ p tmo dbg ∧
       k_open (kernel (world st3)) !! fd = None ∧
       k_lock (kernel (world st3)) !! p ≠ Some fd).
Proof.
  intros Hgood Hce. split.
  - intros Hbody st1 Hrun Hr. by apply with_releases.
  - intros Hbody st1 Hrun Hr. by apply async_with_releases.
Qed.

Lemma with_block_always_releases_witness :
  ∃ st3, with_ 1 (bind (time_sleep 3) (fun _ => raise (A:=unit) ValueError))
           (mkSt (FileLock.__init__ path None true) (quiet k_boot))
         = (Raise ValueError, st3) ∧
         self st3 = FileLock.__init__ path None true.
Proof.
  assert (Hb : leaves_alone
                 (bind (time_sleep 3) (fun _ => raise (A:=unit) ValueError))).
  { intros st fd Hg Ha.
    destruct (sleep_leaves_alone 3 ltac:(done) st fd Hg Ha) as (? & ? & ? & ? & ?).
    unfold bind. destruct (time_sleep 3 st) as [[[]|e|] st']; done. }
  destruct (with_block_always_releases 1
              (bind (time_sleep 3) (fun _ => raise (A:=unit) ValueError))
              (asyncio_sleep 3) path None true (quiet k_boot))
    as (H & _).
  - split; [apply (bool_decide_unpack _); vm_compute; reflexivity|constructor].
  - reflexivity.
  - destruct (H Hb (snd (FileLock.__enter__ 1
        (mkSt (FileLock.__init__ path None true) (quiet k_boot)))))
      as (fd & st3 & Hw & _ & Hs & _).
    + vm_compute. reflexivity.
    + vm_compute. discriminate.
    + exists st3. split; [exact Hw|exact Hs].
Defined.

(** *** When an acquisition returns *)

(** X3.  A free lock is taken at the first request, whatever the timeout.
    In a world in order on a machine with lock records to spare, when
    nobody holds the lock of the file and the others ask for no lock, the
    acquisition of a fresh handle of either class, with any [timeout]
    (none, zero, negative or positive): fails before its loop when
    [os.makedirs] or [open] fails, with the [OSError] of that call; and
    otherwise returns within the first round of its loop, holding the lock
    through the descriptor of its [lockfile] attribute. *)
Theorem free_lock_is_taken_at_once (fuel : nat) (p : string)
    (tmo : option Q) (dbg : bool) (w : World) :
  good w → k_enolck (kernel w) = false →
  k_lock (kernel w) !! p = None → calm_script (env w) →
  match opening_error p w with
  | Some e =>
    ∀ n,
      fst (FileLock.__enter__ n (mkSt (FileLock.__init__ p tmo dbg) w))
        = Raise (OSError e) ∧
      fst (AsyncFileLock.__aenter__ n
             (mkSt (AsyncFileLock.__init__ p tmo dbg) w))
        = Raise (OSError e)
  | None =>
    (∃ fd st', FileLock.__enter__ (S fuel)
                 (mkSt (FileLock.__init__ p tmo dbg) w) = (Ok tt, st') ∧
       FileLock.lockfile (self st') = Some (File fd false) ∧
       holds (kernel (world st')) (me w) p fd) ∧
    (∃ fd st', AsyncFileLock.__aenter__ (S fuel)
                 (mkSt (AsyncFileLock.__init__ p tmo dbg) w) = (Ok tt, st') ∧
       AsyncFileLock.lockfile (self st') = Some (File fd false) ∧
       holds (kernel (world st')) (me w) p fd)
  end.
Proof.
  intros Hgood Hen Hfree Hcalm.
  assert (Hsync : ∀ w0, good w0 → k_enolck (kernel w0) = false →
    k_lock (kernel w0) !! p = None → calm_script (env w0) →
    match opening_error p w0 with
    | Some e =>
      ∀ n, fst (FileLock.__enter__ n (mkSt (FileLock.__init__ p tmo dbg) w0))
           = Raise (OSError e)
    | None =>
      ∃ fd st', FileLock.__enter__ (S fuel)
                  (mkSt (FileLock.__init__ p tmo dbg) w0) = (Ok tt, st') ∧
        FileLock.lockfile (self st') = Some (File fd false) ∧
        holds (kernel (world st')) (me w0) p fd
    end).
  { intros w0 Hg0 Hen0 Hfree0 Hcalm0.
    apply (opening_decides (mkSt (FileLock.__init__ p tmo dbg) w0)).
    destruct (enter_handover fuel (mkSt (FileLock.__init__ p tmo dbg) w0)
                (me w0) 0) as [?|(fd & st' & Hrun & Hs & Hh)]; try done.
    - split_and!; [apply Hg0|done|by left].
    - by left.
    - by left.
    - right. exists fd, st'. split_and!; try done. by rewrite Hs. }
  pose proof (Hsync w Hgood Hen Hfree Hcalm) as Hs.
  pose proof (Hsync (to_sync_world w) Hgood Hen Hfree Hcalm) as Ha.
  rewrite opening_error_async in Ha.
  destruct (opening_error p w) as [e|].
  - intros n. split; [apply Hs|]. rewrite aenter_fst. apply Ha.
  - split; [exact Hs|]. destruct Ha as (fd & sst' & Hrun & Hlf & Hh).
    destruct (aenter_of_sync (S fuel)
                (mkSt (AsyncFileLock.__init__ p tmo dbg) w) _ _ Hrun)
      as (st' & Hrun' & <-).
    by exists fd, st'.
Qed.

Lemma free_lock_is_taken_at_once_witness :
  ∃ fd st', FileLock.__enter__ 1 (mkSt (FileLock.__init__ path (Some 0%Q) true)
                                    (quiet k_boot)) = (Ok tt, st') ∧
            holds (kernel (world st')) 0 path fd.
Proof.
  assert (Hg : good (quiet k_boot)).
  { split; [apply (bool_decide_unpack _); vm_compute; reflexivity|constructor]. }
  assert (Hen : k_enolck (kernel (quiet k_boot)) = false) by reflexivity.
  assert (Hfree : k_lock (kernel (quiet k_boot)) !! path = None)
    by reflexivity.
  assert (Hcalm : calm_script (env (quiet k_boot))) by constructor.
  assert (E : opening_error path (quiet k_boot) = None)
    by (vm_compute; reflexivity).
  pose proof (free_lock_is_taken_at_once 0 path (Some 0%Q) true (quiet k_boot)
                Hg Hen Hfree Hcalm) as H.
  rewrite E in H. destruct H as ((fd & st' & Hrun & _ & Hh) & _).
  exists fd, st'. split; [exact Hrun|exact Hh].
Defined.

(** X4.  A waiting handle gets the lock once its holder lets go.  Another
    contender holds the lock and, in one of the batches of the finite
    script of the others (a batch runs before each call of the handle),
    closes its descriptor; nobody asks for the lock meanwhile.  Then the
    acquisition of a fresh handle of either class whose timeout does not
    count (none, or zero) does not poll for ever: it fails before its loop
    when [os.makedirs] or [open] fails, with the [OSError] of that call;
    and otherwise it returns, holding the lock, within one round more than
    the script has batches. *)
Theorem waiter_acquires_after_release (p : string) (tmo : option Q)
    (dbg : bool) (w : World) (o g : nat) :
  good w → k_enolck (kernel w) = false →
  match tmo with Some q => truthy q | None => false end = false →
  o ≠ me w → holds (kernel w) o p g →
  calm_script (env w) → only_closes o g (env w) → releases o g (env w) →
  match opening_error p w with
  | Some e =>
    ∀ n,
      fst (FileLock.__enter__ n (mkSt (FileLock.__init__ p tmo dbg) w))
        = Raise (OSError e) ∧
      fst (AsyncFileLock.__aenter__ n
             (mkSt (AsyncFileLock.__init__ p tmo dbg) w))
        = Raise (OSError e)
  | None =>
    (∃ fd st', FileLock.__enter__ (S (length (env w)))
                 (mkSt (FileLock.__init__ p tmo dbg) w) = (Ok tt, st') ∧
       FileLock.lockfile (self st') = Some (File fd false) ∧
       holds (kernel (world st')) (me w) p fd) ∧
    (∃ fd st', AsyncFileLock.__aenter__ (S (length (env w)))
                 (mkSt (AsyncFileLock.__init__ p tmo dbg) w) = (Ok tt, st') ∧
       AsyncFileLock.lockfile (self st') = Some (File fd false) ∧
       holds (kernel (world st')) (me w) p fd)
  end.
Proof.
  intros Hgood Hen Hfalsy Hne Hh Hcalm Honly Hrel.
  assert (Hsync : ∀ w0, good w0 → k_enolck (kernel w0) = false →
    o ≠ me w0 → holds (kernel w0) o p g →
    calm_script (env w0) → only_closes o g (env w0) → releases o g (env w0) →
    match opening_error p w0 with
    | Some e =>
      ∀ n, fst (FileLock.__enter__ n (mkSt (FileLock.__init__ p tmo dbg) w0))
           = Raise (OSError e)
    | None =>
      ∃ fd st', FileLock.__enter__ (S (length (env w0)))
                  (mkSt (FileLock.__init__ p tmo dbg) w0) = (Ok tt, st') ∧
        FileLock.lockfile (self st') = Some (File fd false) ∧
        holds (kernel (world st')) (me w0) p fd
    end).
  { intros w0 Hg0 Hen0 Hne0 Hh0 Hcalm0 Honly0 Hrel0.
    apply (opening_decides (mkSt (FileLock.__init__ p tmo dbg) w0)).
    destruct (enter_handover (length (env w0))
                (mkSt (FileLock.__init__ p tmo dbg) w0) o g)
      as [?|(fd & st' & Hrun & Hs & Hh')]; try done.
    - split_and!; [apply Hg0|done|by right].
    - right. split; [done|cbn; lia].
    - by left.
    - right. exists fd, st'. split_and!; try done. by rewrite Hs. }
  pose proof (Hsync w Hgood Hen Hne Hh Hcalm Honly Hrel) as Hs.
  pose proof (Hsync (to_sync_world w) Hgood Hen Hne Hh Hcalm Honly Hrel) as Ha.
  rewrite opening_error_async in Ha.
  destruct (opening_error p w) as [e|].
  - intros n. split; [apply Hs|]. rewrite aenter_fst. apply Ha.
  - split; [exact Hs|]. destruct Ha as (fd & sst' & Hrun & Hlf & Hh').
    destruct (aenter_of_sync (S (length (env w)))
                (mkSt (AsyncFileLock.__init__ p tmo dbg) w) _ _ Hrun)
      as (st' & Hrun' & <-).
    by exists fd, st'.
Qed.

Lemma waiter_acquires_after_release_witness :
  ∃ fd st', FileLock.__enter__ 7
              (mkSt (FileLock.__init__ path None false)
                 (world_of k_held [[]; []; []; []; []; [Env.Close 1 0]]))
            = (Ok tt, st') ∧
            holds (kernel (world st')) 0 path fd.
Proof.
  assert (Hg : good (world_of k_held [[]; []; []; []; []; [Env.Close 1 0]])).
  { split; [apply (bool_decide_unpack _); vm_compute; reflexivity|].
    repeat constructor. cbn. lia. }
  assert (Hen : k_enolck (kernel (world_of k_held
                  [[]; []; []; []; []; [Env.Close 1 0]])) = false)
    by reflexivity.
  assert (Hne : 1 ≠ me (world_of k_held [[]; []; []; []; []; [Env.Close 1 0]]))
    by (cbn; lia).
  assert (Hh : holds (kernel (world_of k_held
                 [[]; []; []; []; []; [Env.Close 1 0]])) 1 path 0)
    by (split; reflexivity).
  assert (Hcalm : calm_script [[]; []; []; []; []; [Env.Close 1 0]])
    by repeat constructor.
  assert (Honly : only_closes 1 0 [[]; []; []; []; []; [Env.Close 1 0]]).
  { unfold only_closes.
    repeat (apply Forall_cons; split); try apply Forall_nil; try exact I.
    right. reflexivity. }
  assert (Hrel : releases 1 0 [[]; []; []; []; []; [Env.Close 1 0]]).
  { do 5 apply Exists_cons_tl. apply Exists_cons_hd. constructor. }
  assert (E : opening_error path
                (world_of k_held [[]; []; []; []; []; [Env.Close 1 0]]) = None)
    by (vm_compute; reflexivity).
  pose proof (waiter_acquires_after_release path None false
                (world_of k_held [[]; []; []; []; []; [Env.Close 1 0]]) 1 0
                Hg Hen eq_refl Hne Hh Hcalm Honly Hrel) as H.
  rewrite E in H. destruct H as ((fd & st' & Hrun & _ & Hh') & _).
  exists fd, st'. split; [exact Hrun|exact Hh'].
Defined.

(** *** Exclusion inside a process *)

(** X5.  The lock is not reentrant.  While the contender that runs the
    handle holds the lock of the file itself, through the descriptor of
    another handle (in another thread or task, or further up the stack),
    the acquisition of a fresh handle of either class on that file never
    returns, with any amount of fuel: it polls, or it times out. *)
Theorem second_handle_is_excluded (fuel : nat) (p : string) (tmo : option Q)
    (dbg : bool) (w : World) (g : nat) :
  good w → holds (kernel w) (me w) p g →
  (∀ st', FileLock.__enter__ fuel (mkSt (FileLock.__init__ p tmo dbg) w)
          ≠ (Ok tt, st')) ∧
  (∀ st', AsyncFileLock.__aenter__ fuel
            (mkSt (AsyncFileLock.__init__ p tmo dbg) w) ≠ (Ok tt, st')).
Proof.
  intros Hgood Hh. split.
  - apply (enter_beside_never_acquires fuel _ g). by split_and!.
  - intros st' Hrun. apply aenter_run in Hrun. revert Hrun.
    apply (enter_beside_never_acquires fuel _ g). by split_and!.
Qed.

Lemma second_handle_is_excluded_witness :
  holds (kernel (world (holding []))) (me (world (holding []))) path 0 ∧
  ∀ st', FileLock.__enter__ 4
           (mkSt (FileLock.__init__ path (Some (1 # 5)) false)
              (world (holding [])))
         ≠ (Ok tt, st').
Proof.
  assert (Hh : holds (kernel (world (holding []))) (me (world (holding [])))
                 path 0) by (split; reflexivity).
  split; [exact Hh|].
  destruct (second_handle_is_excluded 4 path (Some (1 # 5)) false
              (world (holding [])) 0) as (H & _).
  - split; [apply (bool_decide_unpack _); vm_compute; reflexivity|constructor].
  - exact Hh.
  - exact H.
Defined.

Example nested_with_times_out :
  fst (FileLock.__enter__ 4
         (mkSt (FileLock.__init__ path (Some (1 # 5)) false)
            (world (holding []))))
  = Raise (TimeoutError (Some (1 # 5))).
Proof. vm_compute. reflexivity. Qed.

(** *** What a handle never does to the others *)

(** X6.  A handle never breaks the lock of another contender.  When a
    contender other than the one running the handle holds the lock of any
    file and does nothing by itself, it still holds it after any method of
    either class, called on a handle in any state and however the call
    ends: acquisition (returned, timed out, failed or still polling),
    release and probe. *)
Theorem foreign_lock_survives (fuel : nat) (s : FileLock.t)
    (a : AsyncFileLock.t) (w : World) (o g : nat) (p : string) :
  bystander o g p w →
  (bystander o g p (world (snd (FileLock.__enter__ fuel (mkSt s w)))) ∧
   bystander o g p (world (snd (FileLock.__exit__ (mkSt s w)))) ∧
   bystander o g p (world (snd (FileLock.is_locked (mkSt s w))))) ∧
  (bystander o g p (world (snd (AsyncFileLock.__aenter__ fuel (mkSt a w)))) ∧
   bystander o g p (world (snd (AsyncFileLock.__aexit__ (mkSt a w)))) ∧
   bystander o g p (world (snd (AsyncFileLock.is_locked (mkSt a w))))).
Proof.
  intros H.
  destruct (bystander_kept o g p) as (He & Hx & Hl & Hae & Hax & Hal).
  split; split_and!.
  - by apply (He fuel (mkSt s w)).
  - by apply (Hx (mkSt s w)).
  - by apply (Hl (mkSt s w)).
  - by apply (Hae fuel (mkSt a w)).
  - by apply (Hax (mkSt a w)).
  - by apply (Hal (mkSt a w)).
Qed.

Lemma foreign_lock_survives_witness :
  bystander 1 0 path (quiet k_held) ∧
  holds (kernel (world (snd (FileLock.__enter__ 4
           (mkSt (sync_handle (Some (1 # 5)) false) (quiet k_held))))))
        1 path 0.
Proof.
  assert (H : bystander 1 0 path (quiet k_held)).
  { split_and!.
    - apply (bool_decide_unpack _). vm_compute. reflexivity.
    - cbn. lia.
    - constructor.
    - split; reflexivity. }
  split; [exact H|].
  destruct (foreign_lock_survives 4 (sync_handle (Some (1 # 5)) false)
              (async_handle None false) (quiet k_held) 1 0 path H)
    as (((_ & _ & _ & Hh) & _) & _).
  exact Hh.
Defined.

(** *** Timeouts *)

(** X7.  A timeout never fires early.  In a world in order, when the
    acquisition of a handle of either class raises [TimeoutError], the
    error carries the [timeout] of the handle, that timeout is a number
    other than zero, and the clock has advanced by more than it since the
    call began. *)
Theorem timeout_never_early (fuel : nat) (s : FileLock.t)
    (a : AsyncFileLock.t) (w : World) (t : option Q) :
  good w →
  (∀ st', FileLock.__enter__ fuel (mkSt s w) = (Raise (TimeoutError t), st') →
     ∃ q, t = Some q ∧ FileLock.timeout s = Some q ∧ truthy q = true ∧
          (q < k_now (kernel (world st')) - k_now (kernel w))%Q) ∧
  (∀ st', AsyncFileLock.__aenter__ fuel (mkSt a w)
            = (Raise (TimeoutError t), st') →
     ∃ q, t = Some q ∧ AsyncFileLock.timeout a = Some q ∧ truthy q = true ∧
          (q < k_now (kernel (world st')) - k_now (kernel w))%Q).
Proof.
  intros Hgood. split.
  - intros st' Hrun. by apply (enter_timeout fuel (mkSt s w) t st').
  - intros st' Hrun. apply aenter_run in Hrun.
    by apply (enter_timeout fuel (to_sync (mkSt a w)) t (to_sync st')).
Qed.

Lemma timeout_never_early_witness :
  ∃ q, Some (1 # 5)%Q = Some q ∧ truthy q = true ∧
       (q < k_now (kernel (world timed_out)) - 0)%Q.
Proof.
  destruct (timeout_never_early 4 (sync_handle (Some (1 # 5)) false)
              (async_handle None false) (quiet k_held) (Some (1 # 5)))
    as (H & _).
  - split; [apply (bool_decide_unpack _); vm_compute; reflexivity|constructor].
  - destruct (H timed_out) as (q & Ht & _ & Htr & Hq).
    + vm_compute. reflexivity.
    + exists q. split_and!; [exact Ht|exact Htr|exact Hq].
Defined.

(** X8.  A timeout that counts does fire.  Another contender holds the
    lock and keeps it, on a machine in good health.  The acquisition of a
    fresh handle of either class whose [timeout] is a number other than
    zero (a finite one: the floats [inf] and [nan] are no numbers and are
    outside this model, see the modelling choices) fails before its loop
    when [os.makedirs] or [open] fails, with the [OSError] of that call;
    and otherwise, given fuel enough, raises [TimeoutError] carrying the
    timeout, with the descriptor closed in the kernel and the closed file
    left in the [lockfile] attribute. *)
Theorem nonzero_timeout_expires (p : string) (q : Q) (dbg : bool)
    (w : World) (o g : nat) :
  good w → k_enolck (kernel w) = false → k_close_eio (kernel w) = false →
  o ≠ me w → Env.foreign_script o (env w) → holds (kernel w) o p g →
  truthy q = true →
  match opening_error p w with
  | Some e =>
    ∀ n,
      fst (FileLock.__enter__ n (mkSt (FileLock.__init__ p (Some q) dbg) w))
        = Raise (OSError e) ∧
      fst (AsyncFileLock.__aenter__ n
             (mkSt (AsyncFileLock.__init__ p (Some q) dbg) w))
        = Raise (OSError e)
  | None =>
    (∃ fuel fd st',
       FileLock.__enter__ fuel (mkSt (FileLock.__init__ p (Some q) dbg) w)
         = (Raise (TimeoutError (Some q)), st') ∧
       FileLock.lockfile (self st') = Some (File fd true) ∧
       k_open (kernel (world st')) !! fd = None) ∧
    (∃ fuel fd st',
       AsyncFileLock.__aenter__ fuel
         (mkSt (AsyncFileLock.__init__ p (Some q) dbg) w)
         = (Raise (TimeoutError (Some q)), st') ∧
       AsyncFileLock.lockfile (self st') = Some (File fd true) ∧
       k_open (kernel (world st')) !! fd = None)
  end.
Proof.
  intros Hgood Hen Hce Hne Hfo Hh Htr.
  assert (Hsync : ∀ w0, good w0 → k_enolck (kernel w0) = false →
    k_close_eio (kernel w0) = false → o ≠ me w0 →
    Env.foreign_script o (env w0) → holds (kernel w0) o p g →
    match opening_error p w0 with
    | Some e =>
      ∀ n, fst (FileLock.__enter__ n
                  (mkSt (FileLock.__init__ p (Some q) dbg) w0))
           = Raise (OSError e)
    | None =>
      ∃ fuel fd st',
        FileLock.__enter__ fuel (mkSt (FileLock.__init__ p (Some q) dbg) w0)
          = (Raise (TimeoutError (Some q)), st') ∧
        FileLock.lockfile (self st') = Some (File fd true) ∧
        k_open (kernel (world st')) !! fd = None
    end).
  { intros w0 Hg0 Hen0 Hce0 Hne0 Hfo0 Hh0.
    apply (opening_decides (mkSt (FileLock.__init__ p (Some q) dbg) w0)).
    destruct (enter_contended_expires
                (mkSt (FileLock.__init__ p (Some q) dbg) w0) o g q)
      as [(e & st' & _ & H)|(fuel & fd & st' & Hrun & Hs & Hcl)]; try done.
    - left. exists e. intros fuel. destruct (H fuel) as [-> _]. done.
    - right. exists fuel, fd, st'. split_and!; try done. by rewrite Hs. }
  pose proof (Hsync w Hgood Hen Hce Hne Hfo Hh) as Hs.
  pose proof (Hsync (to_sync_world w) Hgood Hen Hce Hne Hfo Hh) as Ha.
  rewrite opening_error_async in Ha.
  destruct (opening_error p w) as [e|].
  - intros n. split; [apply Hs|]. rewrite aenter_fst. apply Ha.
  - split; [exact Hs|]. destruct Ha as (fuel & fd & sst' & Hrun & Hlf & Hcl).
    destruct (aenter_of_sync fuel
                (mkSt (AsyncFileLock.__init__ p (Some q) dbg) w) _ _ Hrun)
      as (st' & Hrun' & <-).
    by exists fuel, fd, st'.
Qed.

Lemma nonzero_timeout_expires_witness :
  ∃ fuel fd st',
    FileLock.__enter__ fuel
      (mkSt (FileLock.__init__ path (Some (1 # 5)) false) (quiet k_held))
    = (Raise (TimeoutError (Some (1 # 5))), st') ∧
    k_open (kernel (world st')) !! fd = None.
Proof.
  assert (Hg : good (quiet k_held)).
  { split; [apply (bool_decide_unpack _); vm_compute; reflexivity|constructor]. }
  assert (Hen : k_enolck (kernel (quiet k_held)) = false) by reflexivity.
  assert (Hce : k_close_eio (kernel (quiet k_held)) = false) by reflexivity.
  assert (Hne : 1 ≠ me (quiet k_held)) by (cbn; lia).
  assert (Hfo : Env.foreign_script 1 (env (quiet k_held))) by constructor.
  assert (Hh : holds (kernel (quiet k_held)) 1 path 0) by (split; reflexivity).
  assert (E : opening_error path (quiet k_held) = None)
    by (vm_compute; reflexivity).
  pose proof (nonzero_timeout_expires path (1 # 5) false (quiet k_held) 1 0
                Hg Hen Hce Hne Hfo Hh eq_refl) as H.
  rewrite E in H. destruct H as ((fuel & fd & st' & Hrun & _ & Hcl) & _).
  exists fuel, fd, st'. split; [exact Hrun|exact Hcl].
Defined.

(** X9.  A negative timeout gives up at the first refusal.  Another
    contender holds the lock and keeps it, on a machine in good health.
    The acquisition of a fresh handle of either class with a negative
    [timeout] fails before its loop when [os.makedirs] or [open] fails,
    with the [OSError] of that call; and otherwise ends within the first
    round of its loop, so at the first refusal and without sleeping, in
    [TimeoutError] carrying the timeout. *)
Theorem negative_timeout_gives_up_at_once (fuel : nat) (p : string) (q : Q)
    (dbg : bool) (w : World) (o g : nat) :
  good w → k_enolck (kernel w) = false → k_close_eio (kernel w) = false →
  o ≠ me w → Env.foreign_script o (env w) → holds (kernel w) o p g →
  (q < 0)%Q →
  match opening_error p w with
  | Some e =>
    ∀ n,
      fst (FileLock.__enter__ n (mkSt (FileLock.__init__ p (Some q) dbg) w))
        = Raise (OSError e) ∧
      fst (AsyncFileLock.__aenter__ n
             (mkSt (AsyncFileLock.__init__ p (Some q) dbg) w))
        = Raise (OSError e)
  | None =>
    fst (FileLock.__enter__ (S fuel)
           (mkSt (FileLock.__init__ p (Some q) dbg) w))
      = Raise (TimeoutError (Some q)) ∧
    fst (AsyncFileLock.__aenter__ (S fuel)
           (mkSt (AsyncFileLock.__init__ p (Some q) dbg) w))
      = Raise (TimeoutError (Some q))
  end.
Proof.
  intros Hgood Hen Hce Hne Hfo Hh Hq.
  assert (Hsync : ∀ w0, good w0 → k_enolck (kernel w0) = false →
    k_close_eio (kernel w0) = false → o ≠ me w0 →
    Env.foreign_script o (env w0) → holds (kernel w0) o p g →
    match opening_error p w0 with
    | Some e =>
      ∀ n, fst (FileLock.__enter__ n
                  (mkSt (FileLock.__init__ p (Some q) dbg) w0))
           = Raise (OSError e)
    | None =>
      fst (FileLock.__enter__ (S fuel)
             (mkSt (FileLock.__init__ p (Some q) dbg) w0))
        = Raise (TimeoutError (Some q))
    end).
  { intros w0 Hg0 Hen0 Hce0 Hne0 Hfo0 Hh0.
    apply (opening_decides (mkSt (FileLock.__init__ p (Some q) dbg) w0)).
    by apply (enter_negative fuel _ o g q). }
  pose proof (Hsync w Hgood Hen Hce Hne Hfo Hh) as Hs.
  pose proof (Hsync (to_sync_world w) Hgood Hen Hce Hne Hfo Hh) as Ha.
  rewrite opening_error_async in Ha.
  destruct (opening_error p w) as [e|].
  - intros n. split; [apply Hs|]. rewrite aenter_fst. apply Ha.
  - split; [exact Hs|]. rewrite aenter_fst. exact Ha.
Qed.

Lemma negative_timeout_gives_up_at_once_witness :
  fst (FileLock.__enter__ 1
         (mkSt (FileLock.__init__ path (Some (-1)%Q) false) (quiet k_held)))
    = Raise (TimeoutError (Some (-1)%Q)).
Proof.
  assert (Hg : good (quiet k_held)).
  { split; [apply (bool_decide_unpack _); vm_compute; reflexivity|constructor]. }
  assert (Hen : k_enolck (kernel (quiet k_held)) = false) by reflexivity.
  assert (Hce : k_close_eio (kernel (quiet k_held)) = false) by reflexivity.
  assert (Hne : 1 ≠ me (quiet k_held)) by (cbn; lia).
  assert (Hfo : Env.foreign_script 1 (env (quiet k_held))) by constructor.
  assert (Hh : holds (kernel (quiet k_held)) 1 path 0) by (split; reflexivity).
  assert (Hq : (-1 < 0)%Q) by reflexivity.
  assert (E : opening_error path (quiet k_held) = None)
    by (vm_compute; reflexivity).
  pose proof (negative_timeout_gives_up_at_once 0 path (-1) false
                (quiet k_held) 1 0 Hg Hen Hce Hne Hfo Hh Hq) as H.
  rewrite E in H. exact (proj1 H).
Defined.

(** *** Edge cases of the path and of the handle *)

(** X10.  A path that ends in a separator cannot be locked.  For a handle
    of either class, in any state and any world, whose [lockfile_path]
    ends in ["/"], the acquisition raises an [OSError] (the one of
    [os.makedirs], or [IsADirectoryError] from [open]) and leaves the
    attributes of the handle as they were. *)
Theorem trailing_slash_never_locks (fuel : nat) (s : FileLock.t)
    (a : AsyncFileLock.t) (w : World) :
  (ends_with_sep (FileLock.lockfile_path s) = true →
   ∃ e st', FileLock.__enter__ fuel (mkSt s w) = (Raise (OSError e), st') ∧
            self st' = s) ∧
  (ends_with_sep (AsyncFileLock.lockfile_path a) = true →
   ∃ e st', AsyncFileLock.__aenter__ fuel (mkSt a w)
              = (Raise (OSError e), st') ∧
            self st' = a).
Proof.
  split.
  - intros Hp. by apply (enter_trailing fuel (mkSt s w)).
  - intros Hp.
    destruct (enter_trailing fuel (to_sync (mkSt a w)) Hp) as (e & sst' & Hrun & Hs).
    destruct (aenter_of_sync _ _ _ _ Hrun) as (st' & Hrun' & <-).
    exists e, st'. split; [done|]. by apply forget_inj.
Qed.

Lemma trailing_slash_never_locks_witness :
  ∃ e st', FileLock.__enter__ 1
             (mkSt (FileLock.__init__ "/tmp/locks/" None false) (quiet k_boot))
           = (Raise (OSError e), st') ∧
           self st' = FileLock.__init__ "/tmp/locks/" None false.
Proof.
  destruct (trailing_slash_never_locks 1
              (FileLock.__init__ "/tmp/locks/" None false)
              (AsyncFileLock.__init__ "/tmp/locks/" None false)
              (quiet k_boot)) as (H & _).
  apply H. reflexivity.
Defined.

Example trailing_slash_is_a_directory :
  fst (FileLock.__enter__ 1
         (mkSt (FileLock.__init__ "/tmp/locks/" None false) (quiet k_boot)))
  = Raise (OSError EISDIR).
Proof. vm_compute. reflexivity. Qed.

(** X11.  A handle can be entered again after a timeout.  The acquisition
    assigns the [lockfile] attribute before it reads it: on a handle whose
    attribute holds a closed file, as a timed-out acquisition leaves it,
    the acquisition ends as it does on a fresh handle with the same
    arguments, has the same effects on the world, and, when it returns,
    leaves the same handle. *)
Theorem reenter_after_timeout (fuel : nat) (p : string) (tmo : option Q)
    (dbg : bool) (fd : nat) (w : World) :
  (let r := FileLock.__enter__ fuel
              (mkSt (FileLock.mk p tmo dbg (Some (File fd true))) w) in
   let r' := FileLock.__enter__ fuel
               (mkSt (FileLock.__init__ p tmo dbg) w) in
   fst r = fst r' ∧ world (snd r) = world (snd r') ∧
   (fst r = Ok tt → self (snd r) = self (snd r'))) ∧
  (let r := AsyncFileLock.__aenter__ fuel
              (mkSt (AsyncFileLock.mk p tmo dbg (Some (File fd true))
                       AsyncFileLock.event_loop) w) in
   let r' := AsyncFileLock.__aenter__ fuel
               (mkSt (AsyncFileLock.__init__ p tmo dbg) w) in
   fst r = fst r' ∧ world (snd r) = world (snd r') ∧
   (fst r = Ok tt → self (snd r) = self (snd r'))).
Proof.
  split.
  - apply enter_overwrites.
  - apply aenter_overwrites.
Qed.

(** *** Diagnostics *)

(** X12.  Without [debug] nothing is logged.  For a handle of either class
    whose [debug] attribute is false, in any state and any world, no
    method hands a line to [logging.debug], however the call ends: the log
    after acquisition, release or probe is the log before. *)
Theorem silent_without_debug (fuel : nat) (s : FileLock.t)
    (a : AsyncFileLock.t) (w : World) :
  (FileLock.debug s = false →
   log (trace (world (snd (FileLock.__enter__ fuel (mkSt s w)))))
     = log (trace w) ∧
   log (trace (world (snd (FileLock.__exit__ (mkSt s w))))) = log (trace w) ∧
   log (trace (world (snd (FileLock.is_locked (mkSt s w))))) = log (trace w)) ∧
  (AsyncFileLock.debug a = false →
   log (trace (world (snd (AsyncFileLock.__aenter__ fuel (mkSt a w)))))
     = log (trace w) ∧
   log (trace (world (snd (AsyncFileLock.__aexit__ (mkSt a w)))))
     = log (trace w) ∧
   log (trace (world (snd (AsyncFileLock.is_locked (mkSt a w)))))
     = log (trace w)).
Proof.
  assert (Hsync : ∀ (s0 : FileLock.t) w0, FileLock.debug s0 = false →
    log (trace (world (snd (FileLock.__enter__ fuel (mkSt s0 w0)))))
      = log (trace w0) ∧
    log (trace (world (snd (FileLock.__exit__ (mkSt s0 w0))))) = log (trace w0) ∧
    log (trace (world (snd (FileLock.is_locked (mkSt s0 w0))))) = log (trace w0)).
  { intros s0 w0 Hd. split_and!.
    - by apply (silent_enter (log (trace w0)) fuel (mkSt s0 w0)).
    - by apply (silent_exit (log (trace w0)) (mkSt s0 w0)).
    - by apply (silent_is_locked (log (trace w0)) (mkSt s0 w0)). }
  split; [by apply Hsync|].
  intros Hd. destruct (Hsync (forget a) (to_sync_world w) Hd) as (He & Hx & Hl).
  cbn in He, Hx, Hl. rewrite log_erase in He, Hx, Hl.
  split_and!.
  - rewrite <- He, <- (log_erase (trace _)).
    change (omap erase (trace (world ?st))) with (trace (world (to_sync st))).
    by rewrite aenter_snd.
  - rewrite <- Hx, <- (log_erase (trace _)).
    change (omap erase (trace (world ?st))) with (trace (world (to_sync st))).
    by rewrite aexit_snd.
  - rewrite <- Hl, <- (log_erase (trace _)).
    change (omap erase (trace (world ?st))) with (trace (world (to_sync st))).
    by rewrite ais_locked_snd.
Qed.

Lemma silent_without_debug_witness :
  log (trace (world (snd (FileLock.__enter__ 4
         (mkSt (sync_handle (Some (1 # 5)) false) (quiet k_held))))))
  = log (trace (quiet k_held)).
Proof.
  destruct (silent_without_debug 4 (sync_handle (Some (1 # 5)) false)
              (async_handle None false) (quiet k_held)) as (H & _).
  destruct H as (He & _); [reflexivity|exact He].
Defined.

(** *** The calls, in order *)

(** X13.  [AsyncFileLock] never blocks the event loop.  From any state, in
    the events of [__aenter__], [__aexit__] and [is_locked], every call
    into the file system ([os.makedirs], [open], [fcntl.flock], [close])
    comes right after a dispatch to the executor, and the thread is never
    put to sleep: the waiting is done by [asyncio.sleep]. *)
Theorem async_calls_are_dispatched (fuel : nat) (st : St AsyncFileLock.t) :
  since (trace (world st)) (λ new, dispatched new = true)
    (snd (AsyncFileLock.__aenter__ fuel st)) ∧
  since (trace (world st)) (λ new, dispatched new = true)
    (snd (AsyncFileLock.__aexit__ st)) ∧
  since (trace (world st)) (λ new, dispatched new = true)
    (snd (AsyncFileLock.is_locked st)).
Proof.
  assert (H0 : since (trace (world st)) (λ new, dispatched new = true) st)
    by by exists [].
  split_and!.
  - by apply dispatch_aenter.
  - by apply dispatch_aexit.
  - by apply dispatch_ais_locked.
Qed.

Example sync_calls_are_not_dispatched :
  dispatched (trace (world (holding []))) = false ∧
  dispatched (trace (world (aholding []))) = true.
Proof. split; vm_compute; reflexivity. Qed.

(** X14.  The calls of an acquisition.  From any state of a handle of
    either class: an acquisition that returns has made the directory,
    opened the file, logged the attempt when [debug] is on, read the
    clock, then run some number [n] of rounds, each a refused request,
    the clock again when the timeout counts, and a sleep of 0.1 seconds,
    and at last the request that succeeded, logged when [debug] is on; an
    acquisition that raises [TimeoutError] has done the same up to its
    rounds, then a refused request, the clock, and [close].  So a request
    follows the previous one by a sleep, never at once, and [n + 1]
    requests are made for [n] sleeps.  (For [AsyncFileLock], with the
    dispatches forgotten and the cooperative sleep read as a sleep.) *)
Theorem acquisition_call_sequence (fuel : nat) (s : FileLock.t)
    (a : AsyncFileLock.t) (w : World) :
  (∀ st', FileLock.__enter__ fuel (mkSt s w) = (Ok tt, st') →
     ∃ n fd,
       FileLock.lockfile (self st') = Some (File fd false) ∧
       trace (world st')
       = said (FileLock.debug s) MsgAcquired ++
         EvFlock fd (Z.lor LOCK_EX LOCK_NB) ::
         rounds n fd (counts (FileLock.timeout s)) ++
         opening (FileLock.lockfile_path s) (FileLock.debug s) ++ trace w) ∧
  (∀ t st', FileLock.__enter__ fuel (mkSt s w) = (Raise (TimeoutError t), st') →
     ∃ n fd,
       FileLock.lockfile (self st') = Some (File fd true) ∧
       trace (world st')
       = EvClose fd :: EvTime :: EvFlock fd (Z.lor LOCK_EX LOCK_NB) ::
         rounds n fd true ++
         opening (FileLock.lockfile_path s) (FileLock.debug s) ++ trace w) ∧
  (∀ st', AsyncFileLock.__aenter__ fuel (mkSt a w) = (Ok tt, st') →
     ∃ n fd,
       AsyncFileLock.lockfile (self st') = Some (File fd false) ∧
       omap erase (trace (world st'))
       = said (AsyncFileLock.debug a) MsgAcquired ++
         EvFlock fd (Z.lor LOCK_EX LOCK_NB) ::
         rounds n fd (counts (AsyncFileLock.timeout a)) ++
         opening (AsyncFileLock.lockfile_path a) (AsyncFileLock.debug a) ++
         omap erase (trace w)) ∧
  (∀ t st', AsyncFileLock.__aenter__ fuel (mkSt a w)
              = (Raise (TimeoutError t), st') →
     ∃ n fd,
       AsyncFileLock.lockfile (self st') = Some (File fd true) ∧
       omap erase (trace (world st'))
       = EvClose fd :: EvTime :: EvFlock fd (Z.lor LOCK_EX LOCK_NB) ::
         rounds n fd true ++
         opening (AsyncFileLock.lockfile_path a) (AsyncFileLock.debug a) ++
         omap erase (trace w)).
Proof.
  split_and!.
  - intros st' Hrun. pose proof (enter_calls fuel (mkSt s w)) as H.
    rewrite Hrun in H. destruct H as (n & fd & Hs & Ht).
    exists n, fd. split; [by rewrite Hs|done].
  - intros t st' Hrun. pose proof (enter_calls fuel (mkSt s w)) as H.
    rewrite Hrun in H. destruct H as (_ & _ & n & fd & Hs & Ht).
    exists n, fd. split; [by rewrite Hs|done].
  - intros st' Hrun. apply aenter_run in Hrun.
    pose proof (enter_calls fuel (to_sync (mkSt a w))) as H.
    rewrite Hrun in H. destruct H as (n & fd & Hs & Ht).
    exists n, fd. split; [|done].
    apply forget_set in Hs. by rewrite Hs.
  - intros t st' Hrun. apply aenter_run in Hrun.
    pose proof (enter_calls fuel (to_sync (mkSt a w))) as H.
    rewrite Hrun in H. destruct H as (_ & _ & n & fd & Hs & Ht).
    exists n, fd. split; [|done].
    apply forget_set in Hs. by rewrite Hs.
Qed.

Lemma acquisition_call_sequence_witness :
  ∃ n fd,
    trace (world timed_out)
    = EvClose fd :: EvTime :: EvFlock fd (Z.lor LOCK_EX LOCK_NB) ::
      rounds n fd true ++ opening path false ++ [].
Proof.
  destruct (acquisition_call_sequence 4 (sync_handle (Some (1 # 5)) false)
              (async_handle None false) (quiet k_held)) as (_ & H & _).
  destruct (H (Some (1 # 5)) timed_out) as (n & fd & _ & Ht).
  - vm_compute. reflexivity.
  - exists n, fd. exact Ht.
Defined.

(** X15.  The calls of a release.  From any state of a handle of either
    class with an open file in its [lockfile] attribute, and in any world:
    the release requests the unlock, logs one line when [debug] is on
    (that the lock is released if the unlock succeeded, the error of the
    unlock otherwise), and then closes the file, in this order and
    whatever the unlock answered; it returns with the attribute cleared,
    or it raises the [OSError] of [close] with the closed file left in the
    attribute.  (For [AsyncFileLock], with the dispatches forgotten.) *)
Theorem release_call_sequence (s : FileLock.t) (a : AsyncFileLock.t)
    (w : World) (fd : nat) :
  let unlocked :=
    fst (sys_flock (me w) fd LOCK_UN (Env.run (hd [] (env w)) (kernel w))) in
  let msg := match unlocked with
             | None => MsgReleased
             | Some e => MsgReleaseError (OSError e)
             end in
  (FileLock.lockfile s = Some (File fd false) →
   let r := FileLock.__exit__ (mkSt s w) in
   trace (world (snd r))
   = EvClose fd :: said (FileLock.debug s) msg ++ EvFlock fd LOCK_UN :: trace w ∧
   ((fst r = Ok tt ∧ FileLock.lockfile (self (snd r)) = None) ∨
    (∃ e, fst r = Raise (OSError e) ∧
          FileLock.lockfile (self (snd r)) = Some (File fd true)))) ∧
  (AsyncFileLock.lockfile a = Some (File fd false) →
   let r := AsyncFileLock.__aexit__ (mkSt a w) in
   omap erase (trace (world (snd r)))
   = EvClose fd :: said (AsyncFileLock.debug a) msg ++
     EvFlock fd LOCK_UN :: omap erase (trace w) ∧
   ((fst r = Ok tt ∧ AsyncFileLock.lockfile (self (snd r)) = None) ∨
    (∃ e, fst r = Raise (OSError e) ∧
          AsyncFileLock.lockfile (self (snd r)) = Some (File fd true)))).
Proof.
  cbn zeta. split.
  - intros Hlf. destruct w as [k env tr m].
    destruct (exit_calls s k env tr m fd Hlf) as [Ht Hr]. split; [done|].
    destruct Hr as [[-> ->]|(e & -> & ->)]; [by left|right; by exists e].
  - intros Hlf. destruct w as [k env tr m].
    destruct (exit_calls (forget a) k env (omap erase tr) m fd Hlf) as [Ht Hr].
    change (mkSt (forget a) (mkWorld k env (omap erase tr) m))
      with (to_sync (mkSt a (mkWorld k env tr m))) in Ht, Hr.
    rewrite <- aexit_snd in Ht, Hr. rewrite <- aexit_fst in Hr.
    split; [done|].
    destruct Hr as [[-> Hs]|(e & -> & Hs)]; [left|right; exists e];
      (split; [done|]); apply forget_set in Hs; by rewrite Hs.
Qed.

Lemma release_call_sequence_witness :
  trace (world (snd (FileLock.__exit__ (holding then_unlock_fails))))
  = EvClose 0 :: EvFlock 0 LOCK_UN :: trace (world (holding then_unlock_fails)).
Proof.
  destruct (release_call_sequence (self (holding then_unlock_fails))
              (self (aholding [])) (world (holding then_unlock_fails)) 0)
    as (H & _).
  destruct H as [Ht _]; [reflexivity|]. exact Ht.
Defined.
